(** * Verification of selected behaviour of the component library

    The development embeds, function by function, the TypeScript sources of
    - the two progress bars (material and MDC),
    - the overlay mouse click dispatcher,
    - the Testbed harness environment,
    - the version keyed upgrade data and the element selectors rule,
    - the update tool ([UpdateProject.migrate]) and the devkit schematic rule,
    and proves the properties stated about them. *)

From Stdlib Require Import ZArith QArith Lia.
From stdpp Require Import base option list gmap strings pretty.

(** ** JavaScript numbers and values

    An ECMAScript number is an IEEE double.  The code under study only ever
    compares numbers ([<], [Math.min], [Math.max]) and tests them for
    truthiness; comparisons of doubles are exact and [Math.min] and
    [Math.max] return one of their arguments, so a double is modelled by its
    mathematical value: [NaN], the two infinities or a rational.  The sign
    of zero is not observable through these operations and is not
    represented. *)
Module Js.

Inductive number : Type :=
| NaN
| NegInfinity
| Finite (q : Q)
| Infinity.

Definition isNaN (n : number) : bool :=
  match n with NaN => true | _ => false end.

(** [a <= b] of ECMAScript: false as soon as an operand is [NaN]. *)
Definition leb (a b : number) : bool :=
  match a, b with
  | NaN, _ | _, NaN => false
  | NegInfinity, _ => true
  | _, Infinity => true
  | Finite p, Finite q => Qle_bool p q
  | _, _ => false
  end.

(** [a < b] of ECMAScript. *)
Definition ltb (a b : number) : bool :=
  match a, b with
  | NaN, _ | _, NaN => false
  | _, _ => negb (leb b a)
  end.

(** [Math.min(a, b)] and [Math.max(a, b)] on numbers. *)
Definition min (a b : number) : number :=
  match a, b with
  | NaN, _ | _, NaN => NaN
  | _, _ => if ltb b a then b else a
  end.

Definition max (a b : number) : number :=
  match a, b with
  | NaN, _ | _, NaN => NaN
  | _, _ => if ltb a b then b else a
  end.

(** A quotient [a / b] of two numbers, kept as written: the division of
    doubles rounds, and nothing below depends on its result. *)
Inductive quotient : Type :=
| divide (a b : number).

(** The values an input binding can receive according to
    [ngAcceptInputType_value: number | string | null | undefined]. *)
Inductive val : Type :=
| VNumber (n : number)
| VString (s : string)
| VNull
| VUndefined.

(** Truthiness, as used by [||]. *)
Definition truthy (v : val) : bool :=
  match v with
  | VNumber NaN => false
  | VNumber (Finite q) => negb (Qeq_bool q 0)
  | VNumber _ => true
  | VString s => negb (String.eqb s EmptyString)
  | VNull | VUndefined => false
  end.

(** [v || d]. *)
Definition or (v d : val) : val := if truthy v then v else d.

Section ToNumber.
(** The string to number conversion of the language ([Number(s)]). *)
Variable StringToNumber : string -> number.

(** The implicit conversion applied by [Math.min] and [Math.max] to their
    arguments. *)
Definition ToNumber (v : val) : number :=
  match v with
  | VNumber n => n
  | VString s => StringToNumber s
  | VNull => Finite 0
  | VUndefined => NaN
  end.

Definition Math_min (a b : val) : number := min (ToNumber a) (ToNumber b).
Definition Math_max (a b : val) : number := max (ToNumber a) (ToNumber b).
End ToNumber.

Definition zero : number := Finite 0.
Definition hundred : number := Finite 100.

(** [0 <= n && n <= 100]. *)
Definition in_range (n : number) : bool := leb zero n && leb n hundred.

End Js.

(** ** The progress bars

    [MatProgressBar] of [material/progress-bar] and of
    [material-experimental/mdc-progress-bar]. *)
Module ProgressBar.
Import Js.

(** [ProgressBarMode = 'determinate' | 'indeterminate' | 'buffer' | 'query'] *)
Inductive ProgressBarMode : Type :=
| determinate
| indeterminate
| buffer
| query.

Definition mode_string (m : ProgressBarMode) : string :=
  match m with
  | determinate => "determinate"
  | indeterminate => "indeterminate"
  | buffer => "buffer"
  | query => "query"
  end.

Definition mode_eqb (a b : ProgressBarMode) : bool :=
  String.eqb (mode_string a) (mode_string b).

(** What a host binding evaluates to: [null] removes the attribute. *)
Inductive HostValue : Type :=
| HNull
| HString (s : string)
| HNumber (n : number)
| HBool (b : bool).

(** The [host] metadata of a component, in source order. *)
Definition HostBindings : Type := list (string * HostValue).

Fixpoint host_lookup (name : string) (h : HostBindings) : option HostValue :=
  match h with
  | [] => None
  | (k, v) :: rest => if String.eqb k name then Some v else host_lookup name rest
  end.

Section Clamp.
Variable StringToNumber : string -> number.

(** [function clamp(v: number, min = 0, max = 100)
      { return Math.max(min, Math.min(max, v)); }] *)
Definition clamp (v : val) (min max : number) : number :=
  Math_max StringToNumber (VNumber min)
    (VNumber (Math_min StringToNumber (VNumber max) v)).

(** The inputs the setters are specified for: a number, a numeric string,
    [null] or [undefined]. *)
Definition numericInput (v : val) : Prop :=
  match v with
  | VString s => isNaN (StringToNumber s) = false
  | _ => True
  end.

(** [stored] is what clamping [x] between 0 and 100 gives, that is
    [max(0, min(100, x))], and lies between 0 and 100. *)
Definition clamped_to (x : val) (stored : number) : Prop :=
  stored = clamp x zero hundred /\
  stored = max zero (min hundred (ToNumber StringToNumber x)) /\
  in_range stored = true.
End Clamp.

(** An assignment to one of the inputs of a progress bar. *)
Inductive Assignment : Type :=
| AssignValue (v : val)
| AssignBufferValue (v : val)
| AssignMode (m : ProgressBarMode).

Definition numericAssignment (StringToNumber : string -> number)
    (a : Assignment) : Prop :=
  match a with
  | AssignValue v | AssignBufferValue v => numericInput StringToNumber v
  | AssignMode _ => True
  end.

(** *** [material/progress-bar] *)
Module Material.
Section Material.
Variable StringToNumber : string -> number.
(** [coerceNumberProperty] of [@angular/cdk/coercion]. *)
Variable coerceNumberProperty : val -> number.

Record MatProgressBar : Type := {
  _isNoopAnimation : bool;
  _value : number;
  _bufferValue : number;
  mode : ProgressBarMode;
  (** the events emitted so far on [animationEnd], oldest first, by the
      setter of [value] and by the subscription to [transitionend] *)
  animationEnd : list number;
  (** whether [_animationEndSubscription] is a live subscription:
      [Subscription.EMPTY] and a subscription that was unsubscribed are
      not *)
  _animationEndSubscription : bool;
}.

(** Field initialisers and constructor. *)
Definition new (_animationMode : option string) : MatProgressBar :=
  {| _isNoopAnimation :=
       match _animationMode with
       | Some m => String.eqb m "NoopAnimations"
       | None => false
       end;
     _value := zero;
     _bufferValue := zero;
     mode := determinate;
     animationEnd := [];
     _animationEndSubscription := false |}.

Definition value (c : MatProgressBar) : number := _value c.
Definition bufferValue (c : MatProgressBar) : number := _bufferValue c.

Definition _emitAnimationEnd (c : MatProgressBar) : MatProgressBar :=
  if mode_eqb (mode c) determinate || mode_eqb (mode c) buffer
  then {| _isNoopAnimation := _isNoopAnimation c;
          _value := _value c;
          _bufferValue := _bufferValue c;
          mode := mode c;
          animationEnd := animationEnd c ++ [value c];
          _animationEndSubscription := _animationEndSubscription c |}
  else c.

(** [set value(v)] *)
Definition set_value (v : val) (c : MatProgressBar) : MatProgressBar :=
  let c1 :=
    {| _isNoopAnimation := _isNoopAnimation c;
       _value := clamp StringToNumber
                   (or (VNumber (coerceNumberProperty v)) (VNumber zero))
                   zero hundred;
       _bufferValue := _bufferValue c;
       mode := mode c;
       animationEnd := animationEnd c;
       _animationEndSubscription := _animationEndSubscription c |} in
  if _isNoopAnimation c1 then _emitAnimationEnd c1 else c1.

(** [set bufferValue(v)] *)
Definition set_bufferValue (v : val) (c : MatProgressBar) : MatProgressBar :=
  {| _isNoopAnimation := _isNoopAnimation c;
     _value := _value c;
     _bufferValue := clamp StringToNumber (or v (VNumber zero)) zero hundred;
     mode := mode c;
     animationEnd := animationEnd c;
     _animationEndSubscription := _animationEndSubscription c |}.

Definition set_mode (m : ProgressBarMode) (c : MatProgressBar) : MatProgressBar :=
  {| _isNoopAnimation := _isNoopAnimation c;
     _value := _value c;
     _bufferValue := _bufferValue c;
     mode := m;
     animationEnd := animationEnd c;
     _animationEndSubscription := _animationEndSubscription c |}.

Definition assign (c : MatProgressBar) (a : Assignment) : MatProgressBar :=
  match a with
  | AssignValue v => set_value v c
  | AssignBufferValue v => set_bufferValue v c
  | AssignMode m => set_mode m c
  end.

(** [ngAfterViewInit()]: unless animations are disabled, subscribe to the
    [transitionend] events of the primary value bar. *)
Definition ngAfterViewInit (c : MatProgressBar) : MatProgressBar :=
  if negb (_isNoopAnimation c) then
    {| _isNoopAnimation := _isNoopAnimation c;
       _value := _value c;
       _bufferValue := _bufferValue c;
       mode := mode c;
       animationEnd := animationEnd c;
       _animationEndSubscription := true |}
  else c.

(** A [transitionend] event reaches the primary value bar; [onElement]
    tells whether its target is the bar itself
    ([filter(e => e.target === element)]) rather than a descendant. *)
Definition transitionend (onElement : bool) (c : MatProgressBar)
    : MatProgressBar :=
  if _animationEndSubscription c && onElement then _emitAnimationEnd c
  else c.

(** [ngOnDestroy()] *)
Definition ngOnDestroy (c : MatProgressBar) : MatProgressBar :=
  {| _isNoopAnimation := _isNoopAnimation c;
     _value := _value c;
     _bufferValue := _bufferValue c;
     mode := mode c;
     animationEnd := animationEnd c;
     _animationEndSubscription := false |}.

(** What happens to the component: an input is assigned, the view is
    initialised, a transition ends in the primary value bar, or the
    component is destroyed. *)
Inductive Event : Type :=
| Assign (a : Assignment)
| AfterViewInit
| TransitionEnd (onElement : bool)
| Destroy.

Definition step (c : MatProgressBar) (e : Event) : MatProgressBar :=
  match e with
  | Assign a => assign c a
  | AfterViewInit => ngAfterViewInit c
  | TransitionEnd onElement => transitionend onElement c
  | Destroy => ngOnDestroy c
  end.

(** The [host] object of the [@Component] decorator. *)
Definition host (c : MatProgressBar) : HostBindings :=
  [ ("role", HString "progressbar");
    ("aria-valuemin", HString "0");
    ("aria-valuemax", HString "100");
    ("[attr.aria-valuenow]",
       if mode_eqb (mode c) indeterminate || mode_eqb (mode c) query
       then HNull else HNumber (value c));
    ("[attr.mode]", HString (mode_string (mode c)));
    ("class", HString "mat-progress-bar");
    ("[class._mat-animation-noopable]", HBool (_isNoopAnimation c)) ].

Definition invariant (c : MatProgressBar) : Prop :=
  in_range (value c) = true /\ in_range (bufferValue c) = true.
End Material.
End Material.

(** *** [material-experimental/mdc-progress-bar] *)
Module Mdc.
Section Mdc.
Variable StringToNumber : string -> number.

(** [Directionality.value] *)
Inductive Direction : Type := ltr | rtl.

(** The calls made on [MDCLinearProgressFoundation]. *)
Inductive FoundationCall : Type :=
| init
| setReverse (b : bool)
| setDeterminate (b : bool)
| setProgress (value : quotient)
| setBuffer (value : quotient).

Record MatProgressBar : Type := {
  _platform_isBrowser : bool;
  _dir : option Direction;
  _isNoopAnimation : bool;
  (** [undefined] until [ngAfterViewInit]; then the calls received, oldest
      first *)
  _foundation : option (list FoundationCall);
  _value : number;
  _bufferValue : number;
  _mode : ProgressBarMode;
}.

Definition new (isBrowser : bool) (dir : option Direction)
    (_animationMode : option string) : MatProgressBar :=
  {| _platform_isBrowser := isBrowser;
     _dir := dir;
     _isNoopAnimation :=
       match _animationMode with
       | Some m => String.eqb m "NoopAnimations"
       | None => false
       end;
     _foundation := None;
     _value := zero;
     _bufferValue := zero;
     _mode := determinate |}.

Definition value (c : MatProgressBar) : number := _value c.

(** [get bufferValue(): number { return this._bufferValue || 0; }] *)
Definition bufferValue (c : MatProgressBar) : number :=
  if truthy (VNumber (_bufferValue c)) then _bufferValue c else zero.

Definition mode (c : MatProgressBar) : ProgressBarMode := _mode c.

Definition with_foundation (f : option (list FoundationCall))
    (c : MatProgressBar) : MatProgressBar :=
  {| _platform_isBrowser := _platform_isBrowser c;
     _dir := _dir c;
     _isNoopAnimation := _isNoopAnimation c;
     _foundation := f;
     _value := _value c;
     _bufferValue := _bufferValue c;
     _mode := _mode c |}.

(** [_syncFoundation()] *)
Definition _syncFoundation (c : MatProgressBar) : MatProgressBar :=
  match _foundation c with
  | Some calls =>
      if _platform_isBrowser c then
        let direction := match _dir c with Some d => d | None => ltr end in
        let mode := mode c in
        let calls1 :=
          calls ++
          [ setReverse (match direction with
                        | rtl => negb (mode_eqb mode query)
                        | ltr => mode_eqb mode query
                        end);
            setDeterminate (negb (mode_eqb mode indeterminate) &&
                            negb (mode_eqb mode query));
            setProgress (divide (value c) hundred) ] in
        let calls2 :=
          if mode_eqb mode buffer
          then calls1 ++ [setBuffer (divide (bufferValue c) hundred)]
          else calls1 in
        with_foundation (Some calls2) c
      else c
  | None => c
  end.

(** [set value(v)] *)
Definition set_value (v : val) (c : MatProgressBar) : MatProgressBar :=
  _syncFoundation
    {| _platform_isBrowser := _platform_isBrowser c;
       _dir := _dir c;
       _isNoopAnimation := _isNoopAnimation c;
       _foundation := _foundation c;
       _value := clamp StringToNumber (or v (VNumber zero)) zero hundred;
       _bufferValue := _bufferValue c;
       _mode := _mode c |}.

(** [set bufferValue(v)] *)
Definition set_bufferValue (v : val) (c : MatProgressBar) : MatProgressBar :=
  _syncFoundation
    {| _platform_isBrowser := _platform_isBrowser c;
       _dir := _dir c;
       _isNoopAnimation := _isNoopAnimation c;
       _foundation := _foundation c;
       _value := _value c;
       _bufferValue := clamp StringToNumber (or v (VNumber zero)) zero hundred;
       _mode := _mode c |}.

(** [set mode(value)] *)
Definition set_mode (m : ProgressBarMode) (c : MatProgressBar) : MatProgressBar :=
  _syncFoundation
    {| _platform_isBrowser := _platform_isBrowser c;
       _dir := _dir c;
       _isNoopAnimation := _isNoopAnimation c;
       _foundation := _foundation c;
       _value := _value c;
       _bufferValue := _bufferValue c;
       _mode := m |}.

(** [ngAfterViewInit()], as far as the foundation is concerned. *)
Definition ngAfterViewInit (c : MatProgressBar) : MatProgressBar :=
  _syncFoundation (with_foundation (Some [init]) c).

Definition assign (c : MatProgressBar) (a : Assignment) : MatProgressBar :=
  match a with
  | AssignValue v => set_value v c
  | AssignBufferValue v => set_bufferValue v c
  | AssignMode m => set_mode m c
  end.

(** The [host] object of the [@Component] decorator. *)
Definition host (c : MatProgressBar) : HostBindings :=
  [ ("role", HString "progressbar");
    ("aria-valuemin", HString "0");
    ("aria-valuemax", HString "100");
    ("[attr.aria-valuenow]",
       if mode_eqb (mode c) indeterminate || mode_eqb (mode c) query
       then HNull else HNumber (value c));
    ("[attr.mode]", HString (mode_string (mode c)));
    ("class", HString "mat-mdc-progress-bar");
    ("[class._mat-animation-noopable]", HBool (_isNoopAnimation c)) ].

Definition invariant (c : MatProgressBar) : Prop :=
  in_range (value c) = true /\ in_range (bufferValue c) = true.
End Mdc.
End Mdc.

(** The attributes of the host element after change detection: a static
    entry is copied, [[attr.x]] sets attribute [x] unless the expression is
    [null], in which case the attribute is absent. *)
Definition attribute (name : string) (h : HostBindings) : option HostValue :=
  match host_lookup name h with
  | Some v => Some v
  | None =>
      match host_lookup ("[attr." +:+ name +:+ "]") h with
      | Some HNull => None
      | other => other
      end
  end.

(** A string to number conversion and a [coerceNumberProperty] restricted to
    the literals used in the examples below. *)
Definition sampleStringToNumber (s : string) : number :=
  if String.eqb s EmptyString then zero
  else if String.eqb s "50" then Finite 50
  else if String.eqb s "250" then Finite 250
  else NaN.

Definition sampleCoerceNumberProperty (v : val) : number :=
  match v with
  | VNumber n => if isNaN n then zero else n
  | VString s => if String.eqb s EmptyString then zero
                 else if isNaN (sampleStringToNumber s) then zero
                 else sampleStringToNumber s
  | VNull | VUndefined => zero
  end.

End ProgressBar.

(** ** The overlay mouse click dispatcher

    [OverlayMouseClickDispatcher._clickListener]. *)
Module Overlay.
Import Js.

(** The result of [getBoundingClientRect()]. *)
Record ClientRect : Type := {
  left : number;
  right : number;
  top : number;
  bottom : number;
}.

Record MouseEvent : Type := {
  clientX : number;
  clientY : number;
}.

Record OverlayConfig : Type := {
  detachOnOutsideClick : bool;
}.

(** An overlay reference, as far as the listener looks at it. *)
Record OverlayRef : Type := {
  overlayId : nat;
  (** [overlayElement.getBoundingClientRect()] at the time of the click *)
  overlayRect : ClientRect;
  getConfig : OverlayConfig;
}.

Record Dispatcher : Type := {
  (** Currently attached overlays in the order they were attached. *)
  _attachedOverlays : list OverlayRef;
  _isAttached : bool;
  (** the calls [overlayRef.detach()] made so far, oldest first *)
  detachCalls : list OverlayRef;
}.

(** How the listener ends: it returns, or reading a property of an
    [undefined] array element throws. *)
Inductive Completion : Type :=
| Returned
| TypeError.

Definition wellFormed (r : ClientRect) : Prop :=
  leb (left r) (right r) = true /\ leb (top r) (bottom r) = true.

(** [const isOutsideClick =
       event.clientX < overlayRect.left && overlayRect.right < event.clientX &&
       event.clientY < overlayRect.top && overlayRect.bottom < event.clientY] *)
Definition isOutsideClick (event : MouseEvent) (overlayRect : ClientRect) : bool :=
  ltb (clientX event) (left overlayRect) &&
  ltb (right overlayRect) (clientX event) &&
  ltb (clientY event) (top overlayRect) &&
  ltb (bottom overlayRect) (clientY event).

Section Listener.
(** What [OverlayRef.detach()] does to the array of attached overlays (the
    overlay may unregister itself from the dispatcher). *)
Variable detachEffect : OverlayRef -> list OverlayRef -> list OverlayRef.

Definition detach (overlayRef : OverlayRef) (d : Dispatcher) : Dispatcher :=
  {| _attachedOverlays := detachEffect overlayRef (_attachedOverlays d);
     _isAttached := _isAttached d;
     detachCalls := detachCalls d ++ [overlayRef] |}.

(** The body of [for (let i = overlays.length - 1; i > -1; i--)];
    [n] is [i + 1]. *)
Fixpoint clickLoop (event : MouseEvent) (n : nat) (d : Dispatcher)
    : Dispatcher * Completion :=
  match n with
  | 0 => (d, Returned)
  | S i =>
      match _attachedOverlays d !! i with
      | None => (d, TypeError)
      | Some overlayRef =>
          if isOutsideClick event (overlayRect overlayRef) then
            clickLoop event i
              (if detachOnOutsideClick (getConfig overlayRef)
               then detach overlayRef d else d)
          else (d, Returned)
      end
  end.

Definition _clickListener (event : MouseEvent) (d : Dispatcher)
    : Dispatcher * Completion :=
  clickLoop event (length (_attachedOverlays d)) d.
End Listener.

(** A click in the middle of the only attached overlay, which asks to be
    detached on outside clicks. *)
Definition sampleDetachEffect (o : OverlayRef) (l : list OverlayRef)
    : list OverlayRef :=
  filter (fun x => overlayId x <> overlayId o) l.

Definition sampleClick : MouseEvent :=
  {| clientX := Finite 15; clientY := Finite 15 |}.

Definition sampleDispatcher : Dispatcher :=
  {| _attachedOverlays :=
       [ {| overlayId := 0;
            overlayRect := {| left := Finite 10; right := Finite 20;
                              top := Finite 10; bottom := Finite 20 |};
            getConfig := {| detachOnOutsideClick := true |} |} ];
     _isAttached := true;
     detachCalls := [] |}.

(** A click far away from that overlay. *)
Definition sampleOutsideClick : MouseEvent :=
  {| clientX := Finite 500; clientY := Finite 500 |}.

End Overlay.

(** ** The Testbed harness environment

    [TestbedHarnessEnvironment.forceStabilize] and the [_destroyed] flag the
    constructor hooks to the destruction of the fixture. *)
Module Testbed.

(** An [Error] thrown by the harness, with its message, and the error
    Angular throws when a destroyed view is used (ViewDestroyedError). *)
Inductive Error : Type :=
| MkError (message : string)
| ViewDestroyedError.

(** The settlement of the promise returned by an [async] method. *)
Inductive Promise (A : Type) : Type :=
| Resolved (a : A)
| Rejected (e : Error).
Arguments Resolved {A} a.
Arguments Rejected {A} e.

(** A callback registered with [componentRef.onDestroy]: the one of the
    environment, [() => this._destroyed = true], or one of somebody else. *)
Inductive DestroyCallback : Type :=
| SetEnvironmentDestroyed
| Foreign.

(** The component fixture, as far as the environment uses it. *)
Record ComponentFixture : Type := {
  fixtureDestroyed : bool;
  destroyCallbacks : list DestroyCallback;
  detectChangesCalls : nat;
  whenStableCalls : nat;
}.

(** The environment together with the fixture it holds a reference to. *)
Record World : Type := {
  _fixture : ComponentFixture;
  (** Whether the environment has been destroyed. *)
  _destroyed : bool;
}.

(** [constructor]: [_destroyed = false] and
    [_fixture.componentRef.onDestroy(() => this._destroyed = true)].  On a
    fixture that is already destroyed the callback is registered too late
    to run. *)
Definition new (fixture : ComponentFixture) : World :=
  {| _fixture :=
       {| fixtureDestroyed := fixtureDestroyed fixture;
          destroyCallbacks := destroyCallbacks fixture ++ [SetEnvironmentDestroyed];
          detectChangesCalls := detectChangesCalls fixture;
          whenStableCalls := whenStableCalls fixture |};
     _destroyed := false |}.

Definition runCallback (destroyed : bool) (cb : DestroyCallback) : bool :=
  match cb with
  | SetEnvironmentDestroyed => true
  | Foreign => destroyed
  end.

(** Destruction of the fixture: the registered callbacks run, once. *)
Definition destroyFixture (w : World) : World :=
  if fixtureDestroyed (_fixture w) then w
  else
    {| _fixture :=
         {| fixtureDestroyed := true;
            destroyCallbacks := [];
            detectChangesCalls := detectChangesCalls (_fixture w);
            whenStableCalls := whenStableCalls (_fixture w) |};
       _destroyed := fold_left runCallback (destroyCallbacks (_fixture w))
                       (_destroyed w) |}.

Definition destroyedMessage : string :=
  "Harness is attempting to use a fixture that has already been destroyed.".

(** [async forceStabilize(): Promise<void>].  On a destroyed fixture
    [this._fixture.detectChanges()] throws, and [whenStable] is not
    reached. *)
Definition forceStabilize (w : World) : World * Promise unit :=
  if _destroyed w then
    (w, Rejected (MkError destroyedMessage))
  else if fixtureDestroyed (_fixture w) then
    ({| _fixture :=
          {| fixtureDestroyed := fixtureDestroyed (_fixture w);
             destroyCallbacks := destroyCallbacks (_fixture w);
             detectChangesCalls := S (detectChangesCalls (_fixture w));
             whenStableCalls := whenStableCalls (_fixture w) |};
        _destroyed := _destroyed w |},
     Rejected ViewDestroyedError)
  else
    ({| _fixture :=
          {| fixtureDestroyed := fixtureDestroyed (_fixture w);
             destroyCallbacks := destroyCallbacks (_fixture w);
             detectChangesCalls := S (detectChangesCalls (_fixture w));
             whenStableCalls := S (whenStableCalls (_fixture w)) |};
        _destroyed := _destroyed w |},
     Resolved tt).

(** What a test does with a fixture and its environment. *)
Inductive Action : Type :=
| DestroyFixture
| ForceStabilize.

Definition step (w : World) (a : Action) : World :=
  match a with
  | DestroyFixture => destroyFixture w
  | ForceStabilize => fst (forceStabilize w)
  end.



(** A fixture fresh from [TestBed.createComponent]. *)
Definition liveFixture (callbacks : list DestroyCallback) : ComponentFixture :=
  {| fixtureDestroyed := false;
     destroyCallbacks := callbacks;
     detectChangesCalls := 0;
     whenStableCalls := 0 |}.


End Testbed.

(** ** Target versions and version keyed upgrade data

    [update-tool/target-version.ts], [ng-update/upgrade-data.ts] and the data
    tables of [ng-update/data]. *)
Module UpgradeData.

(** [enum TargetVersion]; the members are the strings on the right. *)
Inductive TargetVersion : Type := V6 | V7 | V8 | V9 | V10.

Definition TargetVersion_value (t : TargetVersion) : string :=
  match t with
  | V6 => "version 6"
  | V7 => "version 7"
  | V8 => "version 8"
  | V9 => "version 9"
  | V10 => "version 10"
  end.

(** One entry of a table: the pull request and the changes it made. *)
Record ReadableChange (T : Type) : Type := {
  pr : string;
  changes : list T;
}.
Arguments pr {T} _.
Arguments changes {T} _.

(** [VersionChanges<T>]: an object keyed by the values of [TargetVersion]. *)
Abbreviation VersionChanges T := (gmap string (list (ReadableChange T))).

(** Modelled from the spec: [getChangesForTarget] of
    [update-tool/version-changes.ts] is not among the sources.  The tables
    are "version-keyed tables mapping deprecated symbol names to
    replacements"; the changes recorded under a target version are those of
    all the entries listed under its key, in order, and there are none when
    the table has no such key. *)
Definition getChangesForTarget {T : Type} (target : TargetVersion)
    (data : VersionChanges T) : list T :=
  match data !! TargetVersion_value target with
  | Some entries => concat (map changes entries)
  | None => []
  end.

(** [data/class-names.ts] *)
Record ClassNameUpgradeData : Type := {
  replace : string;
  replaceWith : string;
}.

Definition classNames_table : VersionChanges ClassNameUpgradeData :=
  {[ TargetVersion_value V6 :=
       [ {| pr := "https://github.com/angular/components/pull/10161";
            changes :=
              [ {| replace := "ConnectedOverlayDirective";
                   replaceWith := "CdkConnectedOverlay" |};
                {| replace := "OverlayOrigin";
                   replaceWith := "CdkOverlayOrigin" |} ] |};
         {| pr := "https://github.com/angular/components/pull/10267";
            changes :=
              [ {| replace := "ObserveContent";
                   replaceWith := "CdkObserveContent" |} ] |};
         {| pr := "https://github.com/angular/components/pull/10325";
            changes :=
              [ {| replace := "FocusTrapDirective";
                   replaceWith := "CdkTrapFocus" |} ] |} ] ]}.

(** The one character string holding a double quote. *)
Definition doubleQuote : string := String (Ascii.ascii_of_nat 34) EmptyString.

(** [data/method-call-checks.ts] *)
Record InvalidArgCount : Type := {
  count : nat;
  message : string;
}.

Record MethodCallUpgradeData : Type := {
  className : string;
  method : string;
  invalidArgCounts : list InvalidArgCount;
}.

Definition methodCallChecks_table : VersionChanges MethodCallUpgradeData :=
  {[ TargetVersion_value V6 :=
       [ {| pr := "https://github.com/angular/components/pull/10325";
            changes :=
              [ {| className := "FocusMonitor";
                   method := "monitor";
                   invalidArgCounts :=
                     [ {| count := 3;
                          message :=
                            "The " +:+ doubleQuote +:+ "renderer" +:+
                            doubleQuote +:+ " argument has been removed" |} ]
                |} ] |} ] ]}.

(** [ElementSelectorUpgradeData], with the two fields the element selectors
    rule reads. *)
Record ElementSelectorUpgradeData : Type := {
  selector_replace : string;
  selector_replaceWith : string;
}.

Section RuleUpgradeData.
(** The element types of the tables whose declarations are not among the
    sources. *)
Variables AttributeSelectorUpgradeData ConstructorChecksUpgradeData
          CssSelectorUpgradeData InputNameUpgradeData OutputNameUpgradeData
          PropertyNameUpgradeData : Type.

(** [interface RuleUpgradeData] *)
Record RuleUpgradeData : Type := {
  attributeSelectors : VersionChanges AttributeSelectorUpgradeData;
  classNames : VersionChanges ClassNameUpgradeData;
  constructorChecks : VersionChanges ConstructorChecksUpgradeData;
  cssSelectors : VersionChanges CssSelectorUpgradeData;
  elementSelectors : VersionChanges ElementSelectorUpgradeData;
  inputNames : VersionChanges InputNameUpgradeData;
  methodCallChecks : VersionChanges MethodCallUpgradeData;
  outputNames : VersionChanges OutputNameUpgradeData;
  propertyNames : VersionChanges PropertyNameUpgradeData;
}.

(** [keyof RuleUpgradeData] *)
Inductive DataName : Type :=
| key_attributeSelectors
| key_classNames
| key_constructorChecks
| key_cssSelectors
| key_elementSelectors
| key_inputNames
| key_methodCallChecks
| key_outputNames
| key_propertyNames.

(** [ValueOfChanges<RuleUpgradeData[T]>] *)
Definition ValueOfChanges (dataName : DataName) : Type :=
  match dataName with
  | key_attributeSelectors => AttributeSelectorUpgradeData
  | key_classNames => ClassNameUpgradeData
  | key_constructorChecks => ConstructorChecksUpgradeData
  | key_cssSelectors => CssSelectorUpgradeData
  | key_elementSelectors => ElementSelectorUpgradeData
  | key_inputNames => InputNameUpgradeData
  | key_methodCallChecks => MethodCallUpgradeData
  | key_outputNames => OutputNameUpgradeData
  | key_propertyNames => PropertyNameUpgradeData
  end.

(** [upgradeData[dataName]] *)
Definition table (upgradeData : RuleUpgradeData) (dataName : DataName)
    : VersionChanges (ValueOfChanges dataName) :=
  match dataName with
  | key_attributeSelectors => attributeSelectors upgradeData
  | key_classNames => classNames upgradeData
  | key_constructorChecks => constructorChecks upgradeData
  | key_cssSelectors => cssSelectors upgradeData
  | key_elementSelectors => elementSelectors upgradeData
  | key_inputNames => inputNames upgradeData
  | key_methodCallChecks => methodCallChecks upgradeData
  | key_outputNames => outputNames upgradeData
  | key_propertyNames => propertyNames upgradeData
  end.

(** The part of [MigrationRule<RuleUpgradeData>] the function reads. *)
Record MigrationRule : Type := {
  targetVersion : TargetVersion;
  upgradeData : RuleUpgradeData;
}.

(** [getVersionUpgradeData(r, dataName)] *)
Definition getVersionUpgradeData (r : MigrationRule) (dataName : DataName)
    : list (ValueOfChanges dataName) :=
  getChangesForTarget (targetVersion r) (table (upgradeData r) dataName).

(** The tables of the CDK that are not among the sources. *)
Variable cdk_attributeSelectors : VersionChanges AttributeSelectorUpgradeData.
Variable cdk_constructorChecks : VersionChanges ConstructorChecksUpgradeData.
Variable cdk_cssSelectors : VersionChanges CssSelectorUpgradeData.
Variable cdk_elementSelectors : VersionChanges ElementSelectorUpgradeData.
Variable cdk_inputNames : VersionChanges InputNameUpgradeData.
Variable cdk_outputNames : VersionChanges OutputNameUpgradeData.
Variable cdk_propertyNames : VersionChanges PropertyNameUpgradeData.

(** [export const cdkUpgradeData: RuleUpgradeData] *)
Definition cdkUpgradeData : RuleUpgradeData :=
  {| attributeSelectors := cdk_attributeSelectors;
     classNames := classNames_table;
     constructorChecks := cdk_constructorChecks;
     cssSelectors := cdk_cssSelectors;
     elementSelectors := cdk_elementSelectors;
     inputNames := cdk_inputNames;
     methodCallChecks := methodCallChecks_table;
     outputNames := cdk_outputNames;
     propertyNames := cdk_propertyNames |}.

(** The two field initialisers of [ElementSelectorsRule]:
    [data = getVersionUpgradeData(this, 'elementSelectors')] and
    [ruleEnabled = this.data.length !== 0]. *)
Definition ElementSelectorsRule_data (r : MigrationRule)
    : list ElementSelectorUpgradeData :=
  getVersionUpgradeData r key_elementSelectors.

Definition ElementSelectorsRule_ruleEnabled (r : MigrationRule) : bool :=
  negb (Nat.eqb (length (ElementSelectorsRule_data r)) 0).
End RuleUpgradeData.

End UpgradeData.

(** ** The element selectors rule

    [ElementSelectorsRule] of [ng-update/upgrade-rules]: the visit functions
    and [_replaceSelector]. *)
Module ElementSelectors.
Import UpgradeData.

(** The syntax kinds the rule distinguishes. *)
Inductive SyntaxKind : Type :=
| StringLiteral
| NoSubstitutionTemplateLiteral
| CallExpression
| OtherKind (code : nat).

(** A [ts.Node], as far as the rule reads it. *)
Record Node : Type := {
  kind : SyntaxKind;
  (** [node.parent.kind], when there is a parent *)
  parent_kind : option SyntaxKind;
  getText : string;
  getStart : nat;
  (** [node.getSourceFile().fileName] *)
  sourceFileName : string;
}.

(** [ts.isStringLiteralLike] *)
Definition isStringLiteralLike (node : Node) : bool :=
  match kind node with
  | StringLiteral | NoSubstitutionTemplateLiteral => true
  | _ => false
  end.

(** [ResolvedResource] of the component resource collector. *)
Record ResolvedResource : Type := {
  start : nat;
  content : string;
  inline : bool;
  filePath : string;
}.

(** A call recorded by an [UpdateRecorder]. *)
Inductive RecorderCall : Type :=
| remove (index : nat) (length : nat)
| insertLeft (index : nat) (content : string)
| insertRight (index : nat) (content : string).

(** What a rule can reach: the text of the files of the project and the
    update recorders, one per file, each holding the calls it received,
    oldest first. *)
Record Project : Type := {
  files : gmap string string;
  recorders : gmap string (list RecorderCall);
}.

Definition recorded (p : Project) (path : string) : list RecorderCall :=
  default [] (recorders p !! path).

Definition isRemoveOrInsertRight (c : RecorderCall) : Prop :=
  match c with
  | remove _ _ | insertRight _ _ => True
  | insertLeft _ _ => False
  end.

Section Rule.
(** [findAllSubstringIndices] of [ng-update/typescript/literal]. *)
Variable findAllSubstringIndices : string -> string -> list nat.
(** The path under which [getUpdateRecorder] caches the recorder of a
    file. *)
Variable treeFilePath : string -> string.

(** Modelled from the spec: [getUpdateRecorder] of the [MigrationRule] base
    class and the update recorder it returns are not among the sources.  A
    rule is to "record edits without mutating the AST in place": a call
    [updateRecorder.remove(..)] or [updateRecorder.insertRight(..)] on the
    recorder [getUpdateRecorder(filePath)] is appended to the calls held by
    the recorder of that file, and changes nothing else. *)
Definition record_call (filePath : string) (c : RecorderCall) (p : Project)
    : Project :=
  {| files := files p;
     recorders :=
       <[treeFilePath filePath := recorded p (treeFilePath filePath) ++ [c]]>
         (recorders p) |}.

(** [_replaceSelector(filePath, start, data)] *)
Definition _replaceSelector (filePath : string) (start : nat)
    (data : ElementSelectorUpgradeData) (p : Project) : Project :=
  let p1 := record_call filePath
              (remove start (String.length (selector_replace data))) p in
  record_call filePath (insertRight start (selector_replaceWith data)) p1.

(** The body shared by the three visit functions:
    [this.data.forEach(selector =>
       findAllSubstringIndices(text, selector.replace)
         .map(offset => base + offset)
         .forEach(start => this._replaceSelector(filePath, start, selector)))] *)
Definition replaceAll (data : list ElementSelectorUpgradeData)
    (text : string) (base : nat) (filePath : string) (p : Project) : Project :=
  fold_left
    (fun p selector =>
       fold_left
         (fun p start => _replaceSelector filePath start selector p)
         (map (fun offset => base + offset)
            (findAllSubstringIndices text (selector_replace selector)))
         p)
    data p.

(** [visitTemplate(template)] *)
Definition visitTemplate (data : list ElementSelectorUpgradeData)
    (template : ResolvedResource) (p : Project) : Project :=
  replaceAll data (content template) (start template) (filePath template) p.

(** [visitStylesheet(stylesheet)] *)
Definition visitStylesheet (data : list ElementSelectorUpgradeData)
    (stylesheet : ResolvedResource) (p : Project) : Project :=
  replaceAll data (content stylesheet) (start stylesheet)
    (filePath stylesheet) p.

(** [_visitStringLiteralLike(node)] *)
Definition _visitStringLiteralLike (data : list ElementSelectorUpgradeData)
    (node : Node) (p : Project) : Project :=
  match parent_kind node with
  | Some CallExpression | None =>
      replaceAll data (getText node) (getStart node) (sourceFileName node) p
  | Some _ => p
  end.

(** [visitNode(node)] *)
Definition visitNode (data : list ElementSelectorUpgradeData)
    (node : Node) (p : Project) : Project :=
  if isStringLiteralLike node then _visitStringLiteralLike data node p
  else p.

(** The calls the rule is to record for one text: for each selector and
    each occurrence, a removal of the old name and an insertion of the new
    one at the same place. *)
Definition replacements (data : list ElementSelectorUpgradeData)
    (text : string) (base : nat) : list RecorderCall :=
  flat_map
    (fun selector =>
       flat_map
         (fun offset =>
            [ remove (base + offset) (String.length (selector_replace selector));
              insertRight (base + offset) (selector_replaceWith selector) ])
         (findAllSubstringIndices text (selector_replace selector)))
    data.

(** [p'] differs from [p] only by the calls [added], appended to the
    recorder of [filePath]: the text of every file, and every other
    recorder, is the same. *)
Definition only_records (p p' : Project) (filePath : string)
    (added : list RecorderCall) : Prop :=
  files p' = files p /\
  recorded p' (treeFilePath filePath) =
    recorded p (treeFilePath filePath) ++ added /\
  (forall other, other <> treeFilePath filePath ->
     recorders p' !! other = recorders p !! other) /\
  Forall isRemoveOrInsertRight added.
End Rule.

End ElementSelectors.

(** ** The update tool

    [UpdateProject] of [update-tool/index.ts]. *)
Module UpdateTool.
Import UpgradeData.
Export ElementSelectors (ResolvedResource, start, content, inline, filePath,
                         RecorderCall, remove, insertLeft, insertRight).

(** A [ts.Node]: what identifies it and its children ([ts.forEachChild]). *)
#[local] Unset Elimination Schemes.
Inductive Node : Type :=
| MkNode (label : nat) (children : list Node).
#[local] Set Elimination Schemes.

(** A [ts.SourceFile] is a node with a file name. *)
Record SourceFile : Type := {
  fileName : string;
  isDeclarationFile : bool;
  sourceNode : Node;
}.

Record Program : Type := {
  getSourceFiles : list SourceFile;
  isSourceFileFromExternalLibrary : SourceFile -> bool;
}.

Record LineAndCharacter : Type := {
  line : nat;
  character : nat;
}.

Record MigrationFailure : Type := {
  failure_filePath : string;
  failure_message : string;
  failure_position : option LineAndCharacter;
}.

(** An edit recorded through [fileSystem.edit(path)]: the path and the call
    received by the update recorder. *)
Definition Edit : Type := string * RecorderCall.

(** What can be observed of a run, in order. *)
Inductive Event : Type :=
| VisitSourceFile (resolvedPath : string)
| VisitTemplate (resolvedPath : string) (isInline : bool)
| VisitStylesheet (resolvedPath : string) (isInline : bool)
| VisitAdditionalStylesheet (resolvedPath : string)
| EditRecorded (e : Edit)
| MigrateReturned
| CommitEdits.

Inductive LogLevel : Type := info | warn | error.

(** The objects shared by the update projects of one schematic run: the set
    of analyzed files, the file system (the text of the files and the update
    recorders, which hold the edits not yet committed) and the logger. *)
Record World : Type := {
  analyzedFiles : gset string;
  tree : gmap string string;
  pendingEdits : list Edit;
  logged : list (LogLevel * string);
  trace : list Event;
}.

Definition World_new (files : gmap string string) (analyzed : gset string)
    : World :=
  {| analyzedFiles := analyzed;
     tree := files;
     pendingEdits := [];
     logged := [];
     trace := [] |}.

Definition emit (e : Event) (w : World) : World :=
  {| analyzedFiles := analyzedFiles w;
     tree := tree w;
     pendingEdits := pendingEdits w;
     logged := logged w;
     trace := trace w ++ [e] |}.

(** [this._analyzedFiles.add(resolvedPath)] *)
Definition analyzedFiles_add (resolvedPath : string) (w : World) : World :=
  {| analyzedFiles := {[resolvedPath]} ∪ analyzedFiles w;
     tree := tree w;
     pendingEdits := pendingEdits w;
     logged := logged w;
     trace := trace w |}.

(** Modelled from the spec: the [FileSystem] class and its update recorders
    are not among the sources.  Migrations "record edits without mutating
    the AST in place": the calls a migration makes on update recorders are
    kept, in order, until they are committed. *)
Definition record_edits (edits : list Edit) (w : World) : World :=
  {| analyzedFiles := analyzedFiles w;
     tree := tree w;
     pendingEdits := pendingEdits w ++ edits;
     logged := logged w;
     trace := trace w ++ map EditRecorded edits |}.

(** [this._logger.warn(message)] *)
Definition logger_log (level : LogLevel) (message : string) (w : World) : World :=
  {| analyzedFiles := analyzedFiles w;
     tree := tree w;
     pendingEdits := pendingEdits w;
     logged := logged w ++ [(level, message)];
     trace := trace w |}.

(** How a call ends. *)
Inductive Completion (A : Type) : Type :=
| Return (a : A)
| ThrowTypeError.
Arguments Return {A} a.
Arguments ThrowTypeError {A}.

Record MigrateResult : Type := {
  hasFailures : bool;
}.

(** [path.replace(/\\/g, '/')] *)
Fixpoint posix (path : string) : string :=
  match path with
  | EmptyString => EmptyString
  | String c rest =>
      String (if Ascii.eqb c (Ascii.ascii_of_nat 92)
              then Ascii.ascii_of_nat 47 else c)
             (posix rest)
  end.

(** The path and the inline flag of a visit. *)
Definition visit_path (e : Event) : option (string * bool) :=
  match e with
  | VisitSourceFile p => Some (p, false)
  | VisitTemplate p i => Some (p, i)
  | VisitStylesheet p i => Some (p, i)
  | VisitAdditionalStylesheet p => Some (p, false)
  | _ => None
  end.

(** [e] is a visit of the resolved path [p] that is subject to the check
    against the analyzed files, that is, not the visit of an inline
    resource. *)
Definition is_checked_visit (p : string) (e : Event) : bool :=
  match visit_path e with
  | Some (q, false) => String.eqb q p
  | _ => false
  end.

(** The number of such visits in a trace. *)
Fixpoint count_visits (p : string) (t : list Event) : nat :=
  match t with
  | [] => 0
  | e :: rest => (if is_checked_visit p e then 1 else 0) + count_visits p rest
  end.

(** [p] is visited somewhere in the trace, inline or not. *)
Definition visited (p : string) (t : list Event) : Prop :=
  Exists (fun e => exists i, visit_path e = Some (p, i)) t.

(** The events of [migrate] itself: visits and recorded edits. *)
Definition is_migrate_event (e : Event) : Prop :=
  match e with
  | MigrateReturned | CommitEdits => False
  | _ => True
  end.

(** The edits recorded in a trace, in order. *)
Fixpoint edits_of (t : list Event) : list Edit :=
  match t with
  | [] => []
  | EditRecorded e :: rest => e :: edits_of rest
  | _ :: rest => edits_of rest
  end.

Fixpoint count_commits (t : list Event) : nat :=
  match t with
  | [] => 0
  | CommitEdits :: rest => S (count_commits rest)
  | _ :: rest => count_commits rest
  end.

(** A trace made of [n] runs, each one the events of a [migrate] call that
    returned, followed by one commit. *)
Inductive committed_runs : nat -> list Event -> Prop :=
| committed_runs_nil : committed_runs 0 []
| committed_runs_snoc n t events :
    committed_runs n t ->
    Forall is_migrate_event events ->
    committed_runs (S n) (t ++ events ++ [MigrateReturned; CommitEdits]).

(** [w'] is [w] after some edits were recorded, and nothing else. *)
Definition edits_only (w w' : World) : Prop :=
  analyzedFiles w' = analyzedFiles w /\
  tree w' = tree w /\
  logged w' = logged w /\
  exists edits,
    pendingEdits w' = pendingEdits w ++ edits /\
    trace w' = trace w ++ map EditRecorded edits.

(** [w'] is [w] after some visits and recorded edits: the text of the files
    is the same, the trace grew by events of [migrate], and the pending edits
    by the edits recorded in them. *)
Definition extends (w w' : World) : Prop :=
  tree w' = tree w /\
  exists events,
    trace w' = trace w ++ events /\
    Forall is_migrate_event events /\
    pendingEdits w' = pendingEdits w ++ edits_of events.

(** The invariant of the set of analyzed files, relative to the set [A0] the
    trace started with: no path is visited twice other than as an inline
    resource, no path of [A0] is visited other than as an inline resource,
    and every path visited is in the set. *)
Definition analyzed_invariant (A0 : gset string) (w : World) : Prop :=
  A0 ⊆ analyzedFiles w /\
  (forall p, count_visits p (trace w) <= 1) /\
  (forall p, p ∈ A0 -> count_visits p (trace w) = 0) /\
  (forall p, visited p (trace w) -> p ∈ analyzedFiles w).

(** One iteration of one of the loops of [migrate]: nothing, or a visit
    during which edits are recorded, followed by the addition of the path to
    the analyzed files; unless the resource is inline, the path was not in
    the set. *)
Inductive visit_step (w w' : World) : Prop :=
| visit_step_skip : w' = w -> visit_step w w'
| visit_step_visit (ev : Event) (p : string) (i : bool) (w1 : World) :
    visit_path ev = Some (p, i) ->
    (i = false -> p ∉ analyzedFiles w) ->
    edits_only (emit ev w) w1 ->
    w' = analyzedFiles_add p w1 ->
    visit_step w w'.

(** The analyzed files only grow, and a path that is among them is not
    visited again, other than as an inline resource. *)
Definition skips_analyzed (w w' : World) : Prop :=
  analyzedFiles w ⊆ analyzedFiles w' /\
  forall p, p ∈ analyzedFiles w ->
    count_visits p (trace w') = count_visits p (trace w).

(** What every part of [migrate] does to the world. *)
Definition migrate_step (w w' : World) : Prop :=
  (forall A0, analyzed_invariant A0 w -> analyzed_invariant A0 w') /\
  extends w w' /\
  skips_analyzed w w'.

Section UpdateProject.
(** The private state of a migration instance, the context and the upgrade
    data handed to the migrations. *)
Variables MigrationState Context_ Data : Type.

(** [FileSystem.resolve] *)
Variable resolve : string -> string.

(** [ComponentResourceCollector]: the templates and the stylesheets
    [visitNode] finds at a node, and [resolveExternalStylesheet(path, null)]. *)
Variable collect : Node -> list ResolvedResource * list ResolvedResource.
Variable resolveExternalStylesheet : string -> ResolvedResource.

(** A migration class.  [construct] is [new ctor(..)] followed by
    [init()]; a visit updates the private state of the instance and records
    edits; [failures] reads the failures the instance has reported. *)
Record MigrationCtor : Type := {
  construct : Program -> TargetVersion -> Context_ -> Data -> MigrationState;
  enabled : MigrationState -> bool;
  visitNode : Node -> MigrationState -> MigrationState * list Edit;
  visitTemplate : ResolvedResource -> MigrationState -> MigrationState * list Edit;
  visitStylesheet : ResolvedResource -> MigrationState -> MigrationState * list Edit;
  postAnalysis : MigrationState -> MigrationState * list Edit;
  failures : MigrationState -> list MigrationFailure;
  (** the static member [globalPostMigration] of a devkit migration, when
      defined: it may touch the tree and ask for the package manager *)
  globalPostMigration :
    option (gmap string string -> gmap string string * option bool);
}.

(** A migration instance. *)
Record Migration : Type := {
  ctor : MigrationCtor;
  state : MigrationState;
}.

Record UpdateProject : Type := {
  _context : Context_;
  _program : Program;
}.

(** [_createMigrations(types, target, data)] *)
Definition _createMigrations (this : UpdateProject)
    (types : list MigrationCtor) (target : TargetVersion) (data : Data)
    : list Migration :=
  fold_left
    (fun result c =>
       let instance :=
         {| ctor := c;
            state := construct c (_program this) target (_context this) data |} in
       if enabled c (state instance) then result ++ [instance] else result)
    types [].

(** What [migrate] holds while it runs. *)
Record Run : Type := {
  migrations : list Migration;
  resolvedTemplates : list ResolvedResource;
  resolvedStylesheets : list ResolvedResource;
  world : World;
}.

Definition with_world (w : World) (r : Run) : Run :=
  {| migrations := migrations r;
     resolvedTemplates := resolvedTemplates r;
     resolvedStylesheets := resolvedStylesheets r;
     world := w |}.

(** [migrations.forEach(m => m.visit(..))] for one of the visit methods. *)
Definition forEach_migration
    (visit : MigrationCtor -> MigrationState -> MigrationState * list Edit)
    (r : Run) : Run :=
  let '(ms, w) :=
    fold_left
      (fun '(done, w) m =>
         let '(s, edits) := visit (ctor m) (state m) in
         (done ++ [{| ctor := ctor m; state := s |}], record_edits edits w))
      (migrations r) ([], world r) in
  {| migrations := ms;
     resolvedTemplates := resolvedTemplates r;
     resolvedStylesheets := resolvedStylesheets r;
     world := w |}.

(** [resourceCollector.visitNode(node)] *)
Definition resourceCollector_visitNode (node : Node) (r : Run) : Run :=
  {| migrations := migrations r;
     resolvedTemplates := resolvedTemplates r ++ fst (collect node);
     resolvedStylesheets := resolvedStylesheets r ++ snd (collect node);
     world := world r |}.

(** [visitNodeAndCollectResources(node)] *)
Fixpoint visitNodeAndCollectResources (node : Node) (r : Run) : Run :=
  match node with
  | MkNode _ children =>
      let r1 := forEach_migration (fun c => visitNode c node) r in
      let r2 :=
        fold_left (fun r child => visitNodeAndCollectResources child r)
          children r1 in
      resourceCollector_visitNode node r2
  end.

(** The body of [sourceFiles.forEach]. *)
Definition visitSourceFile (r : Run) (sourceFile : SourceFile) : Run :=
  let resolvedPath := resolve (fileName sourceFile) in
  if decide (resolvedPath ∈ analyzedFiles (world r)) then r
  else
    let r1 := with_world (emit (VisitSourceFile resolvedPath) (world r)) r in
    let r2 := visitNodeAndCollectResources (sourceNode sourceFile) r1 in
    with_world (analyzedFiles_add resolvedPath (world r2)) r2.

(** The body of [resourceCollector.resolvedTemplates.forEach]. *)
Definition visitResolvedTemplate (r : Run) (template : ResolvedResource) : Run :=
  let resolvedPath := resolve (filePath template) in
  if inline template || negb (bool_decide (resolvedPath ∈ analyzedFiles (world r)))
  then
    let r1 := with_world
                (emit (VisitTemplate resolvedPath (inline template)) (world r)) r in
    let r2 := forEach_migration (fun c => visitTemplate c template) r1 in
    with_world (analyzedFiles_add resolvedPath (world r2)) r2
  else r.

(** The body of [resourceCollector.resolvedStylesheets.forEach]. *)
Definition visitResolvedStylesheet (r : Run) (stylesheet : ResolvedResource)
    : Run :=
  let resolvedPath := resolve (filePath stylesheet) in
  if inline stylesheet || negb (bool_decide (resolvedPath ∈ analyzedFiles (world r)))
  then
    let r1 := with_world
                (emit (VisitStylesheet resolvedPath (inline stylesheet)) (world r)) r in
    let r2 := forEach_migration (fun c => visitStylesheet c stylesheet) r1 in
    with_world (analyzedFiles_add resolvedPath (world r2)) r2
  else r.

(** The body of [additionalStylesheetPaths.forEach]. *)
Definition visitAdditionalStylesheet (r : Run) (filePath : string) : Run :=
  let stylesheet := resolveExternalStylesheet filePath in
  let resolvedPath := resolve filePath in
  if decide (resolvedPath ∈ analyzedFiles (world r)) then r
  else
    let r1 := with_world
                (emit (VisitAdditionalStylesheet resolvedPath) (world r)) r in
    let r2 := forEach_migration (fun c => visitStylesheet c stylesheet) r1 in
    with_world (analyzedFiles_add resolvedPath (world r2)) r2.

(** The text of the warning logged for a failure. *)
Definition failure_warning (f : MigrationFailure) : string :=
  let posixFilePath := posix (resolve (failure_filePath f)) in
  let lineAndCharacter :=
    match failure_position f with
    | Some position =>
        "@" +:+ pretty (line position + 1) +:+ ":" +:+
        pretty (character position + 1)
    | None => EmptyString
    end in
  posixFilePath +:+ lineAndCharacter +:+ " - " +:+ failure_message f.

(** The first part of [migrate]: the migrations are created and the source
    files, the templates and the stylesheets of the components visited. *)
Definition migrate_components (this : UpdateProject)
    (migrationTypes : list MigrationCtor) (target : TargetVersion)
    (data : Data) (w : World) : Run :=
  let migrations := _createMigrations this migrationTypes target data in
  let sourceFiles :=
    List.filter
      (fun f => negb (isDeclarationFile f) &&
                negb (isSourceFileFromExternalLibrary (_program this) f))
      (getSourceFiles (_program this)) in
  let r0 := {| migrations := migrations;
               resolvedTemplates := [];
               resolvedStylesheets := [];
               world := w |} in
  let r1 := fold_left visitSourceFile sourceFiles r0 in
  let r2 := fold_left visitResolvedTemplate (resolvedTemplates r1) r1 in
  fold_left visitResolvedStylesheet (resolvedStylesheets r2) r2.

(** The last part of [migrate]: [postAnalysis], the collection of the
    failures, the warnings and the result. *)
Definition migrate_report (r : Run) : World * MigrateResult :=
  let r1 := forEach_migration postAnalysis r in
  let failures :=
    fold_left (fun res m => res ++ failures (ctor m) (state m))
      (migrations r1) [] in
  let w :=
    if negb (Nat.eqb (length failures) 0) then
      fold_left (fun w f => logger_log warn (failure_warning f) w)
        failures (world r1)
    else world r1 in
  (w, {| hasFailures := negb (Nat.eqb (length failures) 0) |}).

(** [migrate(migrationTypes, target, data, additionalStylesheetPaths?)];
    an omitted argument is [None]. *)
Definition migrate (this : UpdateProject)
    (migrationTypes : list MigrationCtor) (target : TargetVersion)
    (data : Data) (additionalStylesheetPaths : option (list string))
    (w : World) : World * Completion MigrateResult :=
  let r := migrate_components this migrationTypes target data w in
  match additionalStylesheetPaths with
  | None =>
      (* [undefined.forEach] *)
      (world r, ThrowTypeError)
  | Some paths =>
      let r1 := fold_left visitAdditionalStylesheet paths r in
      let '(w1, result) := migrate_report r1 in
      (w1, Return result)
  end.

(** The failures the migrations have reported when [migrate] collects
    them, that is, after [postAnalysis]. *)
Definition reported_failures (r : Run) : list MigrationFailure :=
  flat_map (fun m => failures (ctor m) (state m))
    (migrations (forEach_migration postAnalysis r)).

(** The run at the point where [migrate] reports: after the visits of the
    components and of the additional stylesheets. *)
Definition run_before_report (this : UpdateProject)
    (migrationTypes : list MigrationCtor) (target : TargetVersion)
    (data : Data) (paths : list string) (w : World) : Run :=
  fold_left visitAdditionalStylesheet paths
    (migrate_components this migrationTypes target data w).

(** A call of [migrate] and the world it leaves, whether it returns or
    throws. *)
Record MigrateCall : Type := {
  call_this : UpdateProject;
  call_migrationTypes : list MigrationCtor;
  call_target : TargetVersion;
  call_data : Data;
  call_additionalStylesheetPaths : option (list string);
}.

Definition run_call (w : World) (c : MigrateCall) : World :=
  fst (migrate (call_this c) (call_migrationTypes c) (call_target c)
         (call_data c) (call_additionalStylesheetPaths c) w).
End UpdateProject.

(** *** A small project

    One component file with an inline template and an external stylesheet,
    a declaration file, and a migration that reports a failure for every
    node it visits and renames [old] to [new] in every stylesheet. *)
Module Sample.
Definition resolve (path : string) : string := "/" +:+ path.

Definition appTemplate : ResolvedResource :=
  {| ElementSelectors.start := 120;
     ElementSelectors.content := "<old></old>";
     ElementSelectors.inline := true;
     ElementSelectors.filePath := "src/app.ts" |}.

Definition appStylesheet : ResolvedResource :=
  {| ElementSelectors.start := 0;
     ElementSelectors.content := "old { color: red }";
     ElementSelectors.inline := false;
     ElementSelectors.filePath := "src/app.css" |}.

Definition collect (node : Node)
    : list ResolvedResource * list ResolvedResource :=
  match node with
  | MkNode 1 _ => ([appTemplate], [appStylesheet])
  | _ => ([], [])
  end.

Definition resolveExternalStylesheet (path : string) : ResolvedResource :=
  {| ElementSelectors.start := 0;
     ElementSelectors.content := "old { }";
     ElementSelectors.inline := false;
     ElementSelectors.filePath := path |}.

Definition program : Program :=
  {| getSourceFiles :=
       [ {| fileName := "src/app.ts";
            isDeclarationFile := false;
            sourceNode := MkNode 0 [MkNode 1 []] |};
         {| fileName := "src/app.ts";
            isDeclarationFile := false;
            sourceNode := MkNode 0 [MkNode 1 []] |};
         {| fileName := "src/types.d.ts";
            isDeclarationFile := true;
            sourceNode := MkNode 2 [] |} ];
     isSourceFileFromExternalLibrary := fun _ => false |}.

Definition renaming : MigrationCtor (list MigrationFailure) unit unit :=
  {| construct := fun _ _ _ _ => [];
     enabled := fun _ => true;
     visitNode := fun node s =>
       match node with
       | MkNode 1 _ =>
           (s ++ [ {| failure_filePath := "src\app.ts";
                      failure_message := "cannot rename";
                      failure_position :=
                        Some {| line := 2; character := 4 |} |} ], [])
       | _ => (s, [])
       end;
     visitTemplate := fun _ s => (s, []);
     visitStylesheet := fun stylesheet s =>
       (s, [ (ElementSelectors.filePath stylesheet, remove 0 3);
             (ElementSelectors.filePath stylesheet, insertRight 0 "new") ]);
     postAnalysis := fun s => (s, []);
     failures := fun s => s;
     globalPostMigration := None |}.

Definition project : UpdateProject unit :=
  {| _context := tt; _program := program |}.

Definition migrate :=
  UpdateTool.migrate (list MigrationFailure) unit unit resolve collect
    resolveExternalStylesheet project [renaming] V9 tt.
End Sample.

End UpdateTool.

(** ** The devkit schematic rule

    [createMigrationSchematicRule] and its [runMigrations] of
    [ng-update/devkit-migration-rule.ts]. *)
Module Devkit.
Import UpgradeData UpdateTool.

Record WorkspaceProject : Type := {
  root : string;
}.

Inductive TargetName : Type := build | test.

(** [workspace.projects], in the order of [Object.keys]. *)
Record Workspace : Type := {
  projects : list (string * WorkspaceProject);
}.

(** [DevkitContext]; its [tree] is the one of the world. *)
Record DevkitContext : Type := {
  workspaceFsPath : string;
  isTestTarget : bool;
  projectName : string;
  project : WorkspaceProject;
}.

Inductive Task : Type := NodePackageInstallTask.

(** The variables of the closure of the rule. *)
Record RuleState : Type := {
  rule_world : World;
  rule_hasFailures : bool;
  rule_tasks : list Task;
}.

(** [!path] for a path that is a string or [null]. *)
Definition falsy (path : option string) : bool :=
  match path with
  | None => true
  | Some s => String.eqb s EmptyString
  end.

Section Rule.
Variables MigrationState Data : Type.
Variable resolve : string -> string.
Variable collect : Node -> list ResolvedResource * list ResolvedResource.
Variable resolveExternalStylesheet : string -> ResolvedResource.

(** [getWorkspaceConfigGracefully] and [getTargetTsconfigPath] of
    [utils/project-tsconfig-paths], [process.cwd()], [path.join],
    [UpdateProject.createProgramFromTsconfig], which reads the files
    through the file system, and the [globSync] call that lists the
    stylesheets under a project root. *)
Variable getWorkspaceConfigGracefully : gmap string string -> option Workspace.
Variable getTargetTsconfigPath : WorkspaceProject -> TargetName -> option string.
Variable cwd : string.
Variable join : string -> string -> string.
Variable createProgramFromTsconfig : string -> gmap string string -> Program.
Variable globSync : string -> list string.

(** What committing the calls received by the update recorders does to the
    text of the files ([Tree.commitUpdate] of the devkit). *)
Variable applyEdits : list Edit -> gmap string string -> gmap string string.

(** [cdkMigrations] *)
Variable cdkMigrations : list (MigrationCtor MigrationState DevkitContext Data).

Local Abbreviation MigrationCtor :=
  (UpdateTool.MigrationCtor MigrationState DevkitContext Data).
Local Abbreviation migrate :=
  (UpdateTool.migrate MigrationState DevkitContext Data resolve collect
     resolveExternalStylesheet).

(** Modelled from the spec: [DevkitFileSystem.commitEdits] is not among the
    sources.  Edits are recorded "without mutating the AST in place" and
    "then commit all edits in one pass": the recorded edits are all applied
    to the files and the recorders emptied. *)
Definition commitEdits (w : World) : World :=
  {| analyzedFiles := analyzedFiles w;
     tree := applyEdits (pendingEdits w) (tree w);
     pendingEdits := [];
     logged := logged w;
     trace := trace w ++ [CommitEdits] |}.

(** The call of [migrate] made by [runMigrations] for a project and a
    tsconfig, in a given world. *)
Definition migrate_call (migrations : list MigrationCtor)
    (targetVersion : TargetVersion) (upgradeData : Data)
    (project : WorkspaceProject) (projectName : string)
    (tsconfigPath : string) (isTestTarget : bool) (w : World)
    : World * Completion MigrateResult :=
  migrate
    {| _context := {| workspaceFsPath := cwd;
                      isTestTarget := isTestTarget;
                      projectName := projectName;
                      project := project |};
       _program := createProgramFromTsconfig (join cwd tsconfigPath) (tree w) |}
    migrations targetVersion upgradeData
    (Some (globSync (join cwd (root project)))) w.

Definition with_rule_world (w : World) (st : RuleState) : RuleState :=
  {| rule_world := w;
     rule_hasFailures := rule_hasFailures st;
     rule_tasks := rule_tasks st |}.

(** [runMigrations(project, projectName, tsconfigPath, isTestTarget)] *)
Definition runMigrations (migrations : list MigrationCtor)
    (targetVersion : TargetVersion) (upgradeData : Data)
    (project : WorkspaceProject) (projectName : string)
    (tsconfigPath : string) (isTestTarget : bool) (st : RuleState)
    : RuleState * Completion unit :=
  let projectRootFsPath := join cwd (root project) in
  let tsconfigFsPath := join cwd tsconfigPath in
  let program :=
    createProgramFromTsconfig tsconfigFsPath (tree (rule_world st)) in
  let updateContext :=
    {| workspaceFsPath := cwd;
       isTestTarget := isTestTarget;
       projectName := projectName;
       project := project |} in
  let updateProject :=
    {| _context := updateContext; _program := program |} in
  let additionalStylesheets := globSync projectRootFsPath in
  match migrate updateProject migrations targetVersion upgradeData
          (Some additionalStylesheets) (rule_world st) with
  | (w, Return result) =>
      let w1 := commitEdits (emit MigrateReturned w) in
      ({| rule_world := w1;
          rule_hasFailures := rule_hasFailures st || hasFailures result;
          rule_tasks := rule_tasks st |},
       Return tt)
  | (w, ThrowTypeError) => (with_rule_world w st, ThrowTypeError)
  end.

(** The body of [for (const projectName of projectNames)]. *)
Definition forProject (migrations : list MigrationCtor)
    (targetVersion : TargetVersion) (upgradeData : Data)
    (acc : RuleState * Completion unit)
    (entry : string * WorkspaceProject) : RuleState * Completion unit :=
  match acc with
  | (st, Return _) =>
      let '(projectName, project) := entry in
      let buildTsconfigPath := getTargetTsconfigPath project build in
      let testTsconfigPath := getTargetTsconfigPath project test in
      if falsy buildTsconfigPath && falsy testTsconfigPath then
        (with_rule_world
           (logger_log warn
              ("Could not find TypeScript project for project: " +:+ projectName)
              (rule_world st)) st,
         Return tt)
      else
        let acc1 :=
          match buildTsconfigPath with
          | Some path =>
              runMigrations migrations targetVersion upgradeData project
                projectName path false st
          | None => (st, Return tt)
          end in
        match acc1, testTsconfigPath with
        | (st1, Return _), Some path =>
            runMigrations migrations targetVersion upgradeData project
              projectName path true st1
        | _, _ => acc1
        end
  | thrown => thrown
  end.

(** The number of [runMigrations] calls the loop makes for a project. *)
Definition tsconfigRuns (project : WorkspaceProject) : nat :=
  let buildTsconfigPath := getTargetTsconfigPath project build in
  let testTsconfigPath := getTargetTsconfigPath project test in
  if falsy buildTsconfigPath && falsy testTsconfigPath then 0
  else (if buildTsconfigPath is Some _ then 1 else 0) +
       (if testTsconfigPath is Some _ then 1 else 0).

(** [migrations.forEach(m => ... m.globalPostMigration(tree, context) ...)] *)
Definition globalPostMigrations (migrations : list MigrationCtor)
    (files : gmap string string) : gmap string string * bool :=
  fold_left
    (fun '(files, runPackageManager) m =>
       match globalPostMigration _ _ _ m with
       | Some post =>
           match post files with
           | (files1, Some requested) =>
               (files1, runPackageManager || requested)
           | (files1, None) => (files1, runPackageManager)
           end
       | None => (files, runPackageManager)
       end)
    migrations (files, false).

(** The number of [runMigrations] calls the rule makes on a tree. *)
Definition workspaceRuns (files : gmap string string) : nat :=
  match getWorkspaceConfigGracefully files with
  | Some workspace =>
      fold_right (fun entry n => tsconfigRuns (snd entry) + n) 0
        (projects workspace)
  | None => 0
  end.

Definition with_tree (files : gmap string string) (w : World) : World :=
  {| analyzedFiles := analyzedFiles w;
     tree := files;
     pendingEdits := pendingEdits w;
     logged := logged w;
     trace := trace w |}.

(** The rule returned by
    [createMigrationSchematicRule(targetVersion, extraMigrations,
      upgradeData, onMigrationCompleteFn)], applied to a tree. *)
Definition createMigrationSchematicRule (targetVersion : TargetVersion)
    (extraMigrations : list MigrationCtor) (upgradeData : Data)
    (onMigrationCompleteFn :
       option (TargetVersion -> bool -> list (LogLevel * string)))
    (files : gmap string string) : RuleState * Completion unit :=
  let st0 := {| rule_world := World_new files ∅;
                rule_hasFailures := false;
                rule_tasks := [] |} in
  match getWorkspaceConfigGracefully files with
  | None =>
      (with_rule_world
         (logger_log error "Could not find workspace configuration file."
            (rule_world st0)) st0,
       Return tt)
  | Some workspace =>
      let migrations := cdkMigrations ++ extraMigrations in
      match fold_left (forProject migrations targetVersion upgradeData)
              (projects workspace) (st0, Return tt) with
      | (st1, Return _) =>
          let '(files1, runPackageManager) :=
            globalPostMigrations migrations (tree (rule_world st1)) in
          let w1 := with_tree files1 (rule_world st1) in
          let tasks :=
            if runPackageManager
            then rule_tasks st1 ++ [NodePackageInstallTask]
            else rule_tasks st1 in
          let w2 :=
            match onMigrationCompleteFn with
            | Some f =>
                fold_left (fun w '(level, message) => logger_log level message w)
                  (f targetVersion (rule_hasFailures st1)) w1
            | None => w1
            end in
          ({| rule_world := w2;
              rule_hasFailures := rule_hasFailures st1;
              rule_tasks := tasks |},
           Return tt)
      | thrown => thrown
      end
  end.
End Rule.

End Devkit.

(** * Further parts of the sources *)

(** ** The registry of the overlay mouse click dispatcher

    [add], [remove], [_detach] and [ngOnDestroy] of
    [OverlayMouseClickDispatcher].  Two references denote the same overlay
    when they carry the same [overlayId]. *)
Module OverlayRegistry.
Import Overlay.

(** The calls made on [document.body] for the click listener. *)
Inductive ListenerCall : Type :=
| addEventListener
| removeEventListener.

(** The dispatcher together with the calls the body has received. *)
Record Registry : Type := {
  dispatcher : Dispatcher;
  bodyCalls : list ListenerCall;
}.

(** A dispatcher fresh from its constructor: [_isAttached] is not
    initialised, hence falsy. *)
Definition new : Registry :=
  {| dispatcher := {| _attachedOverlays := [];
                      _isAttached := false;
                      detachCalls := [] |};
     bodyCalls := [] |}.

Definition same_overlay (a b : OverlayRef) : bool :=
  Nat.eqb (overlayId a) (overlayId b).

(** [array.indexOf(overlayRef)], [-1] when absent. *)
Fixpoint indexOf (overlayRef : OverlayRef) (l : list OverlayRef) : Z :=
  match l with
  | [] => (-1)%Z
  | x :: rest =>
      if same_overlay x overlayRef then 0%Z
      else
        let i := indexOf overlayRef rest in
        if (i <? 0)%Z then (-1)%Z else (i + 1)%Z
  end.

(** [array.splice(index, 1)] for an index that is not negative. *)
Definition splice1 (index : Z) (l : list OverlayRef) : list OverlayRef :=
  delete (Z.to_nat index) l.

Definition with_overlays (l : list OverlayRef) (r : Registry) : Registry :=
  {| dispatcher := {| _attachedOverlays := l;
                      _isAttached := _isAttached (dispatcher r);
                      detachCalls := detachCalls (dispatcher r) |};
     bodyCalls := bodyCalls r |}.

(** [_detach()] *)
Definition _detach (r : Registry) : Registry :=
  if _isAttached (dispatcher r) then
    {| dispatcher := {| _attachedOverlays := _attachedOverlays (dispatcher r);
                        _isAttached := false;
                        detachCalls := detachCalls (dispatcher r) |};
       bodyCalls := bodyCalls r ++ [removeEventListener] |}
  else r.

(** [ngOnDestroy()] *)
Definition ngOnDestroy (r : Registry) : Registry := _detach r.

(** [remove(overlayRef)] *)
Definition remove (overlayRef : OverlayRef) (r : Registry) : Registry :=
  let index := indexOf overlayRef (_attachedOverlays (dispatcher r)) in
  let r1 :=
    if (index >? -1)%Z
    then with_overlays (splice1 index (_attachedOverlays (dispatcher r))) r
    else r in
  if Nat.eqb (length (_attachedOverlays (dispatcher r1))) 0
  then _detach r1 else r1.

(** [add(overlayRef)] *)
Definition add (overlayRef : OverlayRef) (r : Registry) : Registry :=
  let r1 := remove overlayRef r in
  let r2 :=
    if negb (_isAttached (dispatcher r1)) then
      {| dispatcher := {| _attachedOverlays := _attachedOverlays (dispatcher r1);
                          _isAttached := true;
                          detachCalls := detachCalls (dispatcher r1) |};
         bodyCalls := bodyCalls r1 ++ [addEventListener] |}
    else r1 in
  with_overlays (_attachedOverlays (dispatcher r2) ++ [overlayRef]) r2.

(** What an overlay does with the dispatcher. *)
Inductive Action : Type :=
| Add (overlayRef : OverlayRef)
| Remove (overlayRef : OverlayRef).

Definition step (r : Registry) (a : Action) : Registry :=
  match a with
  | Add o => add o r
  | Remove o => remove o r
  end.

Definition attached_ids (r : Registry) : list nat :=
  map overlayId (_attachedOverlays (dispatcher r)).

(** [k] times a registration followed by its removal. *)
Fixpoint registrations (k : nat) : list ListenerCall :=
  match k with
  | 0 => []
  | S k' => registrations k' ++ [addEventListener; removeEventListener]
  end.

(** The state a dispatcher is in between calls: no overlay is listed twice,
    the flag tells whether an overlay is attached, and the body has seen
    balanced registrations, plus one that is pending when the flag is set. *)
Definition registry_invariant (r : Registry) : Prop :=
  NoDup (attached_ids r) /\
  _isAttached (dispatcher r) =
    negb (Nat.eqb (length (_attachedOverlays (dispatcher r))) 0) /\
  exists k,
    bodyCalls r =
    registrations k ++
    (if _isAttached (dispatcher r) then [addEventListener] else []).

End OverlayRegistry.

(** ** The progress bars: events and the MDC foundation *)
Module ProgressBarSync.
Import Js ProgressBar.

(** Whether a mode shows a value: [mode === 'determinate' || mode === 'buffer']
    as the specification of [_emitAnimationEnd] has it. *)
Definition shows_value (m : ProgressBarMode) : bool :=
  match m with
  | determinate | buffer => true
  | indeterminate | query => false
  end.



(** The calls by which [_syncFoundation] brings a foundation up to date with
    a component in a browser. *)
Definition sync_calls (c : Mdc.MatProgressBar) : list Mdc.FoundationCall :=
  [ Mdc.setReverse
      (match Mdc._dir c, Mdc.mode c with
       | Some Mdc.rtl, query => false
       | Some Mdc.rtl, _ => true
       | _, query => true
       | _, _ => false
       end);
    Mdc.setDeterminate (shows_value (Mdc.mode c));
    Mdc.setProgress (divide (Mdc.value c) hundred) ] ++
  match Mdc.mode c with
  | buffer => [Mdc.setBuffer (divide (Mdc.bufferValue c) hundred)]
  | _ => []
  end.

(** A call that hands the foundation a fraction hands it a quotient by 100
    of a number between 0 and 100. *)
Definition fraction_in_range (call : Mdc.FoundationCall) : Prop :=
  match call with
  | Mdc.setProgress (divide v d) | Mdc.setBuffer (divide v d) =>
      in_range v = true /\ d = hundred
  | _ => True
  end.

End ProgressBarSync.

(** ** Harness loaders of the Testbed environment

    The static [loader] and [documentRootLoader], [createEnvironment],
    [forceStabilize] and [getAllRawElements] of [TestbedHarnessEnvironment],
    for the many environments that share one fixture. *)
Module TestbedLoaders.
Import Testbed.

Definition Element : Type := nat.

(** [queryFn: (selector, root) => Iterable<Element> | ArrayLike<Element>] *)
Definition QueryFn : Type := string -> Element -> list Element.

Record Environment : Type := {
  rawRootElement : Element;
  (** Whether the environment has been destroyed. *)
  env_destroyed : bool;
  (** the [queryFn] of [_options] *)
  _options : QueryFn;
}.

(** The fixture: its destroy callbacks are those of the environments, named
    by their position. *)
Record Fixture : Type := {
  nativeElement : Element;
  destroyed : bool;
  onDestroy : list nat;
  detectChanges : nat;
  whenStable : nat;
}.

Record World : Type := {
  fixture : Fixture;
  environments : list Environment;
  (** the calls of a [queryFn], oldest first *)
  queries : list (string * Element);
}.

Section Loaders.
(** [root.querySelectorAll(selector)] and [document.body]. *)
Variable querySelectorAll : Element -> string -> list Element.
Variable documentBody : Element.

(** [defaultEnvironmentOptions] *)
Definition defaultEnvironmentOptions : QueryFn :=
  fun selector root => querySelectorAll root selector.

(** [{...defaultEnvironmentOptions, ...options}] *)
Definition merge_options (options : option QueryFn) : QueryFn :=
  match options with
  | Some queryFn => queryFn
  | None => defaultEnvironmentOptions
  end.

(** [new TestbedHarnessEnvironment(rawRootElement, fixture, options)]; the
    result is the world and the position of the new environment. *)
Definition construct (rawRootElement : Element) (options : option QueryFn)
    (w : World) : World * nat :=
  let id := length (environments w) in
  ({| fixture :=
        {| nativeElement := nativeElement (fixture w);
           destroyed := destroyed (fixture w);
           onDestroy := onDestroy (fixture w) ++ [id];
           detectChanges := detectChanges (fixture w);
           whenStable := whenStable (fixture w) |};
      environments :=
        environments w ++
        [ {| rawRootElement := rawRootElement;
             env_destroyed := false;
             _options := merge_options options |} ];
      queries := queries w |},
   id).

(** [static loader(fixture, options?)] *)
Definition loader (options : option QueryFn) (w : World) : World * nat :=
  construct (nativeElement (fixture w)) options w.

(** [static documentRootLoader(fixture, options?)] *)
Definition documentRootLoader (options : option QueryFn) (w : World)
    : World * nat :=
  construct documentBody options w.

(** [createEnvironment(element)] *)
Definition createEnvironment (this : Environment) (element : Element)
    (w : World) : World * nat :=
  construct element (Some (_options this)) w.

(** [() => this._destroyed = true] for the environment at a position. *)
Definition set_destroyed (envs : list Environment) (id : nat)
    : list Environment :=
  alter (fun env => {| rawRootElement := rawRootElement env;
                       env_destroyed := true;
                       _options := _options env |}) id envs.

(** Destruction of the fixture: the registered callbacks run, once. *)
Definition destroyFixture (w : World) : World :=
  if destroyed (fixture w) then w
  else
    {| fixture :=
         {| nativeElement := nativeElement (fixture w);
            destroyed := true;
            onDestroy := [];
            detectChanges := detectChanges (fixture w);
            whenStable := whenStable (fixture w) |};
       environments :=
         fold_left set_destroyed (onDestroy (fixture w)) (environments w);
       queries := queries w |}.

(** [async forceStabilize()].  On a destroyed fixture
    [this._fixture.detectChanges()] throws, and [whenStable] is not
    reached. *)
Definition forceStabilize (this : Environment) (w : World)
    : World * Promise unit :=
  if env_destroyed this then (w, Rejected (MkError destroyedMessage))
  else if destroyed (fixture w) then
    ({| fixture :=
          {| nativeElement := nativeElement (fixture w);
             destroyed := destroyed (fixture w);
             onDestroy := onDestroy (fixture w);
             detectChanges := S (detectChanges (fixture w));
             whenStable := whenStable (fixture w) |};
        environments := environments w;
        queries := queries w |},
     Rejected ViewDestroyedError)
  else
    ({| fixture :=
          {| nativeElement := nativeElement (fixture w);
             destroyed := destroyed (fixture w);
             onDestroy := onDestroy (fixture w);
             detectChanges := S (detectChanges (fixture w));
             whenStable := S (whenStable (fixture w)) |};
        environments := environments w;
        queries := queries w |},
     Resolved tt).

(** [async getAllRawElements(selector)] *)
Definition getAllRawElements (this : Environment) (selector : string)
    (w : World) : World * Promise (list Element) :=
  match forceStabilize this w with
  | (w1, Rejected e) => (w1, Rejected e)
  | (w1, Resolved _) =>
      ({| fixture := fixture w1;
          environments := environments w1;
          queries := queries w1 ++ [(selector, rawRootElement this)] |},
       Resolved (_options this selector (rawRootElement this)))
  end.

(** What a test does; an environment is named by its position, and an
    action on a position that holds no environment does nothing. *)
Inductive Action : Type :=
| Loader (options : option QueryFn)
| DocumentRootLoader (options : option QueryFn)
| CreateEnvironment (parent : nat) (element : Element)
| ForceStabilize (id : nat)
| GetAllRawElements (id : nat) (selector : string)
| DestroyFixture.

Definition on_environment (id : nat) (w : World)
    (method : Environment -> World -> World) : World :=
  match environments w !! id with
  | Some env => method env w
  | None => w
  end.

Definition step (w : World) (a : Action) : World :=
  match a with
  | Loader options => fst (loader options w)
  | DocumentRootLoader options => fst (documentRootLoader options w)
  | CreateEnvironment parent element =>
      on_environment parent w
        (fun env w => fst (createEnvironment env element w))
  | ForceStabilize id =>
      on_environment id w (fun env w => fst (forceStabilize env w))
  | GetAllRawElements id selector =>
      on_environment id w (fun env w => fst (getAllRawElements env selector w))
  | DestroyFixture => destroyFixture w
  end.

End Loaders.


(** A fixture fresh from [TestBed.createComponent], with no environment. *)
Definition fresh (root : Element) : World :=
  {| fixture := {| nativeElement := root;
                   destroyed := false;
                   onDestroy := [];
                   detectChanges := 0;
                   whenStable := 0 |};
     environments := [];
     queries := [] |}.

(** While the fixture lives, every environment has its callback registered
    and none is flagged. *)
Definition all_hooked (w : World) : Prop :=
  destroyed (fixture w) = false /\
  (forall id, id < length (environments w) -> id ∈ onDestroy (fixture w)) /\
  Forall (fun env => env_destroyed env = false) (environments w).

(** Once the fixture is destroyed, the first [n] environments are flagged. *)
Definition flagged (n : nat) (w : World) : Prop :=
  destroyed (fixture w) = true /\
  n <= length (environments w) /\
  forall id env,
    id < n -> environments w !! id = Some env -> env_destroyed env = true.

End TestbedLoaders.

(** ** The update tool: what a run covers *)
Module UpdateToolCoverage.
Import UpgradeData UpdateTool.

Section Coverage.
Variables MigrationState Context_ Data : Type.

(** [new ctor(..)] followed by [init()], as [_createMigrations] does it. *)
Definition instantiate (this : UpdateProject Context_) (target : TargetVersion)
    (data : Data) (c : MigrationCtor MigrationState Context_ Data)
    : Migration MigrationState Context_ Data :=
  {| ctor := c;
     state := construct _ _ _ c (_program _ this) target (_context _ this) data |}.

(** The source files [migrate] looks at: neither declaration files nor
    files of external libraries. *)
Definition migratable (this : UpdateProject Context_) (f : SourceFile) : bool :=
  negb (isDeclarationFile f) &&
  negb (isSourceFileFromExternalLibrary (_program _ this) f).
End Coverage.

(** The backslash. *)
Definition backslash : Ascii.ascii := Ascii.ascii_of_nat 92.

(** Whether a character occurs in a string. *)
Fixpoint occurs (c : Ascii.ascii) (s : string) : bool :=
  match s with
  | EmptyString => false
  | String d rest => Ascii.eqb d c || occurs c rest
  end.

(** The files that are analyzed in [w'] were analyzed in [w] or have been
    visited since. *)
Definition accounted (w w' : World) : Prop :=
  exists events,
    trace w' = trace w ++ events /\
    forall p, p ∈ analyzedFiles w' ->
              p ∈ analyzedFiles w \/ visited p events.

(** A run in which the migrations are idle: there is none, and neither the
    pending edits nor the log change. *)
Definition idle {MigrationState Context_ Data : Type}
    (r r' : Run MigrationState Context_ Data) : Prop :=
  migrations _ _ _ r' = [] /\
  pendingEdits (world _ _ _ r') = pendingEdits (world _ _ _ r) /\
  logged (world _ _ _ r') = logged (world _ _ _ r) /\
  tree (world _ _ _ r') = tree (world _ _ _ r).

End UpdateToolCoverage.

(** ** The devkit schematic rule as a whole *)
Module DevkitCoverage.
Import UpgradeData UpdateTool Devkit.

(** What holds of the closure of the rule between two tsconfig runs: the
    set of analyzed files, which starts empty, accounts for the visits; no
    recorded edit is waiting for a commit; no task has been added. *)
Definition rule_invariant (st : RuleState) : Prop :=
  analyzed_invariant ∅ (rule_world st) /\
  pendingEdits (rule_world st) = [] /\
  rule_tasks st = [].

End DevkitCoverage.

(** ** The element selectors rule over a whole run *)
Module ElementSelectorsRuns.
Import UpgradeData ElementSelectors.

(** What the update tool hands to the rule. *)
Inductive Visit : Type :=
| OfNode (node : Node)
| OfTemplate (template : ResolvedResource)
| OfStylesheet (stylesheet : ResolvedResource).

Section Rule.
Variable findAllSubstringIndices : string -> string -> list nat.
Variable treeFilePath : string -> string.

Definition visit (data : list ElementSelectorUpgradeData) (p : Project)
    (v : Visit) : Project :=
  match v with
  | OfNode node => visitNode findAllSubstringIndices treeFilePath data node p
  | OfTemplate template =>
      visitTemplate findAllSubstringIndices treeFilePath data template p
  | OfStylesheet stylesheet =>
      visitStylesheet findAllSubstringIndices treeFilePath data stylesheet p
  end.
End Rule.

(** A project no recorder of which has received a call. *)
Definition Project_new (texts : gmap string string) : Project :=
  {| files := texts; recorders := ∅ |}.

(** Calls that come in pairs: the removal of the old name of a selector of
    [data], followed by the insertion of its new name at the same index. *)
Inductive replaced_pairs (data : list ElementSelectorUpgradeData)
    : list RecorderCall -> Prop :=
| replaced_pairs_nil : replaced_pairs data []
| replaced_pairs_cons start selector rest :
    In selector data ->
    replaced_pairs data rest ->
    replaced_pairs data
      (remove start (String.length (selector_replace selector)) ::
       insertRight start (selector_replaceWith selector) :: rest).

End ElementSelectorsRuns.

(** ** The clipboard: a pending copy *)
Module Clipboard.

Definition Element : Type := nat.

(** The calls [PendingCopy] makes on the document and its elements. *)
Inductive DomCall : Type :=
| CreateElement (tagName : string)
| SetStyle (element : Element) (property value : string)
| SetAttribute (element : Element) (name value : string)
| SetValue (element : Element) (text : string)
| AppendChild (parent child : Element)
| Select (element : Element)
| SetSelectionRange (element : Element) (selectionStart selectionEnd : nat)
| ExecCommand (commandId : string)
| Focus (element : Element)
| RemoveChild (parent child : Element).

(** The document, as far as [PendingCopy] reads and changes it: the body,
    the parent of every node that has one, the value of the text areas, the
    next element [createElement] makes, and the calls received so far. *)
Record Document : Type := {
  body : Element;
  parentNode : gmap Element Element;
  value : gmap Element string;
  nextElement : Element;
  calls : list DomCall;
}.

(** What the browser does during one call of [copy]: the element that has
    the focus and whether it is an [HTMLElement], which of the calls on the
    text area throw, and what [execCommand] returns when it does not throw.
    Whether [focus] throws makes no difference: it is the last call inside
    [try]. *)
Record Browser : Type := {
  activeElement : option (Element * bool);
  selectThrows : bool;
  setSelectionRangeThrows : bool;
  execCommand : option bool;
}.

Record PendingCopy : Type := {
  _textarea : option Element;
}.

Definition call (c : DomCall) (d : Document) : Document :=
  {| body := body d;
     parentNode := parentNode d;
     value := value d;
     nextElement := nextElement d;
     calls := calls d ++ [c] |}.

(** [new PendingCopy(text, document)] *)
Definition construct (text : string) (d : Document) : PendingCopy * Document :=
  let textarea := nextElement d in
  let d1 := call (CreateElement "textarea") d in
  let d2 := call (SetStyle textarea "opacity" "0") d1 in
  let d3 := call (SetStyle textarea "position" "absolute") d2 in
  let d4 := call (SetStyle textarea "top" "-999em") d3 in
  let d5 := call (SetStyle textarea "left" "-999em") d4 in
  let d6 := call (SetAttribute textarea "aria-hidden" "true") d5 in
  let d7 := call (SetValue textarea text) d6 in
  let d8 := call (AppendChild (body d) textarea) d7 in
  ({| _textarea := Some textarea |},
   {| body := body d;
      parentNode := <[textarea := body d]> (parentNode d);
      value := <[textarea := text]> (value d);
      nextElement := S textarea;
      calls := calls d8 |}).

(** [copy()]: whatever is thrown inside [try] is discarded, and
    [successful] is returned as it stands. *)
Definition copy (b : Browser) (p : PendingCopy) (d : Document)
    : Document * bool :=
  match _textarea p with
  | Some textarea =>
      let d1 := call (Select textarea) d in
      if selectThrows b then (d1, false)
      else
        let d2 :=
          call (SetSelectionRange textarea 0
                  (String.length (default EmptyString (value d !! textarea))))
            d1 in
        if setSelectionRangeThrows b then (d2, false)
        else
          let d3 := call (ExecCommand "copy") d2 in
          match execCommand b with
          | None => (d3, false)
          | Some successful =>
              match activeElement b with
              | Some (currentFocus, true) =>
                  (call (Focus currentFocus) d3, successful)
              | _ => (d3, successful)
              end
          end
  | None => (d, false)
  end.

(** [destroy()] *)
Definition destroy (p : PendingCopy) (d : Document) : PendingCopy * Document :=
  match _textarea p with
  | Some textarea =>
      let d1 :=
        match parentNode d !! textarea with
        | Some parent =>
            {| body := body d;
               parentNode := delete textarea (parentNode d);
               value := value d;
               nextElement := nextElement d;
               calls := calls d ++ [RemoveChild parent textarea] |}
        | None => d
        end in
      ({| _textarea := None |}, d1)
  | None => (p, d)
  end.

(** A pending copy in use: the object, the document and what the calls of
    [copy] have returned. *)
Record World : Type := {
  pending : PendingCopy;
  document : Document;
  results : list bool;
}.

Inductive Action : Type :=
| Copy (b : Browser)
| Destroy.

Definition step (w : World) (a : Action) : World :=
  match a with
  | Copy b =>
      let '(d, successful) := copy b (pending w) (document w) in
      {| pending := pending w;
         document := d;
         results := results w ++ [successful] |}
  | Destroy =>
      let '(p, d) := destroy (pending w) (document w) in
      {| pending := p; document := d; results := results w |}
  end.

Definition start (text : string) (d : Document) : World :=
  let '(p, d1) := construct text d in
  {| pending := p; document := d1; results := [] |}.

Definition isRemoveChild (c : DomCall) : bool :=
  match c with
  | RemoveChild _ _ => true
  | _ => false
  end.

Definition removals (d : Document) : nat :=
  length (List.filter isRemoveChild (calls d)).

Definition isCopy (a : Action) : bool :=
  match a with
  | Copy _ => true
  | Destroy => false
  end.

(** The element made by [createElement] is attached nowhere. *)
Definition fresh (d : Document) : Prop :=
  parentNode d !! nextElement d = None.

(** *** A page with one button, which has the focus *)
Definition page : Document :=
  {| body := 0;
     parentNode := {[ 1 := 0 ]};
     value := ∅;
     nextElement := 2;
     calls := [] |}.

Definition clicked : Browser :=
  {| activeElement := Some (1, true);
     selectThrows := false;
     setSelectionRangeThrows := false;
     execCommand := Some true |}.

End Clipboard.

(** ** The padding of tree nodes *)
Module TreeNodePadding.
Import Js.

(** [cssUnitPattern = /([A-Za-z%]+)$/]: the characters of the class. *)
Definition isUnitChar (c : Ascii.ascii) : bool :=
  let n := Ascii.nat_of_ascii c in
  (Nat.leb 65 n && Nat.leb n 90) || (Nat.leb 97 n && Nat.leb n 122) ||
  Nat.eqb n 37.

(** The match of [cssUnitPattern] in a string: the longest run of
    characters of the class that ends the string, and what comes before
    it. *)
Fixpoint split_units (s : string) : string * string :=
  match s with
  | EmptyString => (EmptyString, EmptyString)
  | String c rest =>
      let '(before, units) := split_units rest in
      if String.eqb before EmptyString && isUnitChar c
      then (EmptyString, String c units)
      else (String c before, units)
  end.

(** [indent.split(cssUnitPattern)]: the text before the match, the group
    and the text after the match, which is empty; the string itself when
    nothing matches. *)
Definition split (s : string) : list string :=
  let '(before, units) := split_units s in
  if String.eqb units EmptyString then [s] else [before; units; EmptyString].

Fixpoint only_units (s : string) : bool :=
  match s with
  | EmptyString => true
  | String c rest => isUnitChar c && only_units rest
  end.

(** Whether the last character of a string is of the class. *)
Fixpoint ends_with_unit (s : string) : bool :=
  match s with
  | EmptyString => false
  | String c EmptyString => isUnitChar c
  | String _ rest => ends_with_unit rest
  end.

Inductive Direction : Type := ltr | rtl.

(** [padding || ''] *)
Definition or_empty (padding : option string) : string :=
  default EmptyString padding.

Section Directive.
(** The data of a tree node, and whether a value of it is truthy. *)
Variable T : Type.
Variable truthy_data : T -> bool.

(** [coerceNumberProperty(value, fallbackValue)] of [@angular/cdk/coercion],
    the product of two numbers and the conversion of a number to a string
    in a template literal. *)
Variable coerceNumberProperty : forall D : Type, val -> D -> number + D.
Variable multiply : number -> number -> number.
Variable NumberToString : number -> string.

(** The tree node and the tree control when an event happens:
    [_treeNode.data] and [_tree.treeControl.getLevel], both of which may be
    undefined. *)
Record Tree : Type := {
  data : option T;
  getLevel : option (T -> number);
}.

(** The directive and the padding of its element.  [_currentPadding] is
    [None] while it is undefined and [Some None] when it is [null];
    [_level] is [None] when it is [null] or undefined; [_dir] is the
    injected [Directionality], if any, with its value. *)
Record CdkTreeNodePadding : Type := {
  _currentPadding : option (option string);
  indentUnits : string;
  _level : option number;
  _indent : number;
  _dir : option Direction;
  paddingLeft : string;
  paddingRight : string;
  styleWrites : nat;
}.

(** [_paddingIndent()] *)
Definition _paddingIndent (tree : Tree) (c : CdkTreeNodePadding)
    : option string :=
  let nodeLevel :=
    match data tree, getLevel tree with
    | Some d, Some f => if truthy_data d then Some (f d) else None
    | _, _ => None
    end in
  let level := match _level c with None => nodeLevel | Some l => Some l end in
  match level with
  | Some l => Some (NumberToString (multiply l (_indent c)) +:+ indentUnits c)
  | None => None
  end.

(** [_setPadding(forceChange)] *)
Definition _setPadding (forceChange : bool) (tree : Tree)
    (c : CdkTreeNodePadding) : CdkTreeNodePadding :=
  let padding := _paddingIndent tree c in
  if negb (bool_decide (Some padding = _currentPadding c)) || forceChange then
    let toRight := match _dir c with Some rtl => true | _ => false end in
    {| _currentPadding := Some padding;
       indentUnits := indentUnits c;
       _level := _level c;
       _indent := _indent c;
       _dir := _dir c;
       paddingLeft := if toRight then EmptyString else or_empty padding;
       paddingRight := if toRight then or_empty padding else EmptyString;
       styleWrites := S (styleWrites c) |}
  else c.

(** The constructor, for an element with a given padding. *)
Definition construct (dir : option Direction) (left right : string)
    (tree : Tree) : CdkTreeNodePadding :=
  _setPadding false tree
    {| _currentPadding := None;
       indentUnits := "px";
       _level := None;
       _indent := Finite 40;
       _dir := dir;
       paddingLeft := left;
       paddingRight := right;
       styleWrites := 0 |}.

(** [set level(value)] *)
Definition set_level (value : val) (tree : Tree) (c : CdkTreeNodePadding)
    : CdkTreeNodePadding :=
  _setPadding false tree
    {| _currentPadding := _currentPadding c;
       indentUnits := indentUnits c;
       _level := match coerceNumberProperty unit value tt with
                 | inl n => Some n
                 | inr _ => None
                 end;
       _indent := _indent c;
       _dir := _dir c;
       paddingLeft := paddingLeft c;
       paddingRight := paddingRight c;
       styleWrites := styleWrites c |}.

(** The value and the units [set indent] works with. *)
Definition indent_parts (indent : val) : val * string :=
  match indent with
  | VString s =>
      let parts := split s in
      (VString (nth 0 parts EmptyString),
       match nth_error parts 1 with
       | Some units =>
           if String.eqb units EmptyString then "px" else units
       | None => "px"
       end)
  | _ => (indent, "px")
  end.

(** [set indent(indent)] *)
Definition set_indent (indent : val) (tree : Tree) (c : CdkTreeNodePadding)
    : CdkTreeNodePadding :=
  let '(value, units) := indent_parts indent in
  _setPadding false tree
    {| _currentPadding := _currentPadding c;
       indentUnits := units;
       _level := _level c;
       _indent := match coerceNumberProperty number value zero with
                  | inl n => n
                  | inr n => n
                  end;
       _dir := _dir c;
       paddingLeft := paddingLeft c;
       paddingRight := paddingRight c;
       styleWrites := styleWrites c |}.

(** What happens to the directive: an input is set, the direction changes
    (which is only heard when a [Directionality] was injected), or the data
    of the node changes. *)
Inductive Event : Type :=
| SetLevel (value : val)
| SetIndent (indent : val)
| DirChange (value : Direction)
| DataChange.

Definition with_dir (dir : option Direction) (c : CdkTreeNodePadding)
    : CdkTreeNodePadding :=
  {| _currentPadding := _currentPadding c;
     indentUnits := indentUnits c;
     _level := _level c;
     _indent := _indent c;
     _dir := dir;
     paddingLeft := paddingLeft c;
     paddingRight := paddingRight c;
     styleWrites := styleWrites c |}.

(** An event, with the tree as it is when the event happens. *)
Definition step (c : CdkTreeNodePadding) (e : Event * Tree)
    : CdkTreeNodePadding :=
  let '(event, tree) := e in
  match event with
  | SetLevel value => set_level value tree c
  | SetIndent indent => set_indent indent tree c
  | DirChange value =>
      match _dir c with
      | Some _ => _setPadding true tree (with_dir (Some value) c)
      | None => c
      end
  | DataChange => _setPadding false tree c
  end.

(** The element shows the current padding on the side the direction asks
    for, and nothing on the other side. *)
Definition shows_padding (c : CdkTreeNodePadding) : Prop :=
  exists padding,
    _currentPadding c = Some padding /\
    match _dir c with
    | Some rtl =>
        paddingRight c = or_empty padding /\ paddingLeft c = EmptyString
    | _ => paddingLeft c = or_empty padding /\ paddingRight c = EmptyString
    end.

(** The directive hears the event. *)
Definition heard (c : CdkTreeNodePadding) (event : Event) : bool :=
  match event, _dir c with
  | DirChange _, None => false
  | _, _ => true
  end.
End Directive.

End TreeNodePadding.

(** * Proofs *)

(** ** Facts about the number model *)
Module JsFacts.
Import Js.

Lemma leb_refl_finite q : leb (Finite q) (Finite q) = true.
Proof. simpl. apply Qle_bool_iff. apply Qle_refl. Qed.

Lemma ltb_false_leb a b :
  isNaN a = false -> isNaN b = false -> ltb a b = false -> leb b a = true.
Proof.
  destruct a, b; simpl; try discriminate; try reflexivity;
    intros _ _ H; apply negb_false_iff in H; exact H.
Qed.

Lemma ltb_true_leb a b : ltb a b = true -> leb a b = true.
Proof.
  destruct a, b; simpl; try discriminate; try reflexivity.
  intros H. apply negb_true_iff in H.
  apply Qle_bool_iff. destruct (Qlt_le_dec q q0) as [Hlt|Hle].
  - apply Qlt_le_weak. exact Hlt.
  - apply Qle_bool_iff in Hle. congruence.
Qed.

(** Clamping a number that is not [NaN] between two ordered bounds lands
    between the bounds. *)
Lemma max_min_in_bounds (lo hi : Q) (x : number) :
  (lo <= hi)%Q -> isNaN x = false ->
  leb (Finite lo) (max (Finite lo) (min (Finite hi) x)) = true /\
  leb (max (Finite lo) (min (Finite hi) x)) (Finite hi) = true.
Proof.
  intros Hlh Hx.
  assert (Hm : exists m, min (Finite hi) x = m /\ isNaN m = false /\
                         leb m (Finite hi) = true).
  { destruct x; try discriminate; simpl.
    - eexists; split; [reflexivity|]. split; reflexivity.
    - destruct (negb (Qle_bool hi q)) eqn:E.
      + eexists; split; [reflexivity|]. split; [reflexivity|].
        apply ltb_true_leb. simpl. exact E.
      + eexists; split; [reflexivity|]. split; [reflexivity|].
        apply leb_refl_finite.
    - eexists; split; [reflexivity|]. split; [reflexivity|].
      apply Qle_bool_iff, Qle_refl. }
  destruct Hm as (m & -> & Hnan & Hle).
  destruct m; try discriminate; simpl.
  - split; [apply Qle_bool_iff, Qle_refl | apply Qle_bool_iff; exact Hlh].
  - destruct (negb (Qle_bool q lo)) eqn:E.
    + split; [| exact Hle].
      apply negb_true_iff in E. apply Qle_bool_iff.
      destruct (Qlt_le_dec lo q) as [Hlt|Hge].
      * apply Qlt_le_weak. exact Hlt.
      * apply Qle_bool_iff in Hge. congruence.
    + split; [apply Qle_bool_iff, Qle_refl | apply Qle_bool_iff; exact Hlh].
Qed.

End JsFacts.

(** ** The progress bars *)
Module ProgressBarProofs.
Import Js JsFacts ProgressBar.

Section Clamping.
Variable StringToNumber : string -> number.
Variable coerceNumberProperty : val -> number.

Local Abbreviation ToNum := (ToNumber StringToNumber).

(** [x || 0] is never [NaN] when [x] is a number. *)
Lemma or_zero_number_not_NaN (n : number) :
  isNaN (ToNum (or (VNumber n) (VNumber zero))) = false.
Proof.
  unfold or. destruct n as [| |q|]; simpl; try reflexivity.
  destruct (negb (Qeq_bool q 0)); reflexivity.
Qed.

(** [v || 0] is never [NaN] for the inputs the setters are specified for. *)
Lemma or_zero_numeric_not_NaN (v : val) :
  numericInput StringToNumber v ->
  isNaN (ToNum (or v (VNumber zero))) = false.
Proof.
  destruct v as [n|s| |]; simpl; intros Hv.
  - apply or_zero_number_not_NaN.
  - unfold or. simpl. destruct (negb (String.eqb s EmptyString)); simpl; auto.
  - reflexivity.
  - reflexivity.
Qed.

Lemma clamp_unfold (x : val) :
  clamp StringToNumber x zero hundred = max zero (min hundred (ToNum x)).
Proof. reflexivity. Qed.

Lemma clamp_in_range (x : val) :
  isNaN (ToNum x) = false ->
  in_range (clamp StringToNumber x zero hundred) = true.
Proof.
  intros Hx. rewrite clamp_unfold. unfold in_range, zero, hundred.
  destruct (max_min_in_bounds 0 100 (ToNum x)) as [Hlo Hhi];
    [discriminate | exact Hx |].
  rewrite Hlo, Hhi. reflexivity.
Qed.

Lemma clamped_to_clamp (x : val) :
  isNaN (ToNum x) = false ->
  clamped_to StringToNumber x (clamp StringToNumber x zero hundred).
Proof.
  intros Hx. repeat split; auto using clamp_in_range.
Qed.

Lemma material_value_set_value v c :
  Material._value (Material.set_value StringToNumber coerceNumberProperty v c) =
  clamp StringToNumber (or (VNumber (coerceNumberProperty v)) (VNumber zero))
    zero hundred.
Proof.
  unfold Material.set_value. simpl.
  destruct (Material._isNoopAnimation c); [|reflexivity].
  unfold Material._emitAnimationEnd. simpl.
  destruct (_ || _); reflexivity.
Qed.

Lemma material_bufferValue_set_value v c :
  Material._bufferValue
    (Material.set_value StringToNumber coerceNumberProperty v c) =
  Material._bufferValue c.
Proof.
  unfold Material.set_value. simpl.
  destruct (Material._isNoopAnimation c); [|reflexivity].
  unfold Material._emitAnimationEnd. simpl.
  destruct (_ || _); reflexivity.
Qed.

Lemma mdc_sync_value c :
  Mdc._value (Mdc._syncFoundation c) = Mdc._value c.
Proof.
  unfold Mdc._syncFoundation.
  destruct (Mdc._foundation c); [|reflexivity].
  destruct (Mdc._platform_isBrowser c); reflexivity.
Qed.

Lemma mdc_sync_bufferValue c :
  Mdc._bufferValue (Mdc._syncFoundation c) = Mdc._bufferValue c.
Proof.
  unfold Mdc._syncFoundation.
  destruct (Mdc._foundation c); [|reflexivity].
  destruct (Mdc._platform_isBrowser c); reflexivity.
Qed.

(** The getter [bufferValue] of the MDC bar stays in range when the field
    is. *)
Lemma mdc_getter_in_range c :
  in_range (Mdc._bufferValue c) = true -> in_range (Mdc.bufferValue c) = true.
Proof.
  intros H. unfold Mdc.bufferValue.
  destruct (truthy _); [exact H | reflexivity].
Qed.

Lemma material_assign_invariant c a :
  numericAssignment StringToNumber a ->
  Material.invariant c ->
  Material.invariant (Material.assign StringToNumber coerceNumberProperty c a).
Proof.
  intros Ha [Hv Hb]. unfold Material.invariant, Material.value,
    Material.bufferValue in *.
  destruct a as [v|v|m]; simpl.
  - rewrite material_value_set_value, material_bufferValue_set_value.
    split; [|exact Hb]. apply clamp_in_range, or_zero_number_not_NaN.
  - split; [exact Hv|]. apply clamp_in_range, or_zero_numeric_not_NaN, Ha.
  - split; assumption.
Qed.

Lemma mdc_assign_invariant c a :
  numericAssignment StringToNumber a ->
  in_range (Mdc._value c) = true /\ in_range (Mdc._bufferValue c) = true ->
  in_range (Mdc._value (Mdc.assign StringToNumber c a)) = true /\
  in_range (Mdc._bufferValue (Mdc.assign StringToNumber c a)) = true.
Proof.
  intros Ha [Hv Hb].
  destruct a as [v|v|m]; simpl;
    unfold Mdc.set_value, Mdc.set_bufferValue, Mdc.set_mode;
    rewrite mdc_sync_value, mdc_sync_bufferValue; simpl.
  - split; [|exact Hb]. apply clamp_in_range, or_zero_numeric_not_NaN, Ha.
  - split; [exact Hv|]. apply clamp_in_range, or_zero_numeric_not_NaN, Ha.
  - split; assumption.
Qed.

Lemma material_run_invariant l : forall c,
  Forall (numericAssignment StringToNumber) l ->
  Material.invariant c ->
  Material.invariant
    (fold_left (Material.assign StringToNumber coerceNumberProperty) l c).
Proof.
  induction l as [|a l IH]; intros c Hl Hc; simpl; [exact Hc|].
  inversion Hl; subst. apply IH; [assumption|].
  apply material_assign_invariant; assumption.
Qed.

Lemma mdc_run_invariant l : forall c,
  Forall (numericAssignment StringToNumber) l ->
  in_range (Mdc._value c) = true /\ in_range (Mdc._bufferValue c) = true ->
  Mdc.invariant (fold_left (Mdc.assign StringToNumber) l c).
Proof.
  induction l as [|a l IH]; intros c Hl Hc; simpl.
  - destruct Hc as [Hv Hb]. split; [exact Hv | apply mdc_getter_in_range, Hb].
  - inversion Hl; subst. apply IH; [assumption|].
    apply mdc_assign_invariant; assumption.
Qed.
End Clamping.

(** C4. For every input [v] that is a number, a numeric string, [null] or
    [undefined], the [value] and [bufferValue] setters of both progress bars
    store [clamp(coerced(v) || 0, 0, 100)], which is
    [max(0, min(100, coerced(v) || 0))] and lies between 0 and 100; hence
    after any sequence of such assignments to a freshly constructed bar,
    [0 <= value <= 100] and [0 <= bufferValue <= 100], in the material and in
    the MDC progress bar. *)
Theorem progress_bar_values_clamped
    (StringToNumber : string -> number) (coerceNumberProperty : val -> number)
    (v : val) (assignments : list Assignment)
    (Hv : numericInput StringToNumber v)
    (Hassignments : Forall (numericAssignment StringToNumber) assignments) :
  (forall c,
     clamped_to StringToNumber
       (or (VNumber (coerceNumberProperty v)) (VNumber zero))
       (Material._value
          (Material.set_value StringToNumber coerceNumberProperty v c))) /\
  (forall c,
     clamped_to StringToNumber (or v (VNumber zero))
       (Material._bufferValue (Material.set_bufferValue StringToNumber v c))) /\
  (forall c,
     clamped_to StringToNumber (or v (VNumber zero))
       (Mdc._value (Mdc.set_value StringToNumber v c))) /\
  (forall c,
     clamped_to StringToNumber (or v (VNumber zero))
       (Mdc._bufferValue (Mdc.set_bufferValue StringToNumber v c))) /\
  (forall animationMode,
     Material.invariant
       (fold_left (Material.assign StringToNumber coerceNumberProperty)
          assignments (Material.new animationMode))) /\
  (forall isBrowser dir animationMode,
     Mdc.invariant
       (fold_left (Mdc.assign StringToNumber) assignments
          (Mdc.new isBrowser dir animationMode))).
Proof.
  repeat split_and; intros.
  - rewrite material_value_set_value.
    apply clamped_to_clamp, or_zero_number_not_NaN.
  - simpl. apply clamped_to_clamp, or_zero_numeric_not_NaN, Hv.
  - unfold Mdc.set_value. rewrite mdc_sync_value. simpl.
    apply clamped_to_clamp, or_zero_numeric_not_NaN, Hv.
  - unfold Mdc.set_bufferValue. rewrite mdc_sync_bufferValue. simpl.
    apply clamped_to_clamp, or_zero_numeric_not_NaN, Hv.
  - apply material_run_invariant; [exact Hassignments|].
    split; reflexivity.
  - apply mdc_run_invariant; [exact Hassignments|].
    split; reflexivity.
Qed.


Lemma progress_bar_values_clamped_witness :
  numericInput sampleStringToNumber (VString "250") /\
  Material.invariant
    (fold_left (Material.assign sampleStringToNumber sampleCoerceNumberProperty)
       [AssignValue (VString "250"); AssignBufferValue (VNumber (Finite (-3)))]
       (Material.new None)) /\
  Mdc.invariant
    (fold_left (Mdc.assign sampleStringToNumber)
       [AssignValue (VString "250"); AssignBufferValue (VNumber (Finite (-3)))]
       (Mdc.new true None None)).
Proof.
  assert (Hv : numericInput sampleStringToNumber (VString "250"))
    by reflexivity.
  assert (Hl : Forall (numericAssignment sampleStringToNumber)
                 [AssignValue (VString "250");
                  AssignBufferValue (VNumber (Finite (-3)))])
    by (repeat constructor).
  split; [exact Hv|].
  destruct (progress_bar_values_clamped sampleStringToNumber
              sampleCoerceNumberProperty _ _ Hv Hl)
    as (_ & _ & _ & _ & Hmat & Hmdc).
  split; [apply Hmat | apply Hmdc].
Defined.

(** Out of range and non-numeric inputs, evaluated. *)
Example material_value_250 :
  Material.value
    (Material.set_value sampleStringToNumber sampleCoerceNumberProperty
       (VString "250") (Material.new None)) = hundred.
Proof. reflexivity. Qed.

Example mdc_value_negative :
  Mdc.value (Mdc.set_value sampleStringToNumber (VNumber (Finite (-3)))
               (Mdc.new true None None)) = zero.
Proof. reflexivity. Qed.

Example mdc_value_NaN :
  Mdc.value (Mdc.set_value sampleStringToNumber (VNumber NaN)
               (Mdc.new true None None)) = zero.
Proof. reflexivity. Qed.

(** A string that is not numeric is outside the domain of the statement: the
    setters without explicit coercion then store [NaN]. *)
Example material_bufferValue_not_numeric :
  Material.bufferValue
    (Material.set_bufferValue sampleStringToNumber (VString "abc")
       (Material.new None)) = NaN.
Proof. reflexivity. Qed.

(** C5. In every state of either progress bar the host element carries
    [aria-valuemin="0"], [aria-valuemax="100"], a [mode] attribute equal to
    the [mode] property, and [aria-valuenow] equal to the current value in
    the modes determinate and buffer, and no [aria-valuenow] attribute
    (binding [null]) in the modes indeterminate and query. *)
Theorem progress_bar_host_attributes :
  (forall c : Material.MatProgressBar,
     attribute "aria-valuemin" (Material.host c) = Some (HString "0") /\
     attribute "aria-valuemax" (Material.host c) = Some (HString "100") /\
     attribute "mode" (Material.host c) =
       Some (HString (mode_string (Material.mode c))) /\
     host_lookup "[attr.aria-valuenow]" (Material.host c) =
       Some (match Material.mode c with
             | determinate | buffer => HNumber (Material.value c)
             | indeterminate | query => HNull
             end) /\
     attribute "aria-valuenow" (Material.host c) =
       match Material.mode c with
       | determinate | buffer => Some (HNumber (Material.value c))
       | indeterminate | query => None
       end) /\
  (forall c : Mdc.MatProgressBar,
     attribute "aria-valuemin" (Mdc.host c) = Some (HString "0") /\
     attribute "aria-valuemax" (Mdc.host c) = Some (HString "100") /\
     attribute "mode" (Mdc.host c) = Some (HString (mode_string (Mdc.mode c))) /\
     host_lookup "[attr.aria-valuenow]" (Mdc.host c) =
       Some (match Mdc.mode c with
             | determinate | buffer => HNumber (Mdc.value c)
             | indeterminate | query => HNull
             end) /\
     attribute "aria-valuenow" (Mdc.host c) =
       match Mdc.mode c with
       | determinate | buffer => Some (HNumber (Mdc.value c))
       | indeterminate | query => None
       end).
Proof.
  split; intros [] ; simpl;
    match goal with m : ProgressBarMode |- _ => destruct m end;
    repeat split; reflexivity.
Qed.

End ProgressBarProofs.

(** ** The overlay mouse click dispatcher *)
Module OverlayProofs.
Import Js JsFacts Overlay.

(** No number lies strictly left of [lo] and strictly right of [hi] when
    [lo <= hi]. *)
Lemma no_number_outside_both_sides (x lo hi : number) :
  leb lo hi = true -> ltb x lo && ltb hi x = false.
Proof.
  intros Hle. apply andb_false_iff.
  destruct (ltb x lo) eqn:H1; [right | left; reflexivity].
  destruct (ltb hi x) eqn:H2; [exfalso | reflexivity].
  destruct x as [| |x|], lo as [| |l|], hi as [| |h|];
    simpl in *; try discriminate.
  apply negb_true_iff in H1, H2.
  apply Qle_bool_iff in Hle.
  assert (Hxl : (x < l)%Q).
  { apply Qnot_le_lt. intros C. apply Qle_bool_iff in C. congruence. }
  assert (Hhx : (h < x)%Q).
  { apply Qnot_le_lt. intros C. apply Qle_bool_iff in C. congruence. }
  apply (Qlt_irrefl x).
  apply Qlt_le_trans with l; [exact Hxl|].
  apply Qle_trans with h; [exact Hle|]. apply Qlt_le_weak, Hhx.
Qed.

Lemma isOutsideClick_wellFormed event rect :
  wellFormed rect -> isOutsideClick event rect = false.
Proof.
  intros [Hx _]. unfold isOutsideClick.
  rewrite (no_number_outside_both_sides _ _ _ Hx). reflexivity.
Qed.

(** C9. Whatever the click and whatever the attached overlays, as long as
    their bounding rectangles are well formed ([left <= right] and
    [top <= bottom]), [isOutsideClick] is false for each of them, and the
    click listener returns without a single call of [overlayRef.detach()],
    whatever [detachOnOutsideClick] says: the dispatcher is left as it was. *)
Theorem click_listener_never_detaches
    (detachEffect : OverlayRef -> list OverlayRef -> list OverlayRef)
    (event : MouseEvent) (d : Dispatcher)
    (Hrects : Forall (fun o => wellFormed (overlayRect o)) (_attachedOverlays d)) :
  Forall (fun o => isOutsideClick event (overlayRect o) = false)
    (_attachedOverlays d) /\
  _clickListener detachEffect event d = (d, Returned) /\
  detachCalls (fst (_clickListener detachEffect event d)) = detachCalls d.
Proof.
  assert (Hout : Forall (fun o => isOutsideClick event (overlayRect o) = false)
                   (_attachedOverlays d)).
  { eapply Forall_impl; [exact Hrects|].
    intros o Ho. apply isOutsideClick_wellFormed, Ho. }
  assert (Hrun : _clickListener detachEffect event d = (d, Returned)).
  { unfold _clickListener.
    destruct (length (_attachedOverlays d)) as [|i] eqn:Hlen; [reflexivity|].
    simpl. destruct (_attachedOverlays d !! i) as [o|] eqn:Hi.
    - assert (Ho : isOutsideClick event (overlayRect o) = false).
      { rewrite Forall_forall in Hout. apply Hout.
        apply list_elem_of_lookup. eauto. }
      rewrite Ho. reflexivity.
    - apply lookup_ge_None in Hi. lia. }
  split; [exact Hout|]. split; [exact Hrun|]. rewrite Hrun. reflexivity.
Qed.

Lemma click_listener_never_detaches_witness :
  _clickListener sampleDetachEffect sampleClick sampleDispatcher =
  (sampleDispatcher, Returned).
Proof.
  apply (click_listener_never_detaches sampleDetachEffect sampleClick
           sampleDispatcher).
  repeat constructor.
Defined.

(** Even a click far outside the only overlay, which asks to be detached on
    outside clicks, detaches nothing. *)
Example outside_click_does_not_detach :
  isOutsideClick sampleOutsideClick
    {| left := Finite 10; right := Finite 20;
       top := Finite 10; bottom := Finite 20 |} = false /\
  _clickListener sampleDetachEffect sampleOutsideClick sampleDispatcher =
  (sampleDispatcher, Returned).
Proof. split; reflexivity. Qed.

End OverlayProofs.

(** ** The Testbed harness environment *)
Module TestbedProofs.
Import Testbed.










Example forceStabilize_after_destroy :
  snd (forceStabilize (fold_left step [ForceStabilize; DestroyFixture]
                         (new (liveFixture [])))) =
  Rejected (MkError destroyedMessage).
Proof. reflexivity. Qed.

Example forceStabilize_alive :
  forceStabilize (new (liveFixture [Foreign])) =
  ({| _fixture := {| fixtureDestroyed := false;
                     destroyCallbacks := [Foreign; SetEnvironmentDestroyed];
                     detectChangesCalls := 1;
                     whenStableCalls := 1 |};
      _destroyed := false |}, Resolved tt).
Proof. reflexivity. Qed.

End TestbedProofs.

(** ** Version keyed upgrade data *)
Module UpgradeDataProofs.
Import UpgradeData.

(** Distinct target versions have distinct keys. *)
Lemma TargetVersion_value_inj (a b : TargetVersion) :
  TargetVersion_value a = TargetVersion_value b -> a = b.
Proof. destruct a, b; simpl; intros H; try reflexivity; discriminate H. Qed.

Lemma getChangesForTarget_elem {T : Type} (t : TargetVersion)
    (data : VersionChanges T) (x : T) :
  x ∈ getChangesForTarget t data <->
  exists entries entry,
    data !! TargetVersion_value t = Some entries /\
    entry ∈ entries /\ x ∈ changes entry.
Proof.
  unfold getChangesForTarget.
  destruct (data !! TargetVersion_value t) as [entries|] eqn:Hdata.
  - rewrite list_elem_of_In, in_concat. split.
    + intros (l & Hl & Hx). apply in_map_iff in Hl.
      destruct Hl as (entry & <- & Hentry).
      exists entries, entry. rewrite !list_elem_of_In. auto.
    + intros (entries' & entry & Heq & Hentry & Hx).
      injection Heq as <-. exists (changes entry).
      apply list_elem_of_In in Hentry. apply list_elem_of_In in Hx.
      split; [|exact Hx].
      apply in_map. exact Hentry.
  - split.
    + intros Hx. apply elem_of_nil in Hx. destruct Hx.
    + intros (entries & entry & Heq & _). discriminate Heq.
Qed.

(** C3. The substitution rules are keyed by target version: for every rule
    (target version [t] and upgrade data) and data key [k],
    [getVersionUpgradeData] returns exactly the changes recorded under the
    key of [t] in the table of [k] (nothing when the table has no such key);
    on the [classNames] table of the CDK these are the four renamings of
    version 6 and nothing for the other versions; and the element selectors
    rule is enabled exactly when its list of changes is not empty. *)
Theorem version_upgrade_data_keyed_by_target
    (AttributeSelectorUpgradeData ConstructorChecksUpgradeData
     CssSelectorUpgradeData InputNameUpgradeData OutputNameUpgradeData
     PropertyNameUpgradeData : Type)
    (r : MigrationRule AttributeSelectorUpgradeData ConstructorChecksUpgradeData
           CssSelectorUpgradeData InputNameUpgradeData OutputNameUpgradeData
           PropertyNameUpgradeData)
    (k : DataName)
    (cdk_attributeSelectors : VersionChanges AttributeSelectorUpgradeData)
    (cdk_constructorChecks : VersionChanges ConstructorChecksUpgradeData)
    (cdk_cssSelectors : VersionChanges CssSelectorUpgradeData)
    (cdk_elementSelectors : VersionChanges ElementSelectorUpgradeData)
    (cdk_inputNames : VersionChanges InputNameUpgradeData)
    (cdk_outputNames : VersionChanges OutputNameUpgradeData)
    (cdk_propertyNames : VersionChanges PropertyNameUpgradeData) :
  let cdk := cdkUpgradeData _ _ _ _ _ _ cdk_attributeSelectors
               cdk_constructorChecks cdk_cssSelectors cdk_elementSelectors
               cdk_inputNames cdk_outputNames cdk_propertyNames in
  getVersionUpgradeData _ _ _ _ _ _ r k =
    match table _ _ _ _ _ _ (upgradeData _ _ _ _ _ _ r) k
            !! TargetVersion_value (targetVersion _ _ _ _ _ _ r) with
    | Some entries => concat (map changes entries)
    | None => []
    end /\
  (forall x,
     x ∈ getVersionUpgradeData _ _ _ _ _ _ r k <->
     exists entries entry,
       table _ _ _ _ _ _ (upgradeData _ _ _ _ _ _ r) k
         !! TargetVersion_value (targetVersion _ _ _ _ _ _ r) = Some entries /\
       entry ∈ entries /\ x ∈ changes entry) /\
  (forall t,
     getVersionUpgradeData _ _ _ _ _ _
       {| targetVersion := t; upgradeData := cdk |} key_classNames =
     match t with
     | V6 =>
         [ {| replace := "ConnectedOverlayDirective";
              replaceWith := "CdkConnectedOverlay" |};
           {| replace := "OverlayOrigin"; replaceWith := "CdkOverlayOrigin" |};
           {| replace := "ObserveContent"; replaceWith := "CdkObserveContent" |};
           {| replace := "FocusTrapDirective"; replaceWith := "CdkTrapFocus" |} ]
     | _ => []
     end) /\
  (ElementSelectorsRule_ruleEnabled _ _ _ _ _ _ r = true <->
   ElementSelectorsRule_data _ _ _ _ _ _ r <> []).
Proof.
  intros cdk. split; [reflexivity|]. split; [|split].
  - intros x. apply getChangesForTarget_elem.
  - intros t. destruct t; vm_compute; reflexivity.
  - unfold ElementSelectorsRule_ruleEnabled.
    destruct (ElementSelectorsRule_data _ _ _ _ _ _ r) as [|d ds]; simpl.
    + split; [discriminate | intros H; contradiction H; reflexivity].
    + split; [discriminate | reflexivity].
Qed.

End UpgradeDataProofs.

(** ** The element selectors rule *)
Module ElementSelectorsProofs.
Import UpgradeData ElementSelectors.

Section Rule.
Variable findAllSubstringIndices : string -> string -> list nat.
Variable treeFilePath : string -> string.

Local Abbreviation record_call := (record_call treeFilePath).
Local Abbreviation _replaceSelector := (_replaceSelector treeFilePath).
Local Abbreviation only_records := (only_records treeFilePath).

Lemma only_records_refl p filePath : only_records p p filePath [].
Proof.
  repeat split; auto. rewrite app_nil_r. reflexivity.
Qed.

Lemma only_records_call p filePath c :
  isRemoveOrInsertRight c ->
  only_records p (record_call filePath c p) filePath [c].
Proof.
  intros Hc. unfold only_records, ElementSelectors.record_call, recorded.
  simpl. split; [reflexivity|]. split; [|split].
  - rewrite lookup_insert_eq. reflexivity.
  - intros other Hother. rewrite lookup_insert_ne; [reflexivity|].
    intros Heq. apply Hother. symmetry. exact Heq.
  - constructor; [exact Hc | constructor].
Qed.

Lemma only_records_trans p1 p2 p3 filePath a b :
  only_records p1 p2 filePath a -> only_records p2 p3 filePath b ->
  only_records p1 p3 filePath (a ++ b).
Proof.
  intros (Hf1 & Hr1 & Ho1 & Ha) (Hf2 & Hr2 & Ho2 & Hb).
  split; [congruence|]. split; [|split].
  - rewrite Hr2, Hr1, app_assoc. reflexivity.
  - intros other Hother. rewrite Ho2, Ho1; auto.
  - apply Forall_app. split; assumption.
Qed.

Lemma only_records_replaceSelector p filePath start data :
  only_records p (_replaceSelector filePath start data p) filePath
    [ remove start (String.length (selector_replace data));
      insertRight start (selector_replaceWith data) ].
Proof.
  unfold ElementSelectors._replaceSelector.
  eapply (only_records_trans _ _ _ _ [_] [_]);
    apply only_records_call; exact I.
Qed.

Lemma only_records_occurrences filePath base selector offsets : forall p,
  only_records p
    (fold_left (fun p start => _replaceSelector filePath start selector p)
       (map (fun offset => base + offset) offsets) p)
    filePath
    (flat_map
       (fun offset =>
          [ remove (base + offset) (String.length (selector_replace selector));
            insertRight (base + offset) (selector_replaceWith selector) ])
       offsets).
Proof.
  induction offsets as [|offset offsets IH]; intros p; simpl.
  - apply only_records_refl.
  - eapply (only_records_trans _ _ _ _ [_; _]);
      [apply only_records_replaceSelector | apply IH].
Qed.

Lemma only_records_replaceAll data text base filePath : forall p,
  only_records p
    (replaceAll findAllSubstringIndices treeFilePath data text base filePath p)
    filePath
    (replacements findAllSubstringIndices data text base).
Proof.
  unfold replaceAll, replacements.
  induction data as [|selector data IH]; intros p; simpl.
  - apply only_records_refl.
  - eapply only_records_trans; [apply only_records_occurrences | apply IH].
Qed.
End Rule.

(** C8. The element selectors rule records edits and mutates nothing in
    place: whatever the project, [visitTemplate], [visitStylesheet] and
    [visitNode] leave the text of every file (the source the node was
    parsed from, the template, the stylesheet) as it was, and only append
    [remove]/[insertRight] calls, one pair per match, to the update
    recorder of the visited file; every other recorder is untouched.  The
    node and the resource are read only arguments of the visit. *)
Theorem element_selectors_rule_only_records
    (findAllSubstringIndices : string -> string -> list nat)
    (treeFilePath : string -> string)
    (data : list ElementSelectorUpgradeData) (p : Project) :
  (forall template,
     only_records treeFilePath p
       (visitTemplate findAllSubstringIndices treeFilePath data template p)
       (filePath template)
       (replacements findAllSubstringIndices data (content template)
          (start template))) /\
  (forall stylesheet,
     only_records treeFilePath p
       (visitStylesheet findAllSubstringIndices treeFilePath data stylesheet p)
       (filePath stylesheet)
       (replacements findAllSubstringIndices data (content stylesheet)
          (start stylesheet))) /\
  (forall node,
     only_records treeFilePath p
       (visitNode findAllSubstringIndices treeFilePath data node p)
       (sourceFileName node)
       (if isStringLiteralLike node then
          match parent_kind node with
          | Some CallExpression | None =>
              replacements findAllSubstringIndices data (getText node)
                (getStart node)
          | Some _ => []
          end
        else [])).
Proof.
  split; [|split].
  - intros template. apply only_records_replaceAll.
  - intros stylesheet. apply only_records_replaceAll.
  - intros node. unfold visitNode, _visitStringLiteralLike.
    destruct (isStringLiteralLike node); [|apply only_records_refl].
    destruct (parent_kind node) as [[]|];
      first [apply only_records_replaceAll | apply only_records_refl].
Qed.

End ElementSelectorsProofs.

(** ** The update tool *)
Module UpdateToolProofs.
Import UpgradeData UpdateTool.

(** *** Traces *)

Lemma count_visits_app p t1 t2 :
  count_visits p (t1 ++ t2) = count_visits p t1 + count_visits p t2.
Proof.
  induction t1 as [|e t1 IH]; simpl; [reflexivity|]. rewrite IH. lia.
Qed.

Lemma count_visits_edits p edits :
  count_visits p (map EditRecorded edits) = 0.
Proof. induction edits as [|e edits IH]; simpl; auto. Qed.

Lemma visited_app p t1 t2 :
  visited p (t1 ++ t2) <-> visited p t1 \/ visited p t2.
Proof. unfold visited. apply Exists_app. Qed.

Lemma visited_edits p edits : ~ visited p (map EditRecorded edits).
Proof.
  unfold visited. induction edits as [|e edits IH]; intros H.
  - inversion H.
  - inversion H as [? ? [i Hi]|]; subst; [discriminate Hi | auto].
Qed.

(** A path counted in a trace is visited in it. *)
Lemma count_visits_visited p t : 0 < count_visits p t -> visited p t.
Proof.
  unfold visited. induction t as [|e t IH]; simpl; [lia|].
  destruct (is_checked_visit p e) eqn:He; intros H.
  - apply Exists_cons_hd. unfold is_checked_visit in He.
    destruct (visit_path e) as [[q []]|]; try discriminate.
    apply String.eqb_eq in He. subst. eauto.
  - apply Exists_cons_tl, IH. lia.
Qed.

Lemma is_checked_visit_path ev p i q :
  visit_path ev = Some (p, i) ->
  is_checked_visit q ev = negb i && String.eqb p q.
Proof.
  intros H. unfold is_checked_visit. rewrite H. destruct i; reflexivity.
Qed.

Lemma edits_of_app t1 t2 : edits_of (t1 ++ t2) = edits_of t1 ++ edits_of t2.
Proof.
  induction t1 as [|e t1 IH]; simpl; [reflexivity|].
  destruct e; simpl; rewrite ?IH; reflexivity.
Qed.

Lemma edits_of_edits edits : edits_of (map EditRecorded edits) = edits.
Proof. induction edits as [|e edits IH]; simpl; congruence. Qed.

Lemma is_migrate_event_edits edits :
  Forall is_migrate_event (map EditRecorded edits).
Proof. induction edits; simpl; constructor; auto. exact I. Qed.

Lemma count_commits_app t1 t2 :
  count_commits (t1 ++ t2) = count_commits t1 + count_commits t2.
Proof.
  induction t1 as [|e t1 IH]; simpl; [reflexivity|].
  destruct e; simpl; rewrite ?IH; reflexivity.
Qed.

Lemma count_commits_migrate_events t :
  Forall is_migrate_event t -> count_commits t = 0.
Proof.
  induction 1 as [|e t He _ IH]; simpl; [reflexivity|].
  destruct e; simpl in *; auto; contradiction.
Qed.

(** *** The relations between worlds *)

Lemma edits_only_refl w : edits_only w w.
Proof.
  repeat split. exists []. simpl. rewrite !app_nil_r. auto.
Qed.

Lemma edits_only_trans w1 w2 w3 :
  edits_only w1 w2 -> edits_only w2 w3 -> edits_only w1 w3.
Proof.
  intros (Ha1 & Ht1 & Hl1 & e1 & Hp1 & Hr1) (Ha2 & Ht2 & Hl2 & e2 & Hp2 & Hr2).
  repeat split; try congruence.
  exists (e1 ++ e2). rewrite Hp2, Hp1, Hr2, Hr1, map_app, !app_assoc. auto.
Qed.

Lemma edits_only_record edits w : edits_only w (record_edits edits w).
Proof. repeat split. exists edits. auto. Qed.

Lemma extends_refl w : extends w w.
Proof.
  split; [reflexivity|]. exists []. simpl. rewrite !app_nil_r. auto.
Qed.

Lemma extends_trans w1 w2 w3 : extends w1 w2 -> extends w2 w3 -> extends w1 w3.
Proof.
  intros (Ht1 & e1 & Hr1 & Hf1 & Hp1) (Ht2 & e2 & Hr2 & Hf2 & Hp2).
  split; [congruence|]. exists (e1 ++ e2).
  rewrite Hr2, Hr1, Hp2, Hp1, edits_of_app, !app_assoc.
  split; [reflexivity|]. split; [|reflexivity]. apply Forall_app. auto.
Qed.

Lemma extends_edits_only w w' : edits_only w w' -> extends w w'.
Proof.
  intros (_ & Ht & _ & edits & Hp & Hr). split; [exact Ht|].
  exists (map EditRecorded edits). rewrite edits_of_edits.
  auto using is_migrate_event_edits.
Qed.

Lemma analyzed_invariant_edits_only A0 w w' :
  edits_only w w' -> analyzed_invariant A0 w -> analyzed_invariant A0 w'.
Proof.
  intros (Ha & _ & _ & edits & _ & Hr) (Hsub & Hle & Hzero & Hin).
  unfold analyzed_invariant. rewrite Ha, Hr. split; [exact Hsub|].
  split; [|split].
  - intros p. rewrite count_visits_app, count_visits_edits. specialize (Hle p). lia.
  - intros p Hp. rewrite count_visits_app, count_visits_edits, Hzero; auto.
  - intros p Hp. apply visited_app in Hp. destruct Hp as [Hp|Hp]; auto.
    exfalso. exact (visited_edits _ _ Hp).
Qed.

Lemma skips_analyzed_refl w : skips_analyzed w w.
Proof. split; [set_solver | reflexivity]. Qed.

Lemma skips_analyzed_trans w1 w2 w3 :
  skips_analyzed w1 w2 -> skips_analyzed w2 w3 -> skips_analyzed w1 w3.
Proof.
  intros [Hs1 Hc1] [Hs2 Hc2]. split; [set_solver|].
  intros p Hp. rewrite Hc2, Hc1; auto.
Qed.

Lemma skips_analyzed_same w w' :
  analyzedFiles w' = analyzedFiles w ->
  (forall p, count_visits p (trace w') = count_visits p (trace w)) ->
  skips_analyzed w w'.
Proof.
  intros Ha Hc. split; [rewrite Ha; set_solver | intros p _; apply Hc].
Qed.

Lemma migrate_step_refl w : migrate_step w w.
Proof.
  split; [auto|]. split; [apply extends_refl | apply skips_analyzed_refl].
Qed.

Lemma migrate_step_trans w1 w2 w3 :
  migrate_step w1 w2 -> migrate_step w2 w3 -> migrate_step w1 w3.
Proof.
  intros (Hi1 & He1 & Hs1) (Hi2 & He2 & Hs2). split; [auto|]. split.
  - eapply extends_trans; eauto.
  - eapply skips_analyzed_trans; eauto.
Qed.

Lemma migrate_step_edits_only w w' : edits_only w w' -> migrate_step w w'.
Proof.
  intros H. split; [|split].
  - intros A0. apply analyzed_invariant_edits_only, H.
  - apply extends_edits_only, H.
  - destruct H as (Ha & _ & _ & edits & _ & Hr).
    apply skips_analyzed_same; [exact Ha|].
    intros p. rewrite Hr, count_visits_app, count_visits_edits. lia.
Qed.

Lemma migrate_step_log level message w :
  migrate_step w (logger_log level message w).
Proof.
  split; [intros A0 H; exact H|].
  split; [|apply skips_analyzed_same; reflexivity].
  split; [reflexivity|]. exists []. simpl. rewrite !app_nil_r. auto.
Qed.

(** An iteration of a loop of [migrate] keeps the invariant of the analyzed
    files and only adds visits and recorded edits. *)
Lemma migrate_step_visit_step w w' : visit_step w w' -> migrate_step w w'.
Proof.
  intros [->|ev p i w1 Hev Hnew Hedits ->]; [apply migrate_step_refl|].
  destruct Hedits as (Hsame & Ht & Hl & edits & Hp & Hr). simpl in *.
  assert (Hcount : forall q,
            count_visits q (trace w1) =
            count_visits q (trace w) +
            (if negb i && String.eqb p q then 1 else 0)).
  { intros q. rewrite Hr, !count_visits_app, count_visits_edits. simpl.
    rewrite (is_checked_visit_path _ _ _ _ Hev). lia. }
  split; [|split].
  - intros A0 (Hsub & Hle & Hzero & Hin).
    assert (Hfresh : i = false -> count_visits p (trace w) = 0).
    { intros Hi. destruct (count_visits p (trace w)) eqn:Hc; [reflexivity|].
      exfalso. apply (Hnew Hi), Hin, count_visits_visited. lia. }
    unfold analyzed_invariant. simpl. rewrite Hsame. clear Hsame.
    split; [set_solver|]. split; [|split].
    + intros q. rewrite Hcount. specialize (Hle q).
      destruct i; simpl; [lia|].
      destruct (String.eqb p q) eqn:Hpq; [|lia].
      apply String.eqb_eq in Hpq. subst q. rewrite Hfresh; auto.
    + intros q Hq. rewrite Hcount, Hzero by exact Hq.
      destruct i; simpl; [reflexivity|].
      destruct (String.eqb p q) eqn:Hpq; [|reflexivity].
      apply String.eqb_eq in Hpq. subst q. exfalso.
      apply Hnew; [reflexivity | set_solver].
    + intros q Hq. rewrite Hr in Hq.
      apply visited_app in Hq. destruct Hq as [Hq|Hq];
        [|exfalso; exact (visited_edits _ _ Hq)].
      apply visited_app in Hq. destruct Hq as [Hq|Hq].
      * apply Hin in Hq. set_solver.
      * inversion Hq as [? ? [j Hj]|? ? Hnil]; subst; [|inversion Hnil].
        rewrite Hev in Hj. injection Hj as -> _. set_solver.
  - split; [simpl; exact Ht|].
    exists ([ev] ++ map EditRecorded edits). simpl.
    rewrite Hr, Hp, <- app_assoc. simpl.
    split; [reflexivity|]. split.
    + constructor; [destruct ev; try discriminate; exact I |
                    apply is_migrate_event_edits].
    + destruct ev; try discriminate; simpl; rewrite edits_of_edits; reflexivity.
  - split; simpl; [rewrite Hsame; clear; set_solver|].
    intros q Hq. rewrite Hcount.
    destruct i; simpl; [lia|].
    destruct (String.eqb p q) eqn:Hpq; [|lia].
    apply String.eqb_eq in Hpq. subst q. exfalso. apply Hnew; auto.
Qed.


(** Induction on a node with the hypothesis for all its children. *)
Lemma Node_induction (P : Node -> Prop) :
  (forall label children, Forall P children -> P (MkNode label children)) ->
  forall node, P node.
Proof.
  intros H. fix IH 1. intros [label children]. apply H.
  induction children as [|child children IHchildren]; constructor.
  - apply IH.
  - exact IHchildren.
Qed.

(** *** The parts of [migrate] *)
Section Migrate.
Variables MigrationState Context_ Data : Type.
Variable resolve : string -> string.
Variable collect : Node -> list ResolvedResource * list ResolvedResource.
Variable resolveExternalStylesheet : string -> ResolvedResource.

Local Abbreviation MigrationCtor :=
  (MigrationCtor MigrationState Context_ Data).
Local Abbreviation Migration := (Migration MigrationState Context_ Data).
Local Abbreviation Run := (Run MigrationState Context_ Data).
Local Abbreviation UpdateProject := (UpdateProject Context_).
Local Abbreviation forEach_migration :=
  (forEach_migration MigrationState Context_ Data).
Local Abbreviation world := (world MigrationState Context_ Data).
Local Abbreviation migrate_components :=
  (migrate_components MigrationState Context_ Data resolve collect).
Local Abbreviation migrate_report :=
  (migrate_report MigrationState Context_ Data resolve).
Local Abbreviation migrate :=
  (migrate MigrationState Context_ Data resolve collect
     resolveExternalStylesheet).

Lemma forEach_migration_fold
    (visit : MigrationCtor -> MigrationState -> MigrationState * list Edit)
    (ms : list Migration) : forall done w,
  edits_only w
    (snd (fold_left
            (fun '(done, w) (m : Migration) =>
               let '(s, edits) := visit (ctor _ _ _ m) (state _ _ _ m) in
               (done ++ [{| ctor := ctor _ _ _ m; state := s |}],
                record_edits edits w))
            ms (done, w))).
Proof.
  induction ms as [|m ms IH]; intros done w; simpl.
  - apply edits_only_refl.
  - destruct (visit (ctor _ _ _ m) (state _ _ _ m)) as [s edits].
    eapply edits_only_trans; [apply (edits_only_record edits) | apply IH].
Qed.

Lemma forEach_migration_edits_only visit (r : Run) :
  edits_only (world r) (world (forEach_migration visit r)).
Proof.
  unfold UpdateTool.forEach_migration.
  pose proof (forEach_migration_fold visit (migrations _ _ _ r) [] (world r))
    as H.
  destruct (fold_left _ _ _) as [ms w]. exact H.
Qed.

Lemma visitNodeAndCollectResources_edits_only node : forall r : Run,
  edits_only (world r)
    (world (visitNodeAndCollectResources _ _ _ collect node r)).
Proof.
  induction node as [label children IH] using Node_induction.
  intros r. simpl.
  eapply edits_only_trans;
    [apply (forEach_migration_edits_only
              (fun c => visitNode _ _ _ c (MkNode label children)))|].
  generalize (forEach_migration
                (fun c => visitNode _ _ _ c (MkNode label children)) r).
  clear r. induction IH as [|child children Hchild _ IHchildren];
    intros r; simpl.
  - apply edits_only_refl.
  - eapply edits_only_trans; [apply Hchild | apply IHchildren].
Qed.

Lemma visitSourceFile_step (r : Run) sourceFile :
  visit_step (world r)
    (world (visitSourceFile _ _ _ resolve collect r sourceFile)).
Proof.
  unfold visitSourceFile.
  destruct (decide _) as [Hin|Hnotin]; [apply visit_step_skip; reflexivity|].
  eapply visit_step_visit
    with (ev := VisitSourceFile (resolve (fileName sourceFile)));
    [reflexivity | intros _; exact Hnotin | | reflexivity].
  apply (visitNodeAndCollectResources_edits_only _
           (with_world _ _ _ _ r)).
Qed.

Lemma visitResolvedTemplate_step (r : Run) template :
  visit_step (world r)
    (world (visitResolvedTemplate _ _ _ resolve r template)).
Proof.
  unfold visitResolvedTemplate.
  destruct (inline template || _) eqn:Hguard;
    [|apply visit_step_skip; reflexivity].
  eapply visit_step_visit
    with (ev := VisitTemplate (resolve (filePath template)) (inline template));
    [reflexivity | | | reflexivity].
  - intros Hinline. rewrite Hinline in Hguard. simpl in Hguard.
    apply negb_true_iff, bool_decide_eq_false in Hguard. exact Hguard.
  - apply (forEach_migration_edits_only _ (with_world _ _ _ _ r)).
Qed.

Lemma visitResolvedStylesheet_step (r : Run) stylesheet :
  visit_step (world r)
    (world (visitResolvedStylesheet _ _ _ resolve r stylesheet)).
Proof.
  unfold visitResolvedStylesheet.
  destruct (inline stylesheet || _) eqn:Hguard;
    [|apply visit_step_skip; reflexivity].
  eapply visit_step_visit
    with (ev := VisitStylesheet (resolve (filePath stylesheet))
                 (inline stylesheet));
    [reflexivity | | | reflexivity].
  - intros Hinline. rewrite Hinline in Hguard. simpl in Hguard.
    apply negb_true_iff, bool_decide_eq_false in Hguard. exact Hguard.
  - apply (forEach_migration_edits_only _ (with_world _ _ _ _ r)).
Qed.

Lemma visitAdditionalStylesheet_step (r : Run) path :
  visit_step (world r)
    (world (visitAdditionalStylesheet _ _ _ resolve
              resolveExternalStylesheet r path)).
Proof.
  unfold visitAdditionalStylesheet.
  destruct (decide _) as [Hin|Hnotin]; [apply visit_step_skip; reflexivity|].
  eapply visit_step_visit
    with (ev := VisitAdditionalStylesheet (resolve path));
    [reflexivity | intros _; exact Hnotin | | reflexivity].
  apply (forEach_migration_edits_only _ (with_world _ _ _ _ r)).
Qed.

(** A loop whose iterations are steps is a step. *)
Lemma forEach_step {X : Type} (body : Run -> X -> Run) :
  (forall r x, migrate_step (world r) (world (body r x))) ->
  forall xs r, migrate_step (world r) (world (fold_left body xs r)).
Proof.
  intros Hbody xs. induction xs as [|x xs IH]; intros r; simpl.
  - apply migrate_step_refl.
  - eapply migrate_step_trans; [apply Hbody | apply IH].
Qed.

Lemma visit_step_logged w w' : visit_step w w' -> logged w' = logged w.
Proof.
  intros [->|ev p i w1 _ _ (_ & _ & Hl & _) ->]; [reflexivity|].
  simpl. exact Hl.
Qed.

(** The visits log nothing. *)
Lemma forEach_logged {X : Type} (body : Run -> X -> Run) :
  (forall r x, visit_step (world r) (world (body r x))) ->
  forall xs r, logged (world (fold_left body xs r)) = logged (world r).
Proof.
  intros Hbody xs. induction xs as [|x xs IH]; intros r; simpl.
  - reflexivity.
  - rewrite IH. apply visit_step_logged, Hbody.
Qed.

Lemma migrate_components_logged this migrationTypes target data w :
  logged (world (migrate_components this migrationTypes target data w)) =
  logged w.
Proof.
  unfold UpdateTool.migrate_components.
  rewrite (forEach_logged _ (fun r x => visitResolvedStylesheet_step r x)).
  rewrite (forEach_logged _ (fun r x => visitResolvedTemplate_step r x)).
  rewrite (forEach_logged _ (fun r x => visitSourceFile_step r x)).
  reflexivity.
Qed.

Lemma migrate_components_step this migrationTypes target data w :
  migrate_step w
    (world (migrate_components this migrationTypes target data w)).
Proof.
  unfold UpdateTool.migrate_components.
  set (r0 := {| migrations := _ |}).
  change w with (world r0) at 1.
  eapply migrate_step_trans; [|apply forEach_step].
  - eapply migrate_step_trans; [|apply forEach_step].
    + apply forEach_step. intros r x.
      apply migrate_step_visit_step, visitSourceFile_step.
    + intros r x. apply migrate_step_visit_step, visitResolvedTemplate_step.
  - intros r x. apply migrate_step_visit_step, visitResolvedStylesheet_step.
Qed.

Local Abbreviation reported_failures :=
  (reported_failures MigrationState Context_ Data).

Lemma collect_failures_flat_map (ms : list Migration) : forall acc,
  fold_left (fun res m => res ++ failures _ _ _ (ctor _ _ _ m) (state _ _ _ m))
    ms acc =
  acc ++ flat_map (fun m => failures _ _ _ (ctor _ _ _ m) (state _ _ _ m)) ms.
Proof.
  induction ms as [|m ms IH]; intros acc; simpl.
  - rewrite app_nil_r. reflexivity.
  - rewrite IH, app_assoc. reflexivity.
Qed.

Lemma log_warnings_fold (fs : list MigrationFailure) : forall w,
  let w' := fold_left
              (fun w f => logger_log warn (failure_warning resolve f) w) fs w in
  logged w' = logged w ++ map (fun f => (warn, failure_warning resolve f)) fs /\
  analyzedFiles w' = analyzedFiles w /\ tree w' = tree w /\
  pendingEdits w' = pendingEdits w /\ trace w' = trace w.
Proof.
  induction fs as [|f fs IH]; intros w; simpl.
  - rewrite app_nil_r. auto.
  - destruct (IH (logger_log warn (failure_warning resolve f) w))
      as (Hl & Ha & Ht & Hp & Hr).
    simpl in *. rewrite Hl, <- app_assoc. auto.
Qed.

(** The end of [migrate]: one warning per reported failure, in order, and
    [hasFailures] tells whether there is one. *)
Lemma migrate_report_spec (r : Run) :
  let w1 := world (forEach_migration (postAnalysis _ _ _) r) in
  let '(w', result) := migrate_report r in
  logged w' =
    logged w1 ++
    map (fun f => (warn, failure_warning resolve f)) (reported_failures r) /\
  analyzedFiles w' = analyzedFiles w1 /\ tree w' = tree w1 /\
  pendingEdits w' = pendingEdits w1 /\ trace w' = trace w1 /\
  hasFailures result = negb (Nat.eqb (length (reported_failures r)) 0).
Proof.
  unfold UpdateTool.migrate_report, UpdateTool.reported_failures. simpl.
  rewrite collect_failures_flat_map. simpl.
  set (fs := flat_map _ _).
  destruct fs as [|f fs'] eqn:Hfs; simpl.
  - rewrite app_nil_r. repeat split.
  - pose proof (log_warnings_fold fs'
                  (logger_log warn (failure_warning resolve f)
                     (world (forEach_migration (postAnalysis _ _ _) r))))
      as (Hl & Ha & Ht & Hp & Hr).
    simpl in *. rewrite Hl, <- app_assoc. repeat split; assumption.
Qed.

Lemma migrate_report_step (r : Run) :
  migrate_step (world r) (fst (migrate_report r)).
Proof.
  pose proof (migrate_report_spec r) as H.
  destruct (migrate_report r) as [w' result]. simpl in *.
  destruct H as (Hl & Ha & Ht & Hp & Hr & _).
  eapply migrate_step_trans;
    [apply migrate_step_edits_only, forEach_migration_edits_only|].
  split; [|split].
  - intros A0 (Hsub & Hle & Hzero & Hin). unfold analyzed_invariant.
    rewrite Ha, Hr.
    split; [exact Hsub|]. split; [exact Hle|]. split; [exact Hzero | exact Hin].
  - split; [exact Ht|]. exists []. simpl. rewrite !app_nil_r.
    split; [exact Hr|]. split; [constructor | exact Hp].
  - apply skips_analyzed_same; [exact Ha|]. intros p. rewrite Hr. reflexivity.
Qed.

(** With an array of additional stylesheets [migrate] returns. *)
Lemma migrate_returns this migrationTypes target data paths w :
  exists w' result,
    migrate this migrationTypes target data (Some paths) w =
      (w', Return result) /\
    migrate_step w w'.
Proof.
  unfold UpdateTool.migrate.
  set (r := UpdateTool.migrate_components _ _ _ _ _ _ _ _ _ _).
  set (r1 := fold_left _ paths r).
  pose proof (migrate_report_step r1) as Hreport.
  destruct (UpdateTool.migrate_report _ _ _ _ r1) as [w' result] eqn:Hrep.
  exists w', result. split; [reflexivity|].
  eapply migrate_step_trans; [apply migrate_components_step|].
  eapply migrate_step_trans; [|exact Hreport].
  apply forEach_step. intros r' x.
  apply migrate_step_visit_step, visitAdditionalStylesheet_step.
Qed.

(** Without it [migrate] throws, after the visits of the components. *)
Lemma migrate_throws this migrationTypes target data w :
  migrate this migrationTypes target data None w =
    (world (migrate_components this migrationTypes target data w),
     ThrowTypeError).
Proof. reflexivity. Qed.

Lemma migrate_world_step this migrationTypes target data paths w :
  migrate_step w (fst (migrate this migrationTypes target data paths w)).
Proof.
  destruct paths as [paths|].
  - destruct (migrate_returns this migrationTypes target data paths w)
      as (w' & result & -> & Hstep). exact Hstep.
  - rewrite migrate_throws. apply migrate_components_step.
Qed.

Lemma run_calls_invariant A0 calls : forall w,
  analyzed_invariant A0 w ->
  analyzed_invariant A0
    (fold_left (run_call MigrationState Context_ Data resolve collect
                  resolveExternalStylesheet) calls w).
Proof.
  induction calls as [|c calls IH]; intros w Hw; simpl; [exact Hw|].
  apply IH. unfold run_call.
  apply (migrate_world_step (call_this _ _ _ c)
           (call_migrationTypes _ _ _ c) (call_target _ _ _ c)
           (call_data _ _ _ c) (call_additionalStylesheetPaths _ _ _ c) w).
  exact Hw.
Qed.

Lemma run_before_report_logged this migrationTypes target data paths w :
  logged (world (run_before_report MigrationState Context_ Data resolve
                   collect resolveExternalStylesheet this migrationTypes
                   target data paths w)) = logged w.
Proof.
  unfold run_before_report.
  rewrite (forEach_logged _ (fun r x => visitAdditionalStylesheet_step r x)).
  apply migrate_components_logged.
Qed.
End Migrate.


(** The sample project, evaluated: with the additional stylesheets given,
    the component file is visited once although the program lists it twice,
    its inline template and its stylesheet once, then the additional
    stylesheet; the failure is logged as a warning. *)
Example sample_migrate_returns :
  let '(w, completion) :=
    Sample.migrate (Some ["src/global.css"; "src/app.css"]) (World_new ∅ ∅) in
  completion = Return {| hasFailures := true |} /\
  trace w =
    [ VisitSourceFile "/src/app.ts";
      VisitTemplate "/src/app.ts" true;
      VisitStylesheet "/src/app.css" false;
      EditRecorded ("src/app.css", remove 0 3);
      EditRecorded ("src/app.css", insertRight 0 "new");
      VisitAdditionalStylesheet "/src/global.css";
      EditRecorded ("src/global.css", remove 0 3);
      EditRecorded ("src/global.css", insertRight 0 "new") ] /\
  logged w = [ (warn, "/src/app.ts@3:5 - cannot rename") ] /\
  tree w = ∅.
Proof. vm_compute. repeat split. Qed.


(** C1. Whatever the set of analyzed files at the start, after any sequence
    of [migrate] runs sharing the set (whether they return or throw), no
    resolved path has been visited more than once, visits of inline
    resources apart; a path that is in the set when a run starts is not
    visited by it, inline resources apart, and stays in the set; and every
    path visited, inline or not, is in the set. *)
Theorem each_path_visited_at_most_once
    (MigrationState Context_ Data : Type)
    (resolve : string -> string)
    (collect : Node -> list ResolvedResource * list ResolvedResource)
    (resolveExternalStylesheet : string -> ResolvedResource)
    (files : gmap string string) (analyzed : gset string)
    (calls : list (MigrateCall MigrationState Context_ Data)) :
  let run := run_call MigrationState Context_ Data resolve collect
               resolveExternalStylesheet in
  let w := fold_left run calls (World_new files analyzed) in
  (forall p, count_visits p (trace w) <= 1) /\
  (forall p, p ∈ analyzed -> count_visits p (trace w) = 0) /\
  (forall p, visited p (trace w) -> p ∈ analyzedFiles w) /\
  (forall w0 c p,
     p ∈ analyzedFiles w0 ->
     count_visits p (trace (run w0 c)) = count_visits p (trace w0) /\
     p ∈ analyzedFiles (run w0 c)).
Proof.
  intros run w.
  assert (Hstep : forall w0 c, migrate_step w0 (run w0 c)).
  { intros w0 c. apply migrate_world_step. }
  assert (Hinv : analyzed_invariant analyzed w).
  { apply run_calls_invariant.
    split; [reflexivity|]. split; [intros p; simpl; lia|].
    split; [reflexivity|]. intros p Hp. inversion Hp. }
  destruct Hinv as (_ & Hle & Hzero & Hin).
  split; [exact Hle|]. split; [exact Hzero|]. split; [exact Hin|].
  intros w0 c p Hp. destruct (Hstep w0 c) as (_ & _ & Hsub & Hskip).
  split; [apply Hskip, Hp | apply Hsub, Hp].
Qed.

(** A call that passes the additional stylesheets returns, having logged one
    warning per failure reported by the instantiated migrations, in order,
    after what was logged before; [hasFailures] is true exactly when there
    is such a failure. *)
Lemma migrate_reports_failures
    (MigrationState Context_ Data : Type)
    (resolve : string -> string)
    (collect : Node -> list ResolvedResource * list ResolvedResource)
    (resolveExternalStylesheet : string -> ResolvedResource)
    this migrationTypes target data paths w :
  let r := run_before_report MigrationState Context_ Data resolve collect
             resolveExternalStylesheet this migrationTypes target data paths w in
  exists w' result,
    migrate MigrationState Context_ Data resolve collect
      resolveExternalStylesheet this migrationTypes target data (Some paths) w =
      (w', Return result) /\
    logged w' =
      logged w ++
      map (fun f => (warn, failure_warning resolve f))
        (reported_failures MigrationState Context_ Data r) /\
    (hasFailures result = true <->
     reported_failures MigrationState Context_ Data r <> []).
Proof.
  intros r.
  assert (Hmigrate :
    migrate MigrationState Context_ Data resolve collect
      resolveExternalStylesheet this migrationTypes target data (Some paths) w =
    let '(w1, result) :=
      migrate_report MigrationState Context_ Data resolve r in
    (w1, Return result)) by reflexivity.
  rewrite Hmigrate. clear Hmigrate.
  pose proof (migrate_report_spec MigrationState Context_ Data resolve r) as H.
  destruct (migrate_report _ _ _ _ r) as [w' result].
  destruct H as (Hl & _ & _ & _ & _ & Hres).
  exists w', result. split; [reflexivity|]. split.
  - rewrite Hl. f_equal.
    destruct (forEach_migration_edits_only MigrationState Context_ Data
                (postAnalysis _ _ _) r) as (_ & _ & -> & _).
    apply run_before_report_logged.
  - rewrite Hres. destruct (reported_failures _ _ _ r); simpl.
    + split; [discriminate | intros H; contradiction H; reflexivity].
    + split; [discriminate | reflexivity].
Qed.


(** C6. Failures are to be logged as warnings, one per failure, by a
    [migrate] that always runs to completion and returns [hasFailures].  On
    the sample project, called without the optional additional stylesheets,
    the migration has reported a failure, yet the call throws, nothing is
    logged and there is no result to carry [hasFailures]; called with them,
    even with an empty list, the failure is logged and [hasFailures] is
    true. *)
Theorem migrate_drops_failures_without_additional_stylesheets :
  let w0 := World_new ∅ ∅ in
  reported_failures _ _ _
    (migrate_components _ _ _ Sample.resolve Sample.collect Sample.project
       [Sample.renaming] V9 tt w0) <> [] /\
  snd (Sample.migrate None w0) = ThrowTypeError /\
  logged (fst (Sample.migrate None w0)) = [] /\
  snd (Sample.migrate (Some []) w0) = Return {| hasFailures := true |} /\
  logged (fst (Sample.migrate (Some []) w0)) =
    [ (warn, "/src/app.ts@3:5 - cannot rename") ].
Proof.
  split; [vm_compute; discriminate|]. vm_compute. repeat split.
Qed.

End UpdateToolProofs.

(** ** The devkit schematic rule *)
Module DevkitProofs.
Import UpgradeData UpdateTool UpdateToolProofs Devkit.

Lemma committed_runs_count n t : committed_runs n t -> count_commits t = n.
Proof.
  induction 1 as [|n t events _ IH Hevents]; [reflexivity|].
  rewrite !count_commits_app, IH, (count_commits_migrate_events _ Hevents).
  simpl. lia.
Qed.

Section Rule.
Variables MigrationState Data : Type.
Variable resolve : string -> string.
Variable collect : Node -> list ResolvedResource * list ResolvedResource.
Variable resolveExternalStylesheet : string -> ResolvedResource.
Variable getWorkspaceConfigGracefully : gmap string string -> option Workspace.
Variable getTargetTsconfigPath : WorkspaceProject -> TargetName -> option string.
Variable cwd : string.
Variable join : string -> string -> string.
Variable createProgramFromTsconfig : string -> gmap string string -> Program.
Variable globSync : string -> list string.
Variable applyEdits : list Edit -> gmap string string -> gmap string string.
Variable cdkMigrations : list (MigrationCtor MigrationState DevkitContext Data).

Local Abbreviation migrate_call :=
  (migrate_call MigrationState Data resolve collect resolveExternalStylesheet
     cwd join createProgramFromTsconfig globSync).
Local Abbreviation runMigrations :=
  (runMigrations MigrationState Data resolve collect
     resolveExternalStylesheet cwd join createProgramFromTsconfig globSync
     applyEdits).
Local Abbreviation forProject :=
  (forProject MigrationState Data resolve collect resolveExternalStylesheet
     getTargetTsconfigPath cwd join createProgramFromTsconfig globSync
     applyEdits).

(** One tsconfig run: [migrate] returns, having recorded edits without
    touching the files, and the commit follows. *)
Lemma runMigrations_spec migrations targetVersion upgradeData project
    projectName tsconfigPath isTestTarget st :
  exists w1 result events,
    migrate_call migrations targetVersion upgradeData project projectName
      tsconfigPath isTestTarget (rule_world st) = (w1, Return result) /\
    tree w1 = tree (rule_world st) /\
    trace w1 = trace (rule_world st) ++ events /\
    Forall is_migrate_event events /\
    pendingEdits w1 = pendingEdits (rule_world st) ++ edits_of events /\
    runMigrations migrations targetVersion upgradeData project projectName
      tsconfigPath isTestTarget st =
      ({| rule_world :=
            {| analyzedFiles := analyzedFiles w1;
               tree := applyEdits (pendingEdits w1) (tree (rule_world st));
               pendingEdits := [];
               logged := logged w1;
               trace := trace (rule_world st) ++ events ++
                        [MigrateReturned; CommitEdits] |};
          rule_hasFailures := rule_hasFailures st || hasFailures result;
          rule_tasks := rule_tasks st |},
       Return tt).
Proof.
  unfold Devkit.runMigrations, Devkit.migrate_call.
  match goal with
  | |- context [UpdateTool.migrate _ _ _ _ _ _ ?this ?ms ?t ?d (Some ?paths) ?w] =>
      destruct (migrate_returns MigrationState DevkitContext Data resolve
                  collect resolveExternalStylesheet this ms t d paths w)
        as (w1 & result & Hmigrate & _ & (Htree & events & Htrace & Hev & Hpend) & _)
  end.
  exists w1, result, events. rewrite Hmigrate.
  split; [reflexivity|]. split; [exact Htree|]. split; [exact Htrace|].
  split; [exact Hev|]. split; [exact Hpend|].
  unfold commitEdits, emit. simpl. rewrite Htree, Htrace, <- !app_assoc.
  reflexivity.
Qed.

Lemma runMigrations_committed_runs migrations targetVersion upgradeData
    project projectName tsconfigPath isTestTarget st n :
  committed_runs n (trace (rule_world st)) ->
  exists st',
    runMigrations migrations targetVersion upgradeData project projectName
      tsconfigPath isTestTarget st = (st', Return tt) /\
    committed_runs (S n) (trace (rule_world st')).
Proof.
  intros Hn.
  destruct (runMigrations_spec migrations targetVersion upgradeData project
              projectName tsconfigPath isTestTarget st)
    as (w1 & result & events & _ & _ & _ & Hev & _ & Hrun).
  eexists. split; [exact Hrun|]. simpl.
  apply committed_runs_snoc; assumption.
Qed.

Lemma forProject_committed_runs migrations targetVersion upgradeData st n
    entry :
  committed_runs n (trace (rule_world st)) ->
  exists st',
    forProject migrations targetVersion upgradeData (st, Return tt) entry =
      (st', Return tt) /\
    committed_runs
      (n + tsconfigRuns getTargetTsconfigPath (snd entry))
      (trace (rule_world st')).
Proof.
  intros Hn. destruct entry as [projectName project].
  unfold Devkit.forProject, tsconfigRuns. simpl.
  destruct (falsy (getTargetTsconfigPath project build) &&
            falsy (getTargetTsconfigPath project test)).
  { eexists. split; [reflexivity|]. simpl. rewrite Nat.add_0_r. exact Hn. }
  destruct (getTargetTsconfigPath project build) as [buildPath|];
    destruct (getTargetTsconfigPath project test) as [testPath|].
  - destruct (runMigrations_committed_runs migrations targetVersion
                upgradeData project projectName buildPath false st n Hn)
      as (st1 & -> & H1).
    destruct (runMigrations_committed_runs migrations targetVersion
                upgradeData project projectName testPath true st1 (S n) H1)
      as (st2 & -> & H2).
    exists st2. split; [reflexivity|].
    replace (n + (1 + 1)) with (S (S n)) by lia. exact H2.
  - destruct (runMigrations_committed_runs migrations targetVersion
                upgradeData project projectName buildPath false st n Hn)
      as (st1 & -> & H1).
    exists st1. split; [reflexivity|].
    replace (n + (1 + 0)) with (S n) by lia. exact H1.
  - destruct (runMigrations_committed_runs migrations targetVersion
                upgradeData project projectName testPath true st n Hn)
      as (st1 & -> & H1).
    exists st1. split; [reflexivity|].
    replace (n + (0 + 1)) with (S n) by lia. exact H1.
  - exists st. split; [reflexivity|].
    replace (n + (0 + 0)) with n by lia. exact Hn.
Qed.

Lemma projects_committed_runs migrations targetVersion upgradeData entries :
  forall st n,
    committed_runs n (trace (rule_world st)) ->
    exists st',
      fold_left (forProject migrations targetVersion upgradeData) entries
        (st, Return tt) = (st', Return tt) /\
      committed_runs
        (n + fold_right
               (fun entry n => tsconfigRuns getTargetTsconfigPath (snd entry) + n)
               0 entries)
        (trace (rule_world st')).
Proof.
  induction entries as [|entry entries IH]; intros st n Hn;
    cbn [fold_left fold_right].
  - exists st. split; [reflexivity|]. rewrite Nat.add_0_r. exact Hn.
  - destruct (forProject_committed_runs migrations targetVersion upgradeData
                st n entry Hn) as (st1 & -> & H1).
    destruct (IH st1 _ H1) as (st2 & -> & H2).
    exists st2. split; [reflexivity|]. rewrite Nat.add_assoc. exact H2.
Qed.

Lemma log_entries_trace entries : forall w,
  trace (fold_left
           (fun w '(level, message) => logger_log level message w) entries w) =
  trace w.
Proof.
  induction entries as [|[level message] entries IH]; intros w; simpl;
    [reflexivity|]. rewrite IH. reflexivity.
Qed.
End Rule.

(** C2. In every tsconfig run of the schematic rule, [migrate] returns
    having only recorded edits (the files are as before), and
    [fileSystem.commitEdits()] follows, applying all the recorded edits at
    once; the trace of the whole rule is a sequence of such runs, each one
    the visits and recorded edits of a [migrate] call, its return, and one
    commit, so there are exactly as many commits as tsconfig runs. *)
Theorem edits_committed_once_after_migrate
    (MigrationState Data : Type)
    (resolve : string -> string)
    (collect : Node -> list ResolvedResource * list ResolvedResource)
    (resolveExternalStylesheet : string -> ResolvedResource)
    (getWorkspaceConfigGracefully : gmap string string -> option Workspace)
    (getTargetTsconfigPath : WorkspaceProject -> TargetName -> option string)
    (cwd : string) (join : string -> string -> string)
    (createProgramFromTsconfig : string -> gmap string string -> Program)
    (globSync : string -> list string)
    (applyEdits : list Edit -> gmap string string -> gmap string string)
    (cdkMigrations : list (MigrationCtor MigrationState DevkitContext Data))
    (targetVersion : TargetVersion)
    (extraMigrations : list (MigrationCtor MigrationState DevkitContext Data))
    (upgradeData : Data)
    (onMigrationCompleteFn :
       option (TargetVersion -> bool -> list (LogLevel * string))) :
  (forall migrations project projectName tsconfigPath isTestTarget st,
     exists w1 result events,
       migrate_call MigrationState Data resolve collect
         resolveExternalStylesheet cwd join createProgramFromTsconfig globSync
         migrations targetVersion upgradeData project projectName tsconfigPath
         isTestTarget (rule_world st) = (w1, Return result) /\
       tree w1 = tree (rule_world st) /\
       trace w1 = trace (rule_world st) ++ events /\
       Forall is_migrate_event events /\
       pendingEdits w1 = pendingEdits (rule_world st) ++ edits_of events /\
       runMigrations MigrationState Data resolve collect
         resolveExternalStylesheet cwd join createProgramFromTsconfig globSync
         applyEdits migrations targetVersion upgradeData project projectName
         tsconfigPath isTestTarget st =
         ({| rule_world :=
               {| analyzedFiles := analyzedFiles w1;
                  tree := applyEdits (pendingEdits w1) (tree (rule_world st));
                  pendingEdits := [];
                  logged := logged w1;
                  trace := trace (rule_world st) ++ events ++
                           [MigrateReturned; CommitEdits] |};
             rule_hasFailures := rule_hasFailures st || hasFailures result;
             rule_tasks := rule_tasks st |},
          Return tt)) /\
  (forall files,
     let runs := workspaceRuns getWorkspaceConfigGracefully
                   getTargetTsconfigPath files in
     exists st,
       createMigrationSchematicRule MigrationState Data resolve collect
         resolveExternalStylesheet getWorkspaceConfigGracefully
         getTargetTsconfigPath cwd join createProgramFromTsconfig globSync
         applyEdits cdkMigrations targetVersion extraMigrations upgradeData
         onMigrationCompleteFn files = (st, Return tt) /\
       committed_runs runs (trace (rule_world st)) /\
       count_commits (trace (rule_world st)) = runs).
Proof.
  split.
  - intros. apply runMigrations_spec.
  - intros files runs. subst runs.
    unfold createMigrationSchematicRule, workspaceRuns.
    destruct (getWorkspaceConfigGracefully files) as [workspace|].
    + set (st0 := {| rule_world := World_new files ∅;
                     rule_hasFailures := false; rule_tasks := [] |}).
      destruct (projects_committed_runs MigrationState Data resolve collect
                  resolveExternalStylesheet getTargetTsconfigPath cwd join
                  createProgramFromTsconfig globSync applyEdits
                  (cdkMigrations ++ extraMigrations) targetVersion upgradeData
                  (projects workspace) st0 0 committed_runs_nil)
        as (st1 & -> & H1).
      simpl in H1.
      destruct (globalPostMigrations _ _ _ _) as [files1 runPackageManager].
      eexists. split; [reflexivity|].
      assert (Htrace :
        trace (match onMigrationCompleteFn with
               | Some f =>
                   fold_left
                     (fun w '(level, message) => logger_log level message w)
                     (f targetVersion (rule_hasFailures st1))
                     (with_tree files1 (rule_world st1))
               | None => with_tree files1 (rule_world st1)
               end) = trace (rule_world st1)).
      { destruct onMigrationCompleteFn as [f|]; [|reflexivity].
        rewrite log_entries_trace. reflexivity. }
      simpl. rewrite Htrace.
      split; [exact H1 | apply committed_runs_count, H1].
    + eexists. split; [reflexivity|]. simpl.
      split; [constructor | reflexivity].
Qed.

End DevkitProofs.

(** * Proofs for the further parts *)

(** ** The registry of the overlay mouse click dispatcher *)
Module OverlayRegistryProofs.
Import Overlay OverlayRegistry.

Lemma same_overlay_true a b : same_overlay a b = true <-> overlayId a = overlayId b.
Proof. unfold same_overlay. apply Nat.eqb_eq. Qed.

(** [indexOf] is [-1] exactly when the overlay is absent, and otherwise the
    position of its first occurrence. *)
Lemma indexOf_spec o l :
  (indexOf o l = (-1)%Z /\ (overlayId o ∉ map overlayId l)) \/
  (exists before x after,
     l = before ++ x :: after /\
     overlayId x = overlayId o /\
     (overlayId o ∉ map overlayId before) /\
     indexOf o l = Z.of_nat (length before)).
Proof.
  induction l as [|x l IH]; simpl.
  - left. split; [reflexivity|]. apply not_elem_of_nil.
  - destruct (same_overlay x o) eqn:Hx.
    + right. exists [], x, l. apply same_overlay_true in Hx.
      repeat split; auto. apply not_elem_of_nil.
    + assert (Hne : overlayId x <> overlayId o).
      { intros H. apply same_overlay_true in H. congruence. }
      destruct IH as [[-> Habsent]|(before & y & after & -> & Hy & Hb & ->)].
      * left. simpl. split; [reflexivity|].
        rewrite not_elem_of_cons. auto.
      * right. exists (x :: before), y, after.
        destruct (Z.of_nat (length before) <? 0)%Z eqn:Hneg;
          [apply Z.ltb_lt in Hneg; lia|].
        simpl. repeat split; auto.
        -- rewrite not_elem_of_cons. auto.
        -- lia.
Qed.


Lemma filter_absent o l :
  overlayId o ∉ map overlayId l ->
  List.filter (fun x => negb (same_overlay x o)) l = l.
Proof.
  induction l as [|x l IH]; simpl; intros H; [reflexivity|].
  rewrite not_elem_of_cons in H. destruct H as [Hx Hl].
  destruct (same_overlay x o) eqn:E.
  - apply same_overlay_true in E. congruence.
  - simpl. rewrite IH; auto.
Qed.

(** The overlays left by the first part of [remove]: under the invariant
    that no overlay is listed twice, all those that are not the removed
    one, in their order. *)
Lemma splice_indexOf o l :
  NoDup (map overlayId l) ->
  (if (indexOf o l >? -1)%Z then splice1 (indexOf o l) l else l) =
  List.filter (fun x => negb (same_overlay x o)) l.
Proof.
  intros Hnodup.
  destruct (indexOf_spec o l)
    as [[-> Habsent]|(before & x & after & -> & Hx & Hb & ->)].
  - simpl. symmetry. apply filter_absent, Habsent.
  - destruct (Z.of_nat (length before) >? -1)%Z eqn:Hpos;
      [|rewrite Z.gtb_ltb in Hpos; apply Z.ltb_ge in Hpos; lia].
    unfold splice1. rewrite Nat2Z.id.
    rewrite map_app in Hnodup. simpl in Hnodup.
    apply NoDup_app in Hnodup. destruct Hnodup as (_ & _ & Hafter).
    apply NoDup_cons in Hafter. destruct Hafter as [Hxafter _].
    rewrite List.filter_app. simpl.
    assert (Hsame : same_overlay x o = true) by (apply same_overlay_true, Hx).
    rewrite Hsame. simpl.
    rewrite (filter_absent o before Hb).
    rewrite (filter_absent o after) by (rewrite <- Hx; exact Hxafter).
    clear. induction before as [|b before IH]; simpl; [reflexivity|].
    f_equal. exact IH.
Qed.

Lemma filter_ids_NoDup o l :
  NoDup (map overlayId l) ->
  NoDup (map overlayId (List.filter (fun x => negb (same_overlay x o)) l)) /\
  overlayId o ∉ map overlayId (List.filter (fun x => negb (same_overlay x o)) l).
Proof.
  induction l as [|x l IH]; simpl; intros H.
  - split; [constructor | apply not_elem_of_nil].
  - apply NoDup_cons in H. destruct H as [Hx Hl].
    destruct (IH Hl) as [IH1 IH2].
    destruct (same_overlay x o) eqn:E; simpl; [auto|].
    split.
    + apply NoDup_cons. split; [|exact IH1].
      intros Hin. apply Hx.
      apply list_elem_of_fmap in Hin. destruct Hin as (y & Hy & Hyin).
      apply list_elem_of_fmap. exists y. split; [exact Hy|].
      apply list_elem_of_In in Hyin. apply List.filter_In in Hyin.
      apply list_elem_of_In. tauto.
    + rewrite not_elem_of_cons. split; [|exact IH2].
      intros Heq. assert (same_overlay x o = true)
        by (apply same_overlay_true; congruence). congruence.
Qed.

Lemma registrations_S k :
  registrations k ++ [addEventListener] ++ [removeEventListener] =
  registrations (S k).
Proof. reflexivity. Qed.

(** [remove] under the invariant that no overlay is listed twice. *)
Lemma remove_eq o r :
  NoDup (attached_ids r) ->
  remove o r =
  let r1 := with_overlays
              (List.filter (fun x => negb (same_overlay x o))
                 (_attachedOverlays (dispatcher r))) r in
  if Nat.eqb (length (_attachedOverlays (dispatcher r1))) 0
  then _detach r1 else r1.
Proof.
  destruct r as [[l attached calls] body]. unfold attached_ids. simpl.
  intros Hnodup. unfold remove. simpl.
  pose proof (splice_indexOf o l Hnodup) as Hsplice.
  destruct (indexOf o l >? -1)%Z; simpl; rewrite <- Hsplice; reflexivity.
Qed.

Lemma remove_invariant o r :
  registry_invariant r ->
  registry_invariant (remove o r) /\
  _attachedOverlays (dispatcher (remove o r)) =
    List.filter (fun x => negb (same_overlay x o))
      (_attachedOverlays (dispatcher r)).
Proof.
  intros (Hnodup & Hflag & k & Hcalls).
  rewrite (remove_eq o r Hnodup).
  pose proof (filter_ids_NoDup o _ Hnodup) as [Hnd _].
  destruct r as [[l attached calls] body]. unfold attached_ids in *.
  simpl in *.
  set (l' := List.filter (fun x => negb (same_overlay x o)) l) in *.
  unfold registry_invariant, attached_ids, _detach. simpl.
  destruct (Nat.eqb (length l') 0) eqn:Hempty; simpl.
  - destruct attached; simpl; rewrite ?Hempty.
    + split; [|reflexivity]. split; [exact Hnd|]. split; [reflexivity|].
      exists (S k). rewrite Hcalls, <- app_assoc, app_nil_r.
      apply registrations_S.
    + split; [|reflexivity]. split; [exact Hnd|]. split; [reflexivity|].
      exists k. exact Hcalls.
  - rewrite Hempty. split; [|reflexivity]. split; [exact Hnd|].
    assert (Hatt : attached = true).
    { rewrite Hflag. destruct l as [|x l0]; [discriminate Hempty|].
      reflexivity. }
    clear Hflag. subst attached. split; [reflexivity|]. exists k. exact Hcalls.
Qed.

Lemma add_invariant o r :
  registry_invariant r ->
  registry_invariant (add o r) /\
  _attachedOverlays (dispatcher (add o r)) =
    List.filter (fun x => negb (same_overlay x o))
      (_attachedOverlays (dispatcher r)) ++ [o].
Proof.
  intros Hr. pose proof Hr as (Hnodup & _).
  destruct (remove_invariant o r Hr) as [(Hnd1 & Hflag1 & k & Hcalls1) Hlist1].
  pose proof (filter_ids_NoDup o _ Hnodup) as [_ Habsent].
  unfold add. rewrite <- Hlist1 in *.
  destruct (remove o r) as [[l1 attached1 calls1] body1].
  unfold registry_invariant, attached_ids in *. simpl in *.
  assert (Hnd : NoDup (map overlayId (l1 ++ [o]))).
  { rewrite map_app. simpl. apply NoDup_app. split; [exact Hnd1|].
    split; [|apply NoDup_singleton].
    intros x Hx Hxo. apply list_elem_of_singleton in Hxo. subst x.
    exact (Habsent Hx). }
  assert (Hlen : Nat.eqb (length (l1 ++ [o])) 0 = false).
  { rewrite length_app. simpl. apply Nat.eqb_neq. lia. }
  destruct attached1; simpl; rewrite Hlen.
  - split; [|reflexivity]. split; [exact Hnd|]. split; [reflexivity|].
    exists k. exact Hcalls1.
  - split; [|reflexivity]. split; [exact Hnd|]. split; [reflexivity|].
    exists k. rewrite Hcalls1, app_nil_r. reflexivity.
Qed.

Lemma new_invariant : registry_invariant new.
Proof.
  split; [constructor|]. split; [reflexivity|]. exists 0. reflexivity.
Qed.

Lemma run_invariant actions : forall r,
  registry_invariant r -> registry_invariant (fold_left step actions r).
Proof.
  induction actions as [|a actions IH]; intros r Hr; simpl; [exact Hr|].
  apply IH. destruct a; simpl.
  - apply add_invariant, Hr.
  - apply remove_invariant, Hr.
Qed.

(** X1. From a new dispatcher and after any sequence of [add] and [remove],
    no overlay is attached twice; [remove] then leaves exactly the other
    overlays, in their order, and the removed overlay is no longer
    attached; [add] leaves the other overlays in their order, followed by
    the added one, once. *)
Theorem dispatcher_tracks_each_overlay_once (actions : list Action)
    (overlayRef : OverlayRef) :
  let r := fold_left step actions new in
  let others := List.filter (fun x => negb (same_overlay x overlayRef))
                  (_attachedOverlays (dispatcher r)) in
  NoDup (attached_ids r) /\
  _attachedOverlays (dispatcher (remove overlayRef r)) = others /\
  (overlayId overlayRef ∉ attached_ids (remove overlayRef r)) /\
  _attachedOverlays (dispatcher (add overlayRef r)) = others ++ [overlayRef] /\
  NoDup (attached_ids (add overlayRef r)).
Proof.
  intros r others.
  assert (Hr : registry_invariant r) by apply run_invariant, new_invariant.
  destruct (remove_invariant overlayRef r Hr) as [_ Hremove].
  destruct (add_invariant overlayRef r Hr) as [(Hnd & _) Hadd].
  destruct Hr as (Hnodup & _).
  split; [exact Hnodup|]. split; [exact Hremove|].
  split; [|split; [exact Hadd | exact Hnd]].
  unfold attached_ids. rewrite Hremove.
  apply (filter_ids_NoDup overlayRef _ Hnodup).
Qed.

(** X2. From a new dispatcher and after any sequence of [add] and [remove],
    the click listener is registered on the body exactly while an overlay
    is attached: [_isAttached] holds if and only if the list is not empty,
    and the body has received balanced [addEventListener] and
    [removeEventListener] calls, followed by one registration when an
    overlay is attached. *)
Theorem listener_registered_while_attached (actions : list Action) :
  let r := fold_left step actions new in
  _isAttached (dispatcher r) =
    match _attachedOverlays (dispatcher r) with [] => false | _ => true end /\
  exists k,
    bodyCalls r =
    registrations k ++
    match _attachedOverlays (dispatcher r) with
    | [] => []
    | _ => [addEventListener]
    end.
Proof.
  intros r.
  assert (Hr : registry_invariant r) by apply run_invariant, new_invariant.
  destruct Hr as (_ & Hflag & k & Hcalls).
  rewrite Hflag in Hcalls. rewrite Hflag.
  destruct (_attachedOverlays (dispatcher r)); simpl in *;
    (split; [reflexivity | exists k; exact Hcalls]).
Qed.

(** X18. Destroying the dispatcher leaves no listener behind: after any
    sequence of [add] and [remove] from a new dispatcher, [ngOnDestroy]
    leaves the body with balanced [addEventListener] and
    [removeEventListener] calls and the flag unset, and keeps the list of
    attached overlays; it does nothing when no overlay is attached, and
    nothing when called again. *)
Theorem destroy_removes_the_listener (actions : list Action) :
  let r := fold_left step actions new in
  _isAttached (dispatcher (ngOnDestroy r)) = false /\
  _attachedOverlays (dispatcher (ngOnDestroy r)) =
    _attachedOverlays (dispatcher r) /\
  (exists k, bodyCalls (ngOnDestroy r) = registrations k) /\
  (_attachedOverlays (dispatcher r) = [] -> ngOnDestroy r = r) /\
  ngOnDestroy (ngOnDestroy r) = ngOnDestroy r.
Proof.
  intros r.
  destruct (run_invariant actions new new_invariant)
    as (_ & Hflag & k & Hcalls).
  fold r in Hflag, Hcalls.
  unfold ngOnDestroy, _detach.
  destruct (_isAttached (dispatcher r)) eqn:Hattached; simpl.
  - split; [reflexivity|]. split; [reflexivity|]. split; [|split].
    + exists (S k). rewrite Hcalls, <- app_assoc. reflexivity.
    + intros Hnone. rewrite Hnone in Hflag. discriminate Hflag.
    + reflexivity.
  - rewrite Hattached. split; [reflexivity|]. split; [reflexivity|].
    split; [|split; reflexivity].
    exists k. rewrite Hcalls, app_nil_r. reflexivity.
Qed.

End OverlayRegistryProofs.

(** ** The progress bars: events and the MDC foundation *)
Module ProgressBarSyncProofs.
Import Js JsFacts ProgressBar ProgressBarProofs ProgressBarSync.

Section Events.
Variable StringToNumber : string -> number.
Variable coerceNumberProperty : val -> number.

Local Abbreviation set_value :=
  (Material.set_value StringToNumber coerceNumberProperty).
Local Abbreviation assign :=
  (Material.assign StringToNumber coerceNumberProperty).










End Events.


Section Foundation.
Variable StringToNumber : string -> number.

Local Abbreviation assign := (Mdc.assign StringToNumber).

(** What [_syncFoundation] does, by cases. *)
Lemma syncFoundation_spec c :
  Mdc._syncFoundation c =
  match Mdc._foundation c with
  | Some calls =>
      if Mdc._platform_isBrowser c
      then Mdc.with_foundation (Some (calls ++ sync_calls c)) c
      else c
  | None => c
  end.
Proof.
  unfold Mdc._syncFoundation, sync_calls.
  destruct (Mdc._foundation c) as [calls|]; [|reflexivity].
  destruct (Mdc._platform_isBrowser c); [|reflexivity].
  f_equal. f_equal.
  destruct (Mdc._dir c) as [[]|]; destruct (Mdc.mode c);
    simpl; rewrite <- ?app_assoc; reflexivity.
Qed.

(** An assignment is an update of a field followed by [_syncFoundation]. *)
Lemma assign_sync c a :
  exists c1,
    assign c a = Mdc._syncFoundation c1 /\
    Mdc._foundation c1 = Mdc._foundation c /\
    Mdc._platform_isBrowser c1 = Mdc._platform_isBrowser c /\
    Mdc._value c1 = Mdc._value (assign c a) /\
    Mdc._bufferValue c1 = Mdc._bufferValue (assign c a).
Proof.
  destruct a as [v|v|m];
    unfold Mdc.assign, Mdc.set_value, Mdc.set_bufferValue, Mdc.set_mode;
    eexists; (split; [reflexivity|]);
    rewrite mdc_sync_value, mdc_sync_bufferValue; simpl; auto.
Qed.

Lemma sync_fields c :
  Mdc._platform_isBrowser (Mdc._syncFoundation c) = Mdc._platform_isBrowser c /\
  sync_calls (Mdc._syncFoundation c) = sync_calls c.
Proof.
  rewrite syncFoundation_spec.
  destruct (Mdc._foundation c); [|auto].
  destruct (Mdc._platform_isBrowser c) eqn:Hb; auto.
Qed.

Lemma run_without_foundation l : forall c,
  Mdc._foundation c = None \/
  (Mdc._platform_isBrowser c = false /\ Mdc._foundation c = Some [Mdc.init]) ->
  Mdc._foundation (fold_left assign l c) = Mdc._foundation c.
Proof.
  induction l as [|a l IH]; intros c Hc; simpl; [reflexivity|].
  destruct (assign_sync c a) as (c1 & Heq & Hf & Hb & _).
  assert (Hsame : Mdc._foundation (assign c a) = Mdc._foundation c /\
                  Mdc._platform_isBrowser (assign c a) = Mdc._platform_isBrowser c).
  { rewrite Heq, syncFoundation_spec, Hf, Hb.
    destruct Hc as [Hnone|[Hserver Hinit]].
    - rewrite Hnone. split; congruence.
    - rewrite Hinit, Hserver. split; congruence. }
  destruct Hsame as [Hf' Hb'].
  rewrite IH; [exact Hf'|]. rewrite Hf', Hb'. exact Hc.
Qed.

Lemma run_fields l : forall c,
  Mdc._platform_isBrowser (fold_left assign l c) = Mdc._platform_isBrowser c.
Proof.
  induction l as [|a l IH]; intros c; simpl; [reflexivity|].
  rewrite IH. destruct (assign_sync c a) as (c1 & -> & _ & Hb & _).
  rewrite (proj1 (sync_fields c1)). exact Hb.
Qed.

Lemma run_in_sync l : forall c,
  Mdc._platform_isBrowser c = true ->
  (exists prefix, Mdc._foundation c = Some (prefix ++ sync_calls c)) ->
  exists prefix,
    Mdc._foundation (fold_left assign l c) =
    Some (prefix ++ sync_calls (fold_left assign l c)).
Proof.
  induction l as [|a l IH]; intros c Hb Hc; simpl; [exact Hc|].
  destruct Hc as (prefix & Hprefix).
  destruct (assign_sync c a) as (c1 & Heq & Hf & Hb1 & _).
  apply IH.
  - rewrite Heq, (proj1 (sync_fields c1)). congruence.
  - exists (prefix ++ sync_calls c).
    rewrite Heq, (proj2 (sync_fields c1)), syncFoundation_spec, Hf, Hprefix.
    rewrite Hb1, Hb. reflexivity.
Qed.

Lemma sync_calls_in_range c :
  in_range (Mdc._value c) = true -> in_range (Mdc._bufferValue c) = true ->
  Forall fraction_in_range (sync_calls c).
Proof.
  intros Hv Hb. unfold sync_calls.
  apply Forall_app. split.
  - repeat constructor. exact Hv.
  - destruct (Mdc.mode c); repeat constructor.
    apply mdc_getter_in_range, Hb.
Qed.

Lemma run_fractions l : forall c calls,
  Forall (numericAssignment StringToNumber) l ->
  in_range (Mdc._value c) = true -> in_range (Mdc._bufferValue c) = true ->
  Mdc._foundation c = Some calls -> Forall fraction_in_range calls ->
  exists calls',
    Mdc._foundation (fold_left assign l c) = Some calls' /\
    Forall fraction_in_range calls'.
Proof.
  induction l as [|a l IH]; intros c calls Hl Hv Hb Hf Hcalls; simpl;
    [eauto|].
  inversion Hl as [|? ? Ha Hl']; subst.
  destruct (mdc_assign_invariant StringToNumber c a Ha (conj Hv Hb))
    as [Hv' Hb'].
  destruct (assign_sync c a) as (c1 & Heq & Hf1 & Hb1 & Hv1 & Hbuf1).
  assert (Hnext : exists calls1,
            Mdc._foundation (assign c a) = Some calls1 /\
            Forall fraction_in_range calls1).
  { rewrite Heq, syncFoundation_spec, Hf1, Hf.
    destruct (Mdc._platform_isBrowser c1).
    - eexists. split; [reflexivity|]. apply Forall_app. split; [exact Hcalls|].
      apply sync_calls_in_range; congruence.
    - exists calls. split; [congruence | exact Hcalls]. }
  destruct Hnext as (calls1 & Hf' & Hcalls1).
  apply (IH _ calls1); assumption.
Qed.
End Foundation.

(** X4. The MDC progress bar does not touch its foundation before
    [ngAfterViewInit] has created it, and outside a browser it never does
    more than initialise it: whatever is assigned to [value], [bufferValue]
    and [mode], the foundation stays undefined before the view is
    initialised, and on the server it has received [init] and nothing
    else. *)
Theorem mdc_foundation_untouched
    (StringToNumber : string -> number)
    (isBrowser : bool) (dir : option Mdc.Direction)
    (animationMode : option string)
    (before after : list Assignment) :
  Mdc._foundation
    (fold_left (Mdc.assign StringToNumber) before
       (Mdc.new isBrowser dir animationMode)) = None /\
  Mdc._foundation
    (fold_left (Mdc.assign StringToNumber) after
       (Mdc.ngAfterViewInit
          (fold_left (Mdc.assign StringToNumber) before
             (Mdc.new false dir animationMode)))) = Some [Mdc.init].
Proof.
  split.
  - rewrite run_without_foundation; [reflexivity | left; reflexivity].
  - set (c := fold_left _ before _).
    assert (Hserver : Mdc._platform_isBrowser c = false)
      by (unfold c; rewrite run_fields; reflexivity).
    assert (Hinit :
      Mdc._platform_isBrowser (Mdc.ngAfterViewInit c) = false /\
      Mdc._foundation (Mdc.ngAfterViewInit c) = Some [Mdc.init]).
    { unfold Mdc.ngAfterViewInit. rewrite syncFoundation_spec. simpl.
      rewrite Hserver. simpl. auto. }
    rewrite run_without_foundation; [apply Hinit | right; exact Hinit].
Qed.

(** X5. In a browser, once the view is initialised, the foundation of the
    MDC progress bar is kept in sync with the component: after any sequence
    of assignments, the last calls it received are [setReverse] (true when
    exactly one of right-to-left direction and query mode holds),
    [setDeterminate] (true in the modes determinate and buffer),
    [setProgress(value / 100)] and, in buffer mode only,
    [setBuffer(bufferValue / 100)], for the current state. *)
Theorem mdc_foundation_in_sync
    (StringToNumber : string -> number)
    (dir : option Mdc.Direction) (animationMode : option string)
    (before after : list Assignment) :
  let c := fold_left (Mdc.assign StringToNumber) after
             (Mdc.ngAfterViewInit
                (fold_left (Mdc.assign StringToNumber) before
                   (Mdc.new true dir animationMode))) in
  exists earlier, Mdc._foundation c = Some (earlier ++ sync_calls c).
Proof.
  intros c. unfold c. set (c0 := fold_left _ before _).
  assert (Hbrowser : Mdc._platform_isBrowser c0 = true)
    by (unfold c0; rewrite run_fields; reflexivity).
  apply run_in_sync.
  - unfold Mdc.ngAfterViewInit. rewrite (proj1 (sync_fields _)). exact Hbrowser.
  - exists [Mdc.init]. unfold Mdc.ngAfterViewInit.
    rewrite (proj2 (sync_fields _)), syncFoundation_spec. simpl.
    rewrite Hbrowser. reflexivity.
Qed.

(** X6. For inputs that are numbers, numeric strings, [null] or
    [undefined], every fraction the MDC foundation ever receives through
    [setProgress] and [setBuffer] is the quotient by 100 of a number
    between 0 and 100. *)
Theorem mdc_foundation_fractions_in_range
    (StringToNumber : string -> number)
    (isBrowser : bool) (dir : option Mdc.Direction)
    (animationMode : option string)
    (before after : list Assignment)
    (Hbefore : Forall (numericAssignment StringToNumber) before)
    (Hafter : Forall (numericAssignment StringToNumber) after) :
  exists calls,
    Mdc._foundation
      (fold_left (Mdc.assign StringToNumber) after
         (Mdc.ngAfterViewInit
            (fold_left (Mdc.assign StringToNumber) before
               (Mdc.new isBrowser dir animationMode)))) = Some calls /\
    Forall fraction_in_range calls.
Proof.
  set (c0 := fold_left _ before _).
  assert (Hnone : Mdc._foundation c0 = None).
  { unfold c0. rewrite run_without_foundation; [reflexivity | left; reflexivity]. }
  assert (Hrange : in_range (Mdc._value c0) = true /\
                   in_range (Mdc._bufferValue c0) = true).
  { unfold c0. clear Hnone c0.
    assert (H0 : in_range (Mdc._value (Mdc.new isBrowser dir animationMode)) = true /\
                 in_range (Mdc._bufferValue (Mdc.new isBrowser dir animationMode)) = true)
      by (split; reflexivity).
    revert H0. generalize (Mdc.new isBrowser dir animationMode).
    induction before as [|a l IH]; intros c H0; simpl; [exact H0|].
    inversion Hbefore; subst. apply IH; [assumption|].
    apply mdc_assign_invariant; assumption. }
  destruct Hrange as [Hv Hb].
  assert (Hinit : exists calls,
            Mdc._foundation (Mdc.ngAfterViewInit c0) = Some calls /\
            Forall fraction_in_range calls /\
            Mdc._value (Mdc.ngAfterViewInit c0) = Mdc._value c0 /\
            Mdc._bufferValue (Mdc.ngAfterViewInit c0) = Mdc._bufferValue c0).
  { unfold Mdc.ngAfterViewInit.
    rewrite mdc_sync_value, mdc_sync_bufferValue, syncFoundation_spec. simpl.
    destruct (Mdc._platform_isBrowser c0); simpl.
    - eexists. split; [reflexivity|]. split; [|auto].
      constructor; [exact I|]. apply (sync_calls_in_range
        (Mdc.with_foundation (Some [Mdc.init]) c0)); assumption.
    - eexists. split; [reflexivity|]. split; [|auto].
      repeat constructor. }
  destruct Hinit as (calls & Hf & Hcalls & Hv' & Hb').
  apply (run_fractions StringToNumber after _ calls); try assumption;
    congruence.
Qed.

Lemma mdc_foundation_fractions_in_range_witness :
  exists calls,
    Mdc._foundation
      (fold_left (Mdc.assign sampleStringToNumber)
         [AssignValue (VString "250"); AssignMode buffer]
         (Mdc.ngAfterViewInit
            (fold_left (Mdc.assign sampleStringToNumber)
               [AssignBufferValue (VNumber (Finite (-3)))]
               (Mdc.new true (Some Mdc.rtl) None)))) = Some calls /\
    Forall fraction_in_range calls.
Proof.
  apply (mdc_foundation_fractions_in_range sampleStringToNumber true
           (Some Mdc.rtl) None
           [AssignBufferValue (VNumber (Finite (-3)))]
           [AssignValue (VString "250"); AssignMode buffer]);
    repeat constructor.
Defined.

End ProgressBarSyncProofs.

(** ** Harness loaders of the Testbed environment *)
Module TestbedLoadersProofs.
Import Testbed TestbedLoaders.

Section Loaders.
Variable querySelectorAll : Element -> string -> list Element.
Variable documentBody : Element.

Local Abbreviation step := (step querySelectorAll documentBody).
Local Abbreviation construct := (construct querySelectorAll).

(** [forceStabilize] and [getAllRawElements] change the counters of the
    fixture and the list of queries only. *)
Lemma forceStabilize_fields env w :
  destroyed (fixture (fst (forceStabilize env w))) = destroyed (fixture w) /\
  onDestroy (fixture (fst (forceStabilize env w))) = onDestroy (fixture w) /\
  environments (fst (forceStabilize env w)) = environments w.
Proof.
  unfold forceStabilize.
  destruct (env_destroyed env); [auto|].
  destruct (destroyed (fixture w)) eqn:Hd; simpl; auto.
Qed.

Lemma getAllRawElements_fields env selector w :
  destroyed (fixture (fst (getAllRawElements env selector w))) =
    destroyed (fixture w) /\
  onDestroy (fixture (fst (getAllRawElements env selector w))) =
    onDestroy (fixture w) /\
  environments (fst (getAllRawElements env selector w)) = environments w.
Proof.
  unfold getAllRawElements.
  pose proof (forceStabilize_fields env w) as H.
  destruct (forceStabilize env w) as [w1 [u|e]]; exact H.
Qed.

Lemma all_hooked_fields w w' :
  destroyed (fixture w') = destroyed (fixture w) /\
  onDestroy (fixture w') = onDestroy (fixture w) /\
  environments w' = environments w ->
  all_hooked w -> all_hooked w'.
Proof.
  intros (Hd & Hcb & Henvs). unfold all_hooked. rewrite Hd, Hcb, Henvs. auto.
Qed.

Lemma flagged_fields n w w' :
  destroyed (fixture w') = destroyed (fixture w) /\
  onDestroy (fixture w') = onDestroy (fixture w) /\
  environments w' = environments w ->
  flagged n w -> flagged n w'.
Proof.
  intros (Hd & _ & Henvs). unfold flagged. rewrite Hd, Henvs. auto.
Qed.

Lemma construct_all_hooked root options w :
  all_hooked w -> all_hooked (fst (construct root options w)).
Proof.
  intros (Hlive & Hhooked & Hflags). unfold all_hooked. simpl.
  split; [exact Hlive|]. split.
  - intros id Hid. rewrite length_app in Hid. simpl in Hid.
    apply elem_of_app.
    destruct (decide (id < length (environments w))) as [Hlt|Hge].
    + left. apply Hhooked, Hlt.
    + right. apply list_elem_of_singleton. lia.
  - apply Forall_app. split; [exact Hflags|]. repeat constructor.
Qed.

Lemma lookup_live w id env :
  all_hooked w -> environments w !! id = Some env -> env_destroyed env = false.
Proof.
  intros (_ & _ & Hflags) Hid. rewrite Forall_forall in Hflags.
  apply Hflags. apply list_elem_of_lookup. eauto.
Qed.

Lemma step_all_hooked w a :
  all_hooked w -> a <> DestroyFixture -> all_hooked (step w a).
Proof.
  intros Hw Ha. destruct a as [o|o|parent el|id|id sel|]; simpl.
  - apply construct_all_hooked, Hw.
  - apply construct_all_hooked, Hw.
  - unfold on_environment.
    destruct (environments w !! parent) as [env|]; [|exact Hw].
    exact (construct_all_hooked el (Some (_options env)) w Hw).
  - unfold on_environment.
    destruct (environments w !! id) as [env|] eqn:Hid; [|exact Hw].
    exact (all_hooked_fields _ _ (forceStabilize_fields env w) Hw).
  - unfold on_environment.
    destruct (environments w !! id) as [env|] eqn:Hid; [|exact Hw].
    exact (all_hooked_fields _ _ (getAllRawElements_fields env sel w) Hw).
  - contradiction Ha. reflexivity.
Qed.

(** A destroyed fixture stays destroyed. *)
Lemma step_destroyed w a :
  destroyed (fixture w) = true -> destroyed (fixture (step w a)) = true.
Proof.
  intros Hw. destruct a as [o|o|parent el|id|id sel|]; simpl; auto;
    unfold on_environment.
  - destruct (environments w !! parent); auto.
  - destruct (environments w !! id) as [env|]; auto.
    destruct (forceStabilize_fields env w) as (-> & _). exact Hw.
  - destruct (environments w !! id) as [env|]; auto.
    destruct (getAllRawElements_fields env sel w) as (-> & _). exact Hw.
  - unfold destroyFixture. rewrite Hw. exact Hw.
Qed.

Lemma run_destroyed actions : forall w,
  destroyed (fixture w) = true ->
  destroyed (fixture (fold_left step actions w)) = true.
Proof.
  induction actions as [|a actions IH]; intros w Hw; simpl; [exact Hw|].
  apply IH, step_destroyed, Hw.
Qed.

Lemma run_all_hooked actions : forall w,
  all_hooked w ->
  destroyed (fixture (fold_left step actions w)) = false ->
  all_hooked (fold_left step actions w).
Proof.
  induction actions as [|a actions IH]; intros w Hw Hlive; simpl in *;
    [exact Hw|].
  apply IH; [|exact Hlive].
  apply step_all_hooked; [exact Hw|].
  intros ->. simpl in Hlive.
  rewrite run_destroyed in Hlive; [discriminate|].
  unfold destroyFixture. destruct Hw as (-> & _). reflexivity.
Qed.

Lemma set_destroyed_length envs id :
  length (set_destroyed envs id) = length envs.
Proof. unfold set_destroyed. apply length_alter. Qed.

Lemma set_destroyed_keeps envs id j env :
  set_destroyed envs id !! j = Some env ->
  env_destroyed env = true \/ (id <> j /\ envs !! j = Some env).
Proof.
  unfold set_destroyed. intros H.
  destruct (decide (id = j)) as [->|Hne].
  - rewrite list_lookup_alter_eq in H.
    destruct (envs !! j); simplify_eq/=. left. reflexivity.
  - rewrite list_lookup_alter_ne in H by exact Hne. right. auto.
Qed.

Lemma set_destroyed_flagged envs id j env :
  set_destroyed envs id !! j = Some env ->
  (exists old, envs !! j = Some old /\
               (env_destroyed old = true -> env_destroyed env = true)).
Proof.
  unfold set_destroyed. intros H.
  destruct (decide (id = j)) as [->|Hne].
  - rewrite list_lookup_alter_eq in H.
    destruct (envs !! j) as [old|]; simplify_eq/=. exists old. auto.
  - rewrite list_lookup_alter_ne in H by exact Hne. eauto.
Qed.

Lemma callbacks_flag ids : forall envs j env,
  fold_left set_destroyed ids envs !! j = Some env ->
  exists old, envs !! j = Some old /\
    (env_destroyed old = true \/ j ∈ ids -> env_destroyed env = true).
Proof.
  induction ids as [|id ids IH]; intros envs j env H; simpl in *.
  - exists env. split; [exact H|]. intros [Hf|Hin]; [exact Hf|].
    apply elem_of_nil in Hin. destruct Hin.
  - destruct (IH _ _ _ H) as (mid & Hmid & Hflag).
    destruct (set_destroyed_flagged _ _ _ _ Hmid) as (old & Hold & Hkeep).
    exists old. split; [exact Hold|].
    intros [Hf|Hin]; [apply Hflag; left; apply Hkeep, Hf|].
    apply elem_of_cons in Hin. destruct Hin as [->|Hin].
    + apply Hflag. left.
      destruct (set_destroyed_keeps _ _ _ _ Hmid) as [Ht|[Hne _]];
        [exact Ht | contradiction Hne; reflexivity].
    + apply Hflag. right. exact Hin.
Qed.

Lemma callbacks_length ids : forall envs,
  length (fold_left set_destroyed ids envs) = length envs.
Proof.
  induction ids as [|id ids IH]; intros envs; simpl; [reflexivity|].
  rewrite IH. apply set_destroyed_length.
Qed.

Lemma destroy_flagged w :
  all_hooked w -> flagged (length (environments w)) (destroyFixture w).
Proof.
  intros (Hlive & Hhooked & _). unfold destroyFixture. rewrite Hlive.
  split; [reflexivity|]. simpl. split; [rewrite callbacks_length; lia|].
  intros id env Hid Hlookup.
  destruct (callbacks_flag _ _ _ _ Hlookup) as (old & _ & Hflag).
  apply Hflag. right. apply Hhooked, Hid.
Qed.

Lemma construct_flagged n root options w :
  flagged n w -> flagged n (fst (construct root options w)).
Proof.
  intros (Hd & Hn & Hflags). split; [exact Hd|]. simpl.
  split; [rewrite length_app; lia|].
  intros id env Hid Hlookup. apply (Hflags id); [exact Hid|].
  rewrite lookup_app_l in Hlookup by lia. exact Hlookup.
Qed.

Lemma step_flagged n w a : flagged n w -> flagged n (step w a).
Proof.
  intros Hw. destruct a as [o|o|parent el|id|id sel|]; simpl.
  - apply construct_flagged, Hw.
  - apply construct_flagged, Hw.
  - unfold on_environment.
    destruct (environments w !! parent) as [env|]; [|exact Hw].
    exact (construct_flagged n el (Some (_options env)) w Hw).
  - unfold on_environment. destruct (environments w !! id) as [env|]; [|exact Hw].
    exact (flagged_fields n _ _ (forceStabilize_fields env w) Hw).
  - unfold on_environment. destruct (environments w !! id) as [env|]; [|exact Hw].
    exact (flagged_fields n _ _ (getAllRawElements_fields env sel w) Hw).
  - unfold destroyFixture. destruct Hw as (Hd & Hrest). rewrite Hd.
    split; assumption.
Qed.

Lemma run_flagged n actions : forall w,
  flagged n w -> flagged n (fold_left step actions w).
Proof.
  induction actions as [|a actions IH]; intros w Hw; simpl; [exact Hw|].
  apply IH, step_flagged, Hw.
Qed.

Lemma fresh_all_hooked root : all_hooked (fresh root).
Proof.
  split; [reflexivity|]. split; [simpl; intros id Hid; lia | constructor].
Qed.

End Loaders.

(** X7. Every environment created while the fixture was alive, by [loader],
    by [documentRootLoader] or by [createEnvironment] from another one,
    rejects once the fixture is destroyed, whatever happens afterwards:
    [forceStabilize] and [getAllRawElements] reject with 'Harness is
    attempting to use a fixture that has already been destroyed.', without
    running change detection and without querying the DOM. *)
Theorem environments_reject_after_destruction
    (querySelectorAll : Element -> string -> list Element)
    (documentBody root : Element)
    (before after : list Action) (id : nat) (env : Environment)
    (selector : string)
    (Hlive :
       destroyed (fixture (fold_left (step querySelectorAll documentBody)
                             before (fresh root))) = false)
    (Hid : id < length (environments
                          (fold_left (step querySelectorAll documentBody)
                             before (fresh root))))
    (Henv :
       environments
         (fold_left (step querySelectorAll documentBody) after
            (destroyFixture
               (fold_left (step querySelectorAll documentBody) before
                  (fresh root)))) !! id = Some env) :
  let w := fold_left (step querySelectorAll documentBody) after
             (destroyFixture
                (fold_left (step querySelectorAll documentBody) before
                   (fresh root))) in
  forceStabilize env w = (w, Rejected (MkError destroyedMessage)) /\
  getAllRawElements env selector w = (w, Rejected (MkError destroyedMessage)).
Proof.
  intros w.
  assert (Hflagged : flagged
            (length (environments
                       (fold_left (step querySelectorAll documentBody) before
                          (fresh root)))) w).
  { apply run_flagged, destroy_flagged, run_all_hooked;
      [apply fresh_all_hooked | exact Hlive]. }
  destruct Hflagged as (_ & _ & Hflags).
  assert (Hd : env_destroyed env = true) by (apply (Hflags id); assumption).
  unfold getAllRawElements, forceStabilize. rewrite Hd. auto.
Qed.

Lemma environments_reject_after_destruction_witness :
  let w := fold_left (step (fun _ _ => []) 1) [Loader None]
             (destroyFixture
                (fold_left (step (fun _ _ => []) 1)
                   [Loader None; CreateEnvironment 0 5] (fresh 0))) in
  let env := {| rawRootElement := 5;
                env_destroyed := true;
                _options := defaultEnvironmentOptions (fun _ _ => []) |} in
  forceStabilize env w = (w, Rejected (MkError destroyedMessage)) /\
  getAllRawElements env "button" w = (w, Rejected (MkError destroyedMessage)).
Proof.
  apply (environments_reject_after_destruction (fun _ _ => []) 1 0
           [Loader None; CreateEnvironment 0 5] [Loader None] 1).
  - reflexivity.
  - simpl. lia.
  - reflexivity.
Defined.



End TestbedLoadersProofs.

(** ** The update tool: what a run covers *)
Module UpdateToolCoverageProofs.
Import UpgradeData UpdateTool UpdateToolProofs UpdateToolCoverage.

Lemma posix_length s : String.length (posix s) = String.length s.
Proof. induction s as [|c s IH]; simpl; congruence. Qed.

Lemma posix_no_backslash s : occurs backslash (posix s) = false.
Proof.
  induction s as [|c s IH]; simpl; [reflexivity|].
  rewrite IH, orb_false_r.
  destruct (Ascii.eqb c (Ascii.ascii_of_nat 92)) eqn:E; [reflexivity|exact E].
Qed.

Lemma posix_fixed s : occurs backslash s = false -> posix s = s.
Proof.
  induction s as [|c s IH]; simpl; [reflexivity|].
  intros H. apply orb_false_iff in H. destruct H as [Hc Hs].
  unfold backslash in Hc. rewrite Hc, IH by exact Hs. reflexivity.
Qed.

(** X9. The path printed in a warning is the resolved path of the failure
    with every backslash replaced by a slash: it has the same length,
    contains no backslash, and a path without backslash is printed as it
    is.  The position, when there is one, is printed one-based. *)
Theorem warning_paths_are_posix (resolve : string -> string)
    (f : MigrationFailure) :
  let path := posix (resolve (failure_filePath f)) in
  String.length path = String.length (resolve (failure_filePath f)) /\
  occurs backslash path = false /\
  (occurs backslash (resolve (failure_filePath f)) = false ->
   path = resolve (failure_filePath f)) /\
  failure_warning resolve f =
    path +:+
    match failure_position f with
    | Some position =>
        "@" +:+ pretty (S (line position)) +:+ ":" +:+
        pretty (S (character position))
    | None => EmptyString
    end +:+ " - " +:+ failure_message f.
Proof.
  intros path. split; [apply posix_length|].
  split; [apply posix_no_backslash|]. split; [apply posix_fixed|].
  unfold failure_warning. fold path.
  destruct (failure_position f) as [position|]; [|reflexivity].
  rewrite !Nat.add_1_r. reflexivity.
Qed.


Section Coverage.
Variables MigrationState Context_ Data : Type.
Variable resolve : string -> string.
Variable collect : Node -> list ResolvedResource * list ResolvedResource.
Variable resolveExternalStylesheet : string -> ResolvedResource.

Local Abbreviation Run := (Run MigrationState Context_ Data).
Local Abbreviation world := (world MigrationState Context_ Data).
Local Abbreviation forEach_migration :=
  (forEach_migration MigrationState Context_ Data).
Local Abbreviation visitSourceFile :=
  (visitSourceFile MigrationState Context_ Data resolve collect).
Local Abbreviation visitResolvedTemplate :=
  (visitResolvedTemplate MigrationState Context_ Data resolve).
Local Abbreviation visitResolvedStylesheet :=
  (visitResolvedStylesheet MigrationState Context_ Data resolve).
Local Abbreviation visitAdditionalStylesheet :=
  (visitAdditionalStylesheet MigrationState Context_ Data resolve
     resolveExternalStylesheet).
Local Abbreviation migrate_components :=
  (migrate_components MigrationState Context_ Data resolve collect).
Local Abbreviation migrate :=
  (migrate MigrationState Context_ Data resolve collect
     resolveExternalStylesheet).
Local Abbreviation step_of := (migrate_step_visit_step).

Lemma migrate_step_subseteq w w' :
  migrate_step w w' -> analyzedFiles w ⊆ analyzedFiles w'.
Proof. intros (_ & _ & Hsub & _). exact Hsub. Qed.

(** A loop leaves the key of each of its items among the analyzed files,
    when each iteration does so for its own item. *)
Lemma forEach_analyzed {X : Type} (body : Run -> X -> Run) (key : X -> string) :
  (forall r x, visit_step (world r) (world (body r x))) ->
  (forall r x, key x ∈ analyzedFiles (world (body r x))) ->
  forall xs r x, In x xs -> key x ∈ analyzedFiles (world (fold_left body xs r)).
Proof.
  intros Hstep Hkey xs.
  induction xs as [|x0 xs IH]; intros r x Hin; simpl in *; [destruct Hin|].
  destruct Hin as [->|Hin]; [|apply IH, Hin].
  assert (Hrest : migrate_step (world (body r x))
                    (world (fold_left body xs (body r x)))).
  { apply forEach_step. intros r' x'. apply step_of, Hstep. }
  apply (migrate_step_subseteq _ _ Hrest), Hkey.
Qed.

Lemma visitSourceFile_analyzed (r : Run) sf :
  resolve (fileName sf) ∈ analyzedFiles (world (visitSourceFile r sf)).
Proof.
  unfold UpdateTool.visitSourceFile.
  destruct (decide _) as [Hin|Hnotin]; [exact Hin|]. simpl. set_solver.
Qed.

Lemma visitResolvedTemplate_analyzed (r : Run) t :
  resolve (filePath t) ∈ analyzedFiles (world (visitResolvedTemplate r t)).
Proof.
  unfold UpdateTool.visitResolvedTemplate.
  destruct (inline t || _) eqn:Hguard; [simpl; set_solver|].
  apply orb_false_iff in Hguard. destruct Hguard as [_ Hguard].
  apply negb_false_iff, bool_decide_eq_true in Hguard. exact Hguard.
Qed.

Lemma visitResolvedStylesheet_analyzed (r : Run) t :
  resolve (filePath t) ∈ analyzedFiles (world (visitResolvedStylesheet r t)).
Proof.
  unfold UpdateTool.visitResolvedStylesheet.
  destruct (inline t || _) eqn:Hguard; [simpl; set_solver|].
  apply orb_false_iff in Hguard. destruct Hguard as [_ Hguard].
  apply negb_false_iff, bool_decide_eq_true in Hguard. exact Hguard.
Qed.

Lemma visitAdditionalStylesheet_analyzed (r : Run) path :
  resolve path ∈ analyzedFiles (world (visitAdditionalStylesheet r path)).
Proof.
  unfold UpdateTool.visitAdditionalStylesheet.
  destruct (decide _) as [Hin|Hnotin]; [exact Hin|]. simpl. set_solver.
Qed.

Lemma forEach_migration_lists visit (r : Run) :
  resolvedTemplates _ _ _ (forEach_migration visit r) =
    resolvedTemplates _ _ _ r /\
  resolvedStylesheets _ _ _ (forEach_migration visit r) =
    resolvedStylesheets _ _ _ r.
Proof.
  unfold UpdateTool.forEach_migration.
  destruct (fold_left _ _ _) as [ms w]. auto.
Qed.

Lemma visitResolvedTemplate_lists (r : Run) t :
  resolvedTemplates _ _ _ (visitResolvedTemplate r t) =
    resolvedTemplates _ _ _ r /\
  resolvedStylesheets _ _ _ (visitResolvedTemplate r t) =
    resolvedStylesheets _ _ _ r.
Proof.
  unfold UpdateTool.visitResolvedTemplate.
  destruct (inline t || _); [|auto]. simpl.
  apply (forEach_migration_lists _ (with_world _ _ _ _ r)).
Qed.

Lemma visitResolvedStylesheet_lists (r : Run) t :
  resolvedTemplates _ _ _ (visitResolvedStylesheet r t) =
    resolvedTemplates _ _ _ r /\
  resolvedStylesheets _ _ _ (visitResolvedStylesheet r t) =
    resolvedStylesheets _ _ _ r.
Proof.
  unfold UpdateTool.visitResolvedStylesheet.
  destruct (inline t || _); [|auto]. simpl.
  apply (forEach_migration_lists _ (with_world _ _ _ _ r)).
Qed.

Lemma forEach_lists {X : Type} (body : Run -> X -> Run) :
  (forall r x,
     resolvedTemplates _ _ _ (body r x) = resolvedTemplates _ _ _ r /\
     resolvedStylesheets _ _ _ (body r x) = resolvedStylesheets _ _ _ r) ->
  forall xs r,
    resolvedTemplates _ _ _ (fold_left body xs r) = resolvedTemplates _ _ _ r /\
    resolvedStylesheets _ _ _ (fold_left body xs r) =
      resolvedStylesheets _ _ _ r.
Proof.
  intros Hbody xs. induction xs as [|x xs IH]; intros r; simpl; [auto|].
  destruct (IH (body r x)) as [-> ->]. apply Hbody.
Qed.

(** What follows the visits of the components is a step. *)
Lemma migrate_after_components this migrationTypes target data paths w :
  migrate_step
    (world (migrate_components this migrationTypes target data w))
    (fst (migrate this migrationTypes target data paths w)).
Proof.
  destruct paths as [paths|]; [|apply migrate_step_refl].
  unfold UpdateTool.migrate.
  set (r := UpdateTool.migrate_components _ _ _ _ _ _ _ _ _ _).
  set (r1 := fold_left _ paths r).
  pose proof (migrate_report_step MigrationState Context_ Data resolve r1)
    as Hreport.
  destruct (migrate_report _ _ _ _ r1) as [w' result]. simpl in *.
  eapply migrate_step_trans; [|exact Hreport].
  apply forEach_step. intros r' x.
  apply step_of, visitAdditionalStylesheet_step.
Qed.

Lemma migrate_additional_analyzed this migrationTypes target data paths w path :
  In path paths ->
  resolve path ∈
    analyzedFiles (fst (migrate this migrationTypes target data (Some paths) w)).
Proof.
  intros Hpath. unfold UpdateTool.migrate.
  set (r := UpdateTool.migrate_components _ _ _ _ _ _ _ _ _ _).
  set (r1 := fold_left _ paths r).
  pose proof (migrate_report_step MigrationState Context_ Data resolve r1)
    as Hreport.
  destruct (migrate_report _ _ _ _ r1) as [w' result]. simpl in *.
  apply (migrate_step_subseteq _ _ Hreport).
  apply forEach_analyzed with (key := resolve).
  - intros r' x. apply visitAdditionalStylesheet_step.
  - intros r' x. apply visitAdditionalStylesheet_analyzed.
  - exact Hpath.
Qed.
End Coverage.

(** X10. Whether it returns or throws, [migrate] leaves among the analyzed
    files all those that were there, the resolved path of every source file
    that is neither a declaration file nor from an external library, and
    the resolved path of every template and stylesheet the collector
    found; when it is given additional stylesheets, their resolved paths
    as well. *)
Theorem migrate_analyzes_everything
    (MigrationState Context_ Data : Type)
    (resolve : string -> string)
    (collect : Node -> list ResolvedResource * list ResolvedResource)
    (resolveExternalStylesheet : string -> ResolvedResource)
    (this : UpdateProject Context_)
    (migrationTypes : list (MigrationCtor MigrationState Context_ Data))
    (target : TargetVersion) (data : Data)
    (additionalStylesheetPaths : option (list string)) (w : World) :
  let w' := fst (migrate MigrationState Context_ Data resolve collect
                   resolveExternalStylesheet this migrationTypes target data
                   additionalStylesheetPaths w) in
  let found := migrate_components MigrationState Context_ Data resolve collect
                 this migrationTypes target data w in
  analyzedFiles w ⊆ analyzedFiles w' /\
  (forall f, In f (getSourceFiles (_program _ this)) ->
             migratable Context_ this f = true ->
             resolve (fileName f) ∈ analyzedFiles w') /\
  (forall t, In t (resolvedTemplates _ _ _ found) ->
             resolve (filePath t) ∈ analyzedFiles w') /\
  (forall s, In s (resolvedStylesheets _ _ _ found) ->
             resolve (filePath s) ∈ analyzedFiles w') /\
  (forall paths path, additionalStylesheetPaths = Some paths ->
                      In path paths -> resolve path ∈ analyzedFiles w').
Proof.
  intros w' found.
  assert (Hrest : migrate_step (world _ _ _ found) w')
    by apply migrate_after_components.
  pose proof (migrate_step_subseteq _ _ Hrest) as Hsub.
  pose proof (migrate_step_subseteq _ _
                (migrate_components_step MigrationState Context_ Data resolve
                   collect this migrationTypes target data w)) as Hsub0.
  fold found in Hsub0.
  split; [set_solver|].
  unfold found, migrate_components in *.
  set (r0 := {| migrations := _ |}) in *.
  set (sourceFiles := List.filter _ _) in *.
  set (r1 := fold_left _ sourceFiles r0) in *.
  set (r2 := fold_left _ (resolvedTemplates _ _ _ r1) r1) in *.
  set (r3 := fold_left _ (resolvedStylesheets _ _ _ r2) r2) in *.
  assert (H12 : migrate_step (world _ _ _ r1) (world _ _ _ r2)).
  { apply forEach_step. intros r x.
    apply migrate_step_visit_step, visitResolvedTemplate_step. }
  assert (H23 : migrate_step (world _ _ _ r2) (world _ _ _ r3)).
  { apply forEach_step. intros r x.
    apply migrate_step_visit_step, visitResolvedStylesheet_step. }
  pose proof (migrate_step_subseteq _ _ H12) as S12.
  pose proof (migrate_step_subseteq _ _ H23) as S23.
  assert (L2 : resolvedTemplates _ _ _ r2 = resolvedTemplates _ _ _ r1 /\
               resolvedStylesheets _ _ _ r2 = resolvedStylesheets _ _ _ r1).
  { apply forEach_lists. intros r x. apply visitResolvedTemplate_lists. }
  assert (L3 : resolvedTemplates _ _ _ r3 = resolvedTemplates _ _ _ r2 /\
               resolvedStylesheets _ _ _ r3 = resolvedStylesheets _ _ _ r2).
  { apply forEach_lists. intros r x. apply visitResolvedStylesheet_lists. }
  destruct L2 as [L2t L2s]. destruct L3 as [L3t L3s].
  split; [|split; [|split]].
  - intros f Hf Hm. apply Hsub, S23, S12.
    apply forEach_analyzed with (key := fun sf => resolve (fileName sf)).
    + intros r x. apply visitSourceFile_step.
    + intros r x. apply visitSourceFile_analyzed.
    + apply List.filter_In. split; [exact Hf | exact Hm].
  - intros t Ht. apply Hsub, S23. rewrite L3t, L2t in Ht.
    apply forEach_analyzed with (key := fun t => resolve (filePath t)).
    + intros r x. apply visitResolvedTemplate_step.
    + intros r x. apply visitResolvedTemplate_analyzed.
    + exact Ht.
  - intros s Hs. apply Hsub. rewrite L3s in Hs.
    apply forEach_analyzed with (key := fun t => resolve (filePath t)).
    + intros r x. apply visitResolvedStylesheet_step.
    + intros r x. apply visitResolvedStylesheet_analyzed.
    + exact Hs.
  - intros paths path -> Hpath. unfold w'.
    apply migrate_additional_analyzed, Hpath.
Qed.

Section Once.
Variables MigrationState Context_ Data : Type.
Variable resolve : string -> string.
Variable collect : Node -> list ResolvedResource * list ResolvedResource.
Variable resolveExternalStylesheet : string -> ResolvedResource.

Local Abbreviation Run := (Run MigrationState Context_ Data).
Local Abbreviation world := (world MigrationState Context_ Data).
Local Abbreviation visitSourceFile :=
  (visitSourceFile MigrationState Context_ Data resolve collect).

Lemma visitSourceFile_visits (r : Run) sf :
  resolve (fileName sf) ∉ analyzedFiles (world r) ->
  exists edits,
    trace (world (visitSourceFile r sf)) =
      trace (world r) ++
      VisitSourceFile (resolve (fileName sf)) :: map EditRecorded edits /\
    analyzedFiles (world (visitSourceFile r sf)) =
      {[resolve (fileName sf)]} ∪ analyzedFiles (world r).
Proof.
  intros Hnew. unfold UpdateTool.visitSourceFile.
  destruct (decide _) as [Hin|_]; [contradiction|].
  set (r1 := with_world _ _ _ _ r).
  destruct (visitNodeAndCollectResources_edits_only MigrationState Context_
              Data collect (sourceNode sf) r1)
    as (Hanalyzed & _ & _ & edits & _ & Htrace).
  exists edits. simpl. rewrite Hanalyzed, Htrace. simpl.
  rewrite <- app_assoc. split; reflexivity.
Qed.

Lemma count_visits_visit p q edits t :
  count_visits p (t ++ VisitSourceFile q :: map EditRecorded edits) =
  count_visits p t + (if String.eqb q p then 1 else 0).
Proof.
  rewrite count_visits_app. simpl. rewrite count_visits_edits.
  unfold is_checked_visit. simpl. destruct (String.eqb q p); lia.
Qed.

(** The loop over the source files visits a path that is new, and is the
    path of one of the files, once. *)
Lemma source_loop_once p : forall xs (r : Run),
  (exists x, In x xs /\ resolve (fileName x) = p) ->
  p ∉ analyzedFiles (world r) ->
  count_visits p (trace (world (fold_left visitSourceFile xs r))) =
    count_visits p (trace (world r)) + 1 /\
  p ∈ analyzedFiles (world (fold_left visitSourceFile xs r)).
Proof.
  induction xs as [|x0 xs IH]; intros r (x & Hin & Hx) Hnew; simpl in *.
  { destruct Hin. }
  destruct (String.eqb_spec (resolve (fileName x0)) p) as [Heq|Hne].
  - assert (Hnew0 : resolve (fileName x0) ∉ analyzedFiles (world r))
      by (rewrite Heq; exact Hnew).
    destruct (visitSourceFile_visits r x0 Hnew0) as (edits & Htrace & Hfiles).
    assert (Hrest : migrate_step (world (visitSourceFile r x0))
                      (world (fold_left visitSourceFile xs
                                (visitSourceFile r x0)))).
    { apply forEach_step. intros r' x'.
      apply migrate_step_visit_step, visitSourceFile_step. }
    destruct Hrest as (_ & _ & Hsub & Hcount).
    assert (Hp : p ∈ analyzedFiles (world (visitSourceFile r x0))).
    { rewrite Hfiles, Heq. apply elem_of_union. left.
      apply elem_of_singleton. reflexivity. }
    split; [|apply Hsub, Hp].
    rewrite (Hcount p Hp), Htrace, count_visits_visit, Heq, String.eqb_refl.
    reflexivity.
  - assert (Hx' : exists x, In x xs /\ resolve (fileName x) = p).
    { destruct Hin as [->|Hin]; [contradiction|]. exists x. auto. }
    destruct (decide (resolve (fileName x0) ∈ analyzedFiles (world r)))
      as [Hold|Hnew0].
    + assert (Hskip : visitSourceFile r x0 = r).
      { unfold UpdateTool.visitSourceFile.
        destruct (decide _); [reflexivity | contradiction]. }
      rewrite Hskip. apply IH; assumption.
    + destruct (visitSourceFile_visits r x0 Hnew0)
        as (edits & Htrace & Hfiles).
      destruct (IH (visitSourceFile r x0) Hx') as [Hcount Hp].
      { rewrite Hfiles. intros [Hp|Hp]%elem_of_union.
        - apply elem_of_singleton in Hp. congruence.
        - exact (Hnew Hp). }
      split; [|exact Hp].
      rewrite Hcount, Htrace, count_visits_visit.
      apply String.eqb_neq in Hne. rewrite Hne. lia.
Qed.
End Once.

(** X11. A call of [migrate], whether it returns or throws, visits a source
    file it looks at exactly once when the resolved path of the file was not
    among the analyzed files, however often the program lists the file; and
    it visits no path that was among the analyzed files, other than as an
    inline resource. *)
Theorem migrate_visits_new_source_file_once
    (MigrationState Context_ Data : Type)
    (resolve : string -> string)
    (collect : Node -> list ResolvedResource * list ResolvedResource)
    (resolveExternalStylesheet : string -> ResolvedResource)
    (this : UpdateProject Context_)
    (migrationTypes : list (MigrationCtor MigrationState Context_ Data))
    (target : TargetVersion) (data : Data)
    (additionalStylesheetPaths : option (list string)) (w : World)
    (f : SourceFile)
    (Hlisted : In f (getSourceFiles (_program _ this)))
    (Hmigratable : migratable Context_ this f = true) :
  let w' := fst (migrate MigrationState Context_ Data resolve collect
                   resolveExternalStylesheet this migrationTypes target data
                   additionalStylesheetPaths w) in
  let path := resolve (fileName f) in
  (path ∉ analyzedFiles w ->
   count_visits path (trace w') = count_visits path (trace w) + 1) /\
  (forall p, p ∈ analyzedFiles w ->
             count_visits p (trace w') = count_visits p (trace w)).
Proof.
  intros w' path. split.
  - intros Hnew.
    assert (Hrest : migrate_step
                      (world _ _ _
                         (migrate_components MigrationState Context_ Data
                            resolve collect this migrationTypes target data w))
                      w') by apply migrate_after_components.
    unfold migrate_components in Hrest.
    set (r0 := {| migrations := _ |}) in *.
    set (sourceFiles := List.filter _ _) in *.
    set (r1 := fold_left _ sourceFiles r0) in *.
    set (r2 := fold_left _ (resolvedTemplates _ _ _ r1) r1) in *.
    destruct (source_loop_once MigrationState Context_ Data resolve collect
                path sourceFiles r0) as [Hcount Hpath].
    { exists f. split; [|reflexivity].
      apply List.filter_In. split; [exact Hlisted | exact Hmigratable]. }
    { exact Hnew. }
    fold r1 in Hcount, Hpath. simpl in Hcount.
    assert (H12 : migrate_step (world _ _ _ r1) (world _ _ _ r2)).
    { apply forEach_step. intros r x.
      apply migrate_step_visit_step, visitResolvedTemplate_step. }
    assert (H23 : migrate_step (world _ _ _ r2)
                    (world _ _ _
                       (fold_left
                          (visitResolvedStylesheet MigrationState Context_
                             Data resolve)
                          (resolvedStylesheets _ _ _ r2) r2))).
    { apply forEach_step. intros r x.
      apply migrate_step_visit_step, visitResolvedStylesheet_step. }
    pose proof (migrate_step_trans _ _ _
                  (migrate_step_trans _ _ _ H12 H23) Hrest)
      as (_ & _ & _ & Hsame).
    rewrite (Hsame path Hpath). exact Hcount.
  - intros p Hp.
    destruct (migrate_world_step MigrationState Context_ Data resolve collect
                resolveExternalStylesheet this migrationTypes target data
                additionalStylesheetPaths w) as (_ & _ & _ & Hsame).
    apply Hsame, Hp.
Qed.

Lemma migrate_visits_new_source_file_once_witness :
  count_visits "/src/app.ts" (trace (fst (Sample.migrate None (World_new ∅ ∅))))
    = 1 /\
  count_visits "/src/app.ts"
    (trace (fst (Sample.migrate (Some ["src/app.ts"]) (World_new ∅ ∅)))) = 1.
Proof.
  split.
  - refine (proj1 (migrate_visits_new_source_file_once _ _ _ Sample.resolve
                     Sample.collect Sample.resolveExternalStylesheet
                     Sample.project [Sample.renaming] V9 tt None
                     (World_new ∅ ∅)
                     {| fileName := "src/app.ts";
                        isDeclarationFile := false;
                        sourceNode := MkNode 0 [MkNode 1 []] |} _ _) _).
    + simpl. left. reflexivity.
    + reflexivity.
    + simpl. apply not_elem_of_empty.
  - refine (proj1 (migrate_visits_new_source_file_once _ _ _ Sample.resolve
                     Sample.collect Sample.resolveExternalStylesheet
                     Sample.project [Sample.renaming] V9 tt
                     (Some ["src/app.ts"]) (World_new ∅ ∅)
                     {| fileName := "src/app.ts";
                        isDeclarationFile := false;
                        sourceNode := MkNode 0 [MkNode 1 []] |} _ _) _).
    + simpl. left. reflexivity.
    + reflexivity.
    + simpl. apply not_elem_of_empty.
Defined.

Section Idle.
Variables MigrationState Context_ Data : Type.
Variable resolve : string -> string.
Variable collect : Node -> list ResolvedResource * list ResolvedResource.
Variable resolveExternalStylesheet : string -> ResolvedResource.

Local Abbreviation Run := (Run MigrationState Context_ Data).
Local Abbreviation MigrationCtor := (MigrationCtor MigrationState Context_ Data).
Local Abbreviation Migration := (Migration MigrationState Context_ Data).
Local Abbreviation world := (world MigrationState Context_ Data).
Local Abbreviation migrations := (migrations MigrationState Context_ Data).
Local Abbreviation forEach_migration :=
  (forEach_migration MigrationState Context_ Data).

Lemma createMigrations_fold this target data (types : list MigrationCtor) :
  forall result : list Migration,
  fold_left
    (fun result c =>
       let instance :=
         {| ctor := c;
            state := construct _ _ _ c (_program _ this) target
                       (_context _ this) data |} in
       if enabled _ _ _ c (state _ _ _ instance)
       then result ++ [instance] else result)
    types result =
  result ++
  List.filter (fun m => enabled _ _ _ (ctor _ _ _ m) (state _ _ _ m))
    (map (instantiate _ _ _ this target data) types).
Proof.
  induction types as [|c types IH]; intros result; simpl.
  - rewrite app_nil_r. reflexivity.
  - rewrite IH. destruct (enabled _ _ _ c _); [|reflexivity].
    rewrite <- app_assoc. reflexivity.
Qed.

Lemma no_enabled_migration this target data (types : list MigrationCtor) :
  Forall (fun c => enabled _ _ _ c
                     (state _ _ _ (instantiate _ _ _ this target data c))
                   = false) types ->
  List.filter (fun m => enabled _ _ _ (ctor _ _ _ m) (state _ _ _ m))
    (map (instantiate _ _ _ this target data) types) = [].
Proof.
  induction 1 as [|c types' Hc _ IH]; simpl in *; [reflexivity|].
  rewrite Hc. exact IH.
Qed.

Lemma idle_refl (r : Run) : migrations r = [] -> idle r r.
Proof. intros H. repeat split. exact H. Qed.

Lemma idle_trans (r1 r2 r3 : Run) : idle r1 r2 -> idle r2 r3 -> idle r1 r3.
Proof.
  intros (_ & E1 & L1 & T1) (M & E2 & L2 & T2).
  split; [exact M|]. split; [congruence|]. split; congruence.
Qed.

Lemma idle_migrations (r r' : Run) : idle r r' -> migrations r' = [].
Proof. intros [H _]. exact H. Qed.

Lemma forEach_migration_idle visit (r : Run) :
  migrations r = [] -> idle r (forEach_migration visit r).
Proof.
  intros H. unfold UpdateTool.forEach_migration. rewrite H. simpl.
  repeat split.
Qed.

Lemma forEach_idle {X : Type} (body : Run -> X -> Run) :
  (forall r x, migrations r = [] -> idle r (body r x)) ->
  forall xs r, migrations r = [] -> idle r (fold_left body xs r).
Proof.
  intros Hbody xs. induction xs as [|x xs IH]; intros r Hr; simpl.
  - apply idle_refl, Hr.
  - eapply idle_trans; [apply Hbody, Hr|].
    apply IH. eapply idle_migrations, Hbody, Hr.
Qed.

Lemma visitNodeAndCollectResources_idle node : forall r : Run,
  migrations r = [] ->
  idle r (visitNodeAndCollectResources _ _ _ collect node r).
Proof.
  induction node as [label children IH] using Node_induction.
  assert (Hchildren : forall r1 : Run,
            migrations r1 = [] ->
            idle r1
              (fold_left
                 (fun r child =>
                    visitNodeAndCollectResources _ _ _ collect child r)
                 children r1)).
  { induction IH as [|child children Hchild _ IHchildren];
      intros r1 Hr1; simpl.
    - apply idle_refl, Hr1.
    - eapply idle_trans; [apply Hchild, Hr1|].
      apply IHchildren. eapply idle_migrations, Hchild, Hr1. }
  intros r Hr. simpl.
  pose proof (forEach_migration_idle
                (fun c => visitNode _ _ _ c (MkNode label children)) r Hr)
    as H1.
  pose proof (Hchildren _ (idle_migrations _ _ H1)) as H2.
  pose proof (idle_trans _ _ _ H1 H2) as (M & E & L & T).
  unfold resourceCollector_visitNode. repeat split; assumption.
Qed.

Lemma visitSourceFile_idle (r : Run) sf :
  migrations r = [] ->
  idle r (visitSourceFile _ _ _ resolve collect r sf).
Proof.
  intros Hr. unfold UpdateTool.visitSourceFile.
  destruct (decide _); [apply idle_refl, Hr|].
  set (r1 := with_world _ _ _ _ r).
  destruct (visitNodeAndCollectResources_idle (sourceNode sf) r1 Hr)
    as (M & E & L & T).
  repeat split; assumption.
Qed.

Lemma visitResolvedTemplate_idle (r : Run) t :
  migrations r = [] ->
  idle r (visitResolvedTemplate _ _ _ resolve r t).
Proof.
  intros Hr. unfold UpdateTool.visitResolvedTemplate.
  destruct (_ || _); [|apply idle_refl, Hr].
  set (r1 := with_world _ _ _ _ r).
  destruct (forEach_migration_idle
              (fun c => visitTemplate _ _ _ c t) r1 Hr) as (M & E & L & T).
  repeat split; assumption.
Qed.

Lemma visitResolvedStylesheet_idle (r : Run) t :
  migrations r = [] ->
  idle r (visitResolvedStylesheet _ _ _ resolve r t).
Proof.
  intros Hr. unfold UpdateTool.visitResolvedStylesheet.
  destruct (_ || _); [|apply idle_refl, Hr].
  set (r1 := with_world _ _ _ _ r).
  destruct (forEach_migration_idle
              (fun c => visitStylesheet _ _ _ c t) r1 Hr) as (M & E & L & T).
  repeat split; assumption.
Qed.

Lemma visitAdditionalStylesheet_idle (r : Run) path :
  migrations r = [] ->
  idle r (visitAdditionalStylesheet _ _ _ resolve resolveExternalStylesheet
            r path).
Proof.
  intros Hr. unfold UpdateTool.visitAdditionalStylesheet.
  destruct (decide _); [apply idle_refl, Hr|].
  set (r1 := with_world _ _ _ _ r).
  destruct (forEach_migration_idle
              (fun c => visitStylesheet _ _ _ c
                          (resolveExternalStylesheet path)) r1 Hr)
    as (M & E & L & T).
  repeat split; assumption.
Qed.

Lemma migrate_report_idle (r : Run) :
  migrations r = [] ->
  migrate_report _ _ _ resolve r = (world r, {| hasFailures := false |}).
Proof.
  intros Hr. unfold UpdateTool.migrate_report, UpdateTool.forEach_migration.
  rewrite Hr. reflexivity.
Qed.
End Idle.

(** X12. [_createMigrations] keeps, in the order of the types, the instances
    that are enabled.  When none is, a call of [migrate] with additional
    stylesheets returns without failures, and records no edit and logs
    nothing. *)
Theorem migrate_without_enabled_migration
    (MigrationState Context_ Data : Type)
    (resolve : string -> string)
    (collect : Node -> list ResolvedResource * list ResolvedResource)
    (resolveExternalStylesheet : string -> ResolvedResource)
    (this : UpdateProject Context_)
    (migrationTypes : list (MigrationCtor MigrationState Context_ Data))
    (target : TargetVersion) (data : Data)
    (paths : list string) (w : World) :
  _createMigrations _ _ _ this migrationTypes target data =
    List.filter (fun m => enabled _ _ _ (ctor _ _ _ m) (state _ _ _ m))
      (map (instantiate _ _ _ this target data) migrationTypes) /\
  (Forall (fun c => enabled _ _ _ c
                      (state _ _ _ (instantiate _ _ _ this target data c))
                    = false) migrationTypes ->
   exists w',
     migrate MigrationState Context_ Data resolve collect
       resolveExternalStylesheet this migrationTypes target data
       (Some paths) w = (w', Return {| hasFailures := false |}) /\
     pendingEdits w' = pendingEdits w /\
     logged w' = logged w /\
     edits_of (trace w') = edits_of (trace w)).
Proof.
  assert (Hcreate :
    _createMigrations _ _ _ this migrationTypes target data =
      List.filter (fun m => enabled _ _ _ (ctor _ _ _ m) (state _ _ _ m))
        (map (instantiate _ _ _ this target data) migrationTypes)).
  { exact (createMigrations_fold _ _ _ this target data migrationTypes []). }
  split; [exact Hcreate|].
  intros Hdisabled.
  assert (Hnone :
    _createMigrations _ _ _ this migrationTypes target data = []).
  { rewrite Hcreate. apply no_enabled_migration, Hdisabled. }
  clear Hcreate.
  pose proof (migrate_world_step MigrationState Context_ Data resolve collect
                resolveExternalStylesheet this migrationTypes target data
                (Some paths) w) as (_ & (_ & events & Htrace & _ & Hedits) & _).
  unfold migrate in *. unfold migrate_components in *.
  set (r0 := {| UpdateTool.migrations := _ |}) in *.
  assert (H0 : UpdateTool.migrations _ _ _ r0 = []) by exact Hnone.
  set (sourceFiles := List.filter _ _) in *.
  set (r1 := fold_left _ sourceFiles r0) in *.
  assert (I1 : idle r0 r1).
  { apply forEach_idle; [|exact H0].
    intros r x. apply visitSourceFile_idle. }
  set (r2 := fold_left _ (resolvedTemplates _ _ _ r1) r1) in *.
  assert (I2 : idle r1 r2).
  { apply forEach_idle; [|exact (proj1 I1)].
    intros r x. apply visitResolvedTemplate_idle. }
  set (r3 := fold_left _ (resolvedStylesheets _ _ _ r2) r2) in *.
  assert (I3 : idle r2 r3).
  { apply forEach_idle; [|exact (proj1 I2)].
    intros r x. apply visitResolvedStylesheet_idle. }
  set (r4 := fold_left _ paths r3) in *.
  assert (I4 : idle r3 r4).
  { apply forEach_idle; [|exact (proj1 I3)].
    intros r x. apply visitAdditionalStylesheet_idle. }
  rewrite (migrate_report_idle _ _ _ resolve r4 (proj1 I4)) in *.
  simpl in Htrace, Hedits.
  exists (world _ _ _ r4). split; [reflexivity|].
  destruct (idle_trans _ _ _ _ _ _ (idle_trans _ _ _ _ _ _
              (idle_trans _ _ _ _ _ _ I1 I2) I3) I4) as (_ & E & L & _).
  split; [exact E|]. split; [exact L|].
  rewrite Htrace, edits_of_app.
  rewrite E in Hedits. simpl in Hedits.
  assert (Hno : edits_of events = []).
  { apply (app_inv_head (pendingEdits w)). rewrite app_nil_r.
    symmetry. exact Hedits. }
  rewrite Hno, app_nil_r. reflexivity.
Qed.

Lemma accounted_visit_step w w' : visit_step w w' -> accounted w w'.
Proof.
  intros [->|ev p i w1 Hev _ Hedits ->].
  - exists []. rewrite app_nil_r. auto.
  - destruct Hedits as (Hfiles & _ & _ & edits & _ & Htrace). simpl in *.
    exists (ev :: map EditRecorded edits). split.
    + simpl. rewrite Htrace, <- app_assoc. reflexivity.
    + simpl. intros q [Hq|Hq]%elem_of_union.
      * apply elem_of_singleton in Hq. subst q. right.
        apply Exists_cons_hd. exists i. exact Hev.
      * left. rewrite <- Hfiles. exact Hq.
Qed.

Lemma accounted_trans w1 w2 w3 :
  accounted w1 w2 -> accounted w2 w3 -> accounted w1 w3.
Proof.
  intros (e1 & Ht1 & H1) (e2 & Ht2 & H2). exists (e1 ++ e2). split.
  - rewrite Ht2, Ht1, app_assoc. reflexivity.
  - intros p Hp. destruct (H2 p Hp) as [Hp2|Hv].
    + destruct (H1 p Hp2) as [Hp1|Hv]; [left; exact Hp1|].
      right. apply visited_app. left. exact Hv.
    + right. apply visited_app. right. exact Hv.
Qed.

Section Visits.
Variables MigrationState Context_ Data : Type.
Variable resolve : string -> string.
Variable collect : Node -> list ResolvedResource * list ResolvedResource.

Local Abbreviation Run := (Run MigrationState Context_ Data).
Local Abbreviation world := (world MigrationState Context_ Data).
Local Abbreviation visitSourceFile :=
  (visitSourceFile MigrationState Context_ Data resolve collect).
Local Abbreviation visitResolvedTemplate :=
  (visitResolvedTemplate MigrationState Context_ Data resolve).
Local Abbreviation visitResolvedStylesheet :=
  (visitResolvedStylesheet MigrationState Context_ Data resolve).
Local Abbreviation migrate_components :=
  (migrate_components MigrationState Context_ Data resolve collect).

Lemma forEach_accounted {X : Type} (body : Run -> X -> Run) :
  (forall r x, visit_step (world r) (world (body r x))) ->
  forall xs r, accounted (world r) (world (fold_left body xs r)).
Proof.
  intros Hbody xs. induction xs as [|x xs IH]; intros r; simpl.
  - exists []. rewrite app_nil_r. auto.
  - eapply accounted_trans; [apply accounted_visit_step, Hbody | apply IH].
Qed.

(** A loop visits the items it is bound to visit. *)
Lemma forEach_visits {X : Type} (body : Run -> X -> Run) (key : X -> string)
    (bound : X -> bool) :
  (forall r x, visit_step (world r) (world (body r x))) ->
  (forall r x, bound x = true ->
     exists events,
       trace (world (body r x)) = trace (world r) ++ events /\
       visited (key x) events) ->
  forall xs r x, In x xs -> bound x = true ->
    exists events,
      trace (world (fold_left body xs r)) = trace (world r) ++ events /\
      visited (key x) events.
Proof.
  intros Hstep Hbound xs.
  induction xs as [|x0 xs IH]; intros r x Hin Hx; simpl in *; [destruct Hin|].
  assert (Hrest : forall r', exists later,
            trace (world (fold_left body xs r')) = trace (world r') ++ later).
  { intros r'.
    destruct (forEach_step MigrationState Context_ Data body
                (fun r x => migrate_step_visit_step _ _ (Hstep r x)) xs r')
      as (_ & (_ & later & Hlater & _) & _).
    exists later. exact Hlater. }
  destruct Hin as [->|Hin].
  - destruct (Hbound r x Hx) as (events & Htrace & Hvisited).
    destruct (Hrest (body r x)) as (later & Hlater).
    exists (events ++ later). split.
    + rewrite Hlater, Htrace, app_assoc. reflexivity.
    + apply visited_app. left. exact Hvisited.
  - destruct (migrate_step_visit_step _ _ (Hstep r x0))
      as (_ & (_ & first & Hfirst & _) & _).
    destruct (IH (body r x0) x Hin Hx) as (events & Htrace & Hvisited).
    exists (first ++ events). split.
    + rewrite Htrace, Hfirst, app_assoc. reflexivity.
    + apply visited_app. right. exact Hvisited.
Qed.

Lemma visitResolvedTemplate_inline (r : Run) t :
  inline t = true ->
  exists events,
    trace (world (visitResolvedTemplate r t)) = trace (world r) ++ events /\
    visited (resolve (filePath t)) events.
Proof.
  intros Hinline. unfold UpdateTool.visitResolvedTemplate. rewrite Hinline.
  simpl.
  set (r1 := with_world _ _ _ _ r).
  destruct (forEach_migration_edits_only MigrationState Context_ Data
              (fun c => visitTemplate _ _ _ c t) r1)
    as (_ & _ & _ & edits & _ & Htrace).
  exists (VisitTemplate (resolve (filePath t)) true :: map EditRecorded edits).
  split.
  - rewrite Htrace. simpl. rewrite <- app_assoc. reflexivity.
  - apply Exists_cons_hd. exists true. reflexivity.
Qed.

Lemma visitResolvedStylesheet_inline (r : Run) t :
  inline t = true ->
  exists events,
    trace (world (visitResolvedStylesheet r t)) = trace (world r) ++ events /\
    visited (resolve (filePath t)) events.
Proof.
  intros Hinline. unfold UpdateTool.visitResolvedStylesheet. rewrite Hinline.
  simpl.
  set (r1 := with_world _ _ _ _ r).
  destruct (forEach_migration_edits_only MigrationState Context_ Data
              (fun c => visitStylesheet _ _ _ c t) r1)
    as (_ & _ & _ & edits & _ & Htrace).
  exists (VisitStylesheet (resolve (filePath t)) true :: map EditRecorded edits).
  split.
  - rewrite Htrace. simpl. rewrite <- app_assoc. reflexivity.
  - apply Exists_cons_hd. exists true. reflexivity.
Qed.

(** What the three loops over the components leave: the files they have
    added to the analyzed files have been visited, the inline templates and
    stylesheets have been visited, and the files, templates and stylesheets
    they went through are analyzed. *)
Lemma migrate_components_visits this migrationTypes target data w :
  let found := migrate_components this migrationTypes target data w in
  exists events,
    trace (world found) = trace w ++ events /\
    (forall p, p ∈ analyzedFiles (world found) ->
               p ∈ analyzedFiles w \/ visited p events) /\
    (forall f, In f (getSourceFiles (_program _ this)) ->
               migratable Context_ this f = true ->
               resolve (fileName f) ∈ analyzedFiles (world found) /\
               (resolve (fileName f) ∉ analyzedFiles w ->
                count_visits (resolve (fileName f)) events = 1)) /\
    (forall t, In t (resolvedTemplates _ _ _ found) ->
               resolve (filePath t) ∈ analyzedFiles (world found) /\
               (inline t = true -> visited (resolve (filePath t)) events)) /\
    (forall s, In s (resolvedStylesheets _ _ _ found) ->
               resolve (filePath s) ∈ analyzedFiles (world found) /\
               (inline s = true -> visited (resolve (filePath s)) events)).
Proof.
  unfold UpdateTool.migrate_components.
  set (r0 := {| migrations := _ |}).
  set (sourceFiles := List.filter _ _).
  set (r1 := fold_left _ sourceFiles r0).
  set (r2 := fold_left _ (resolvedTemplates _ _ _ r1) r1).
  set (r3 := fold_left _ (resolvedStylesheets _ _ _ r2) r2).
  cbv zeta.
  assert (S01 : forall r x, visit_step (world r) (world (visitSourceFile r x)))
    by (intros r x; apply visitSourceFile_step).
  assert (S12 : forall r x,
            visit_step (world r) (world (visitResolvedTemplate r x)))
    by (intros r x; apply visitResolvedTemplate_step).
  assert (S23 : forall r x,
            visit_step (world r) (world (visitResolvedStylesheet r x)))
    by (intros r x; apply visitResolvedStylesheet_step).
  pose proof (forEach_accounted _ S01 sourceFiles r0) as A01.
  pose proof (forEach_accounted _ S12 (resolvedTemplates _ _ _ r1) r1) as A12.
  pose proof (forEach_accounted _ S23 (resolvedStylesheets _ _ _ r2) r2) as A23.
  fold r1 in A01. fold r2 in A12. fold r3 in A23.
  assert (M12 : migrate_step (world r1) (world r2)).
  { apply forEach_step. intros r x. apply migrate_step_visit_step, S12. }
  assert (M23 : migrate_step (world r2) (world r3)).
  { apply forEach_step. intros r x. apply migrate_step_visit_step, S23. }
  pose proof (migrate_step_subseteq _ _ M12) as Sub12.
  pose proof (migrate_step_subseteq _ _ M23) as Sub23.
  assert (L2 : resolvedTemplates _ _ _ r2 = resolvedTemplates _ _ _ r1 /\
               resolvedStylesheets _ _ _ r2 = resolvedStylesheets _ _ _ r1).
  { apply forEach_lists. intros r x. apply visitResolvedTemplate_lists. }
  assert (L3 : resolvedTemplates _ _ _ r3 = resolvedTemplates _ _ _ r2 /\
               resolvedStylesheets _ _ _ r3 = resolvedStylesheets _ _ _ r2).
  { apply forEach_lists. intros r x. apply visitResolvedStylesheet_lists. }
  destruct L2 as [L2t L2s]. destruct L3 as [L3t L3s].
  destruct A01 as (e1 & T1 & H1). destruct A12 as (e2 & T2 & H2).
  destruct A23 as (e3 & T3 & H3). simpl in T1.
  assert (T : trace (world r3) = trace w ++ (e1 ++ e2 ++ e3)).
  { rewrite T3, T2, T1, <- !app_assoc. reflexivity. }
  exists (e1 ++ e2 ++ e3). split; [exact T|]. split; [|split; [|split]].
  - intros p Hp. rewrite !visited_app.
    destruct (H3 p Hp) as [Hp2|Hv]; [|auto].
    destruct (H2 p Hp2) as [Hp1|Hv]; [|auto].
    destruct (H1 p Hp1) as [Hp0|Hv]; auto.
  - intros f Hf Hm.
    assert (Hin : In f sourceFiles).
    { apply List.filter_In. split; [exact Hf | exact Hm]. }
    split.
    + apply Sub23, Sub12.
      apply forEach_analyzed with (key := fun sf => resolve (fileName sf));
        [exact S01 | intros r x; apply visitSourceFile_analyzed | exact Hin].
    + intros Hnew.
      destruct (source_loop_once MigrationState Context_ Data resolve collect
                  (resolve (fileName f)) sourceFiles r0) as [Hcount Hpath].
      { exists f. split; [exact Hin | reflexivity]. }
      { exact Hnew. }
      fold r1 in Hcount, Hpath. simpl in Hcount.
      destruct (migrate_step_trans _ _ _ M12 M23) as (_ & _ & _ & Hsame).
      rewrite <- (Hsame _ Hpath), T, count_visits_app in Hcount. lia.
  - intros t Ht. rewrite L3t, L2t in Ht. split.
    + apply Sub23.
      apply forEach_analyzed with (key := fun t => resolve (filePath t));
        [exact S12 | intros r x; apply visitResolvedTemplate_analyzed
        | exact Ht].
    + intros Hinline.
      destruct (forEach_visits _ (fun t => resolve (filePath t)) inline S12
                  (fun r x => visitResolvedTemplate_inline r x)
                  _ r1 t Ht Hinline) as (e2' & T2' & Hv).
      fold r2 in T2'. rewrite T2 in T2'. apply app_inv_head in T2'.
      subst e2'. rewrite !visited_app. auto.
  - intros s Hs. rewrite L3s in Hs. split.
    + apply forEach_analyzed with (key := fun t => resolve (filePath t));
        [exact S23 | intros r x; apply visitResolvedStylesheet_analyzed
        | exact Hs].
    + intros Hinline.
      destruct (forEach_visits _ (fun t => resolve (filePath t)) inline S23
                  (fun r x => visitResolvedStylesheet_inline r x)
                  _ r2 s Hs Hinline) as (e3' & T3' & Hv).
      fold r3 in T3'. rewrite T3 in T3'. apply app_inv_head in T3'.
      subst e3'. rewrite !visited_app. auto.
Qed.
End Visits.

(** C10. [migrate] dereferences its optional last parameter: a call that
    omits [additionalStylesheetPaths] (or passes [undefined]) throws a
    [TypeError], and it does so after the source files, the templates and
    the stylesheets of the components have been visited.  The events of the
    throwing call hold one visit of every source file it looks at whose
    resolved path was not yet analyzed, and a visit of every template and
    stylesheet the collector found that is inline or was not yet analyzed;
    all of them are among the analyzed files when it throws, and nothing has
    been logged.  A call that passes an array, empty or not, returns, and
    its trace starts with that of the throwing call. *)
Theorem migrate_throws_without_additional_stylesheets
    (MigrationState Context_ Data : Type)
    (resolve : string -> string)
    (collect : Node -> list ResolvedResource * list ResolvedResource)
    (resolveExternalStylesheet : string -> ResolvedResource)
    (this : UpdateProject Context_)
    (migrationTypes : list (MigrationCtor MigrationState Context_ Data))
    (target : TargetVersion) (data : Data) (w : World) :
  let migrate := migrate MigrationState Context_ Data resolve collect
                   resolveExternalStylesheet this migrationTypes target data in
  let found := migrate_components MigrationState Context_ Data resolve
                 collect this migrationTypes target data w in
  let visited_components := world _ _ _ found in
  migrate None w = (visited_components, ThrowTypeError) /\
  logged visited_components = logged w /\
  (exists events,
     trace visited_components = trace w ++ events /\
     (forall f, In f (getSourceFiles (_program _ this)) ->
                migratable Context_ this f = true ->
                resolve (fileName f) ∈ analyzedFiles visited_components /\
                (resolve (fileName f) ∉ analyzedFiles w ->
                 count_visits (resolve (fileName f)) events = 1)) /\
     (forall t, In t (resolvedTemplates _ _ _ found) ->
                resolve (filePath t) ∈ analyzedFiles visited_components /\
                (inline t = true \/ resolve (filePath t) ∉ analyzedFiles w ->
                 visited (resolve (filePath t)) events)) /\
     (forall s, In s (resolvedStylesheets _ _ _ found) ->
                resolve (filePath s) ∈ analyzedFiles visited_components /\
                (inline s = true \/ resolve (filePath s) ∉ analyzedFiles w ->
                 visited (resolve (filePath s)) events))) /\
  forall paths,
    exists w' result later,
      migrate (Some paths) w = (w', Return result) /\
      trace w' = trace visited_components ++ later.
Proof.
  intros migrate found visited_components.
  split; [reflexivity|]. split; [apply migrate_components_logged|]. split.
  - destruct (migrate_components_visits MigrationState Context_ Data resolve
                collect this migrationTypes target data w)
      as (events & Htrace & Hnew & Hsources & Htemplates & Hstylesheets).
    fold found in Htrace, Hnew, Hsources, Htemplates, Hstylesheets.
    fold visited_components in Htrace, Hnew, Hsources, Htemplates,
      Hstylesheets.
    exists events. split; [exact Htrace|].
    split; [exact Hsources|]. split.
    + intros t Ht. destruct (Htemplates t Ht) as [Hin Hinline].
      split; [exact Hin|]. intros [Hi|Hfresh]; [apply Hinline, Hi|].
      destruct (Hnew _ Hin) as [Hold|Hv]; [contradiction | exact Hv].
    + intros s Hs. destruct (Hstylesheets s Hs) as [Hin Hinline].
      split; [exact Hin|]. intros [Hi|Hfresh]; [apply Hinline, Hi|].
      destruct (Hnew _ Hin) as [Hold|Hv]; [contradiction | exact Hv].
  - intros paths. subst migrate. unfold UpdateTool.migrate.
    fold found.
    set (r1 := fold_left _ paths found).
    pose proof (migrate_report_step MigrationState Context_ Data resolve r1)
      as Hreport.
    destruct (migrate_report _ _ _ _ r1) as [w' result].
    assert (Hstep : migrate_step visited_components w').
    { eapply migrate_step_trans; [|exact Hreport].
      apply forEach_step. intros r' x.
      apply migrate_step_visit_step, visitAdditionalStylesheet_step. }
    destruct Hstep as (_ & (_ & later & Hlater & _) & _).
    exists w', result, later. split; [reflexivity | exact Hlater].
Qed.

End UpdateToolCoverageProofs.

(** ** The devkit schematic rule as a whole *)
Module DevkitCoverageProofs.
Import UpgradeData UpdateTool UpdateToolProofs Devkit DevkitProofs
  DevkitCoverage.

Lemma count_visits_no_visit p events :
  Forall (fun e => visit_path e = None) events -> count_visits p events = 0.
Proof.
  induction 1 as [|e events He _ IH]; simpl; [reflexivity|].
  unfold is_checked_visit. rewrite He. exact IH.
Qed.

Lemma visited_no_visit p events :
  Forall (fun e => visit_path e = None) events -> ~ visited p events.
Proof.
  unfold visited. induction 1 as [|e events He _ IH]; intros Hv.
  - inversion Hv.
  - inversion Hv as [? ? [i Hi]|]; subst; [congruence | auto].
Qed.

(** Events that are no visits, and a change that leaves the analyzed files
    alone, keep the invariant of the analyzed files. *)
Lemma analyzed_invariant_events A0 w w' events :
  analyzedFiles w' = analyzedFiles w ->
  trace w' = trace w ++ events ->
  Forall (fun e => visit_path e = None) events ->
  analyzed_invariant A0 w -> analyzed_invariant A0 w'.
Proof.
  intros Hfiles Htrace Hevents (Hsub & Hone & Hzero & Hvisited).
  unfold analyzed_invariant. rewrite Hfiles, Htrace.
  split; [exact Hsub|]. split; [|split].
  - intros p. rewrite count_visits_app, (count_visits_no_visit p events Hevents).
    rewrite Nat.add_0_r. apply Hone.
  - intros p Hp.
    rewrite count_visits_app, (count_visits_no_visit p events Hevents).
    rewrite Nat.add_0_r. apply Hzero, Hp.
  - intros p [Hp|Hp]%visited_app; [apply Hvisited, Hp|].
    destruct (visited_no_visit p events Hevents Hp).
Qed.

Lemma log_entries_fields entries : forall w,
  let w' := fold_left
              (fun w '(level, message) => logger_log level message w)
              entries w in
  analyzedFiles w' = analyzedFiles w /\
  pendingEdits w' = pendingEdits w /\
  tree w' = tree w.
Proof.
  induction entries as [|[level message] entries IH]; intros w; simpl;
    [auto|].
  destruct (IH (logger_log level message w)) as (-> & -> & ->). auto.
Qed.

Section Rule.
Variables MigrationState Data : Type.
Variable resolve : string -> string.
Variable collect : Node -> list ResolvedResource * list ResolvedResource.
Variable resolveExternalStylesheet : string -> ResolvedResource.
Variable getWorkspaceConfigGracefully : gmap string string -> option Workspace.
Variable getTargetTsconfigPath : WorkspaceProject -> TargetName -> option string.
Variable cwd : string.
Variable join : string -> string -> string.
Variable createProgramFromTsconfig : string -> gmap string string -> Program.
Variable globSync : string -> list string.
Variable applyEdits : list Edit -> gmap string string -> gmap string string.
Variable cdkMigrations : list (MigrationCtor MigrationState DevkitContext Data).

Local Abbreviation MigrationCtor :=
  (UpdateTool.MigrationCtor MigrationState DevkitContext Data).
Local Abbreviation runMigrations :=
  (runMigrations MigrationState Data resolve collect
     resolveExternalStylesheet cwd join createProgramFromTsconfig globSync
     applyEdits).
Local Abbreviation forProject :=
  (forProject MigrationState Data resolve collect resolveExternalStylesheet
     getTargetTsconfigPath cwd join createProgramFromTsconfig globSync
     applyEdits).

Lemma runMigrations_invariant (migrations : list MigrationCtor) targetVersion
    upgradeData project projectName tsconfigPath isTestTarget st :
  rule_invariant st ->
  exists st',
    runMigrations migrations targetVersion upgradeData project projectName
      tsconfigPath isTestTarget st = (st', Return tt) /\
    rule_invariant st'.
Proof.
  intros (Hinv & Hpending & Htasks).
  unfold Devkit.runMigrations.
  match goal with
  | |- context [UpdateTool.migrate _ _ _ _ _ _ ?this ?ms ?t ?d (Some ?paths) ?w] =>
      destruct (migrate_returns MigrationState DevkitContext Data resolve
                  collect resolveExternalStylesheet this ms t d paths w)
        as (w1 & result & Hmigrate & Hstep & _)
  end.
  rewrite Hmigrate. eexists. split; [reflexivity|].
  split; [|split; [reflexivity | exact Htasks]].
  simpl.
  apply (analyzed_invariant_events ∅ w1 _ [MigrateReturned; CommitEdits]).
  - reflexivity.
  - simpl. rewrite <- app_assoc. reflexivity.
  - repeat constructor.
  - apply Hstep, Hinv.
Qed.

Lemma forProject_invariant (migrations : list MigrationCtor) targetVersion
    upgradeData st entry :
  rule_invariant st ->
  exists st',
    forProject migrations targetVersion upgradeData (st, Return tt) entry =
      (st', Return tt) /\
    rule_invariant st'.
Proof.
  intros Hst. destruct entry as [projectName project].
  unfold Devkit.forProject.
  destruct (falsy (getTargetTsconfigPath project build) &&
            falsy (getTargetTsconfigPath project test)).
  { eexists. split; [reflexivity|].
    destruct Hst as (Hinv & Hpending & Htasks).
    split; [|split; [exact Hpending | exact Htasks]].
    simpl. eapply (analyzed_invariant_events ∅ _ _ []); eauto.
    simpl. rewrite app_nil_r. reflexivity. }
  destruct (getTargetTsconfigPath project build) as [buildPath|];
    destruct (getTargetTsconfigPath project test) as [testPath|].
  - destruct (runMigrations_invariant migrations targetVersion upgradeData
                project projectName buildPath false st Hst) as (st1 & -> & H1).
    destruct (runMigrations_invariant migrations targetVersion upgradeData
                project projectName testPath true st1 H1) as (st2 & -> & H2).
    exists st2. auto.
  - destruct (runMigrations_invariant migrations targetVersion upgradeData
                project projectName buildPath false st Hst) as (st1 & -> & H1).
    exists st1. auto.
  - destruct (runMigrations_invariant migrations targetVersion upgradeData
                project projectName testPath true st Hst) as (st1 & -> & H1).
    exists st1. auto.
  - exists st. auto.
Qed.

Lemma projects_invariant (migrations : list MigrationCtor) targetVersion
    upgradeData entries : forall st,
  rule_invariant st ->
  exists st',
    fold_left (forProject migrations targetVersion upgradeData) entries
      (st, Return tt) = (st', Return tt) /\
    rule_invariant st'.
Proof.
  induction entries as [|entry entries IH]; intros st Hst; cbn [fold_left].
  - exists st. auto.
  - destruct (forProject_invariant migrations targetVersion upgradeData st
                entry Hst) as (st1 & -> & H1).
    apply IH, H1.
Qed.

Lemma globalPostMigrations_none (migrations : list MigrationCtor) :
  Forall (fun m => globalPostMigration _ _ _ m = None) migrations ->
  forall files requested,
    fold_left
      (fun '(files, runPackageManager) (m : MigrationCtor) =>
         match globalPostMigration _ _ _ m with
         | Some post =>
             match post files with
             | (files1, Some requested) =>
                 (files1, runPackageManager || requested)
             | (files1, None) => (files1, runPackageManager)
             end
         | None => (files, runPackageManager)
         end)
      migrations (files, requested) = (files, requested).
Proof.
  induction 1 as [|m migrations Hm _ IH]; intros files requested; simpl;
    [reflexivity|].
  rewrite Hm. apply IH.
Qed.
End Rule.

(** X13. The schematic rule always completes.  When it does, no recorded
    edit is left uncommitted; over all the projects and both of their
    tsconfigs, no resolved path was visited more than once, visits of inline
    resources apart, and every path visited is among the analyzed files;
    at most one package installation task was added, and none when
    no migration defines [globalPostMigration], in which case the files are
    as the last commit left them. *)
Theorem rule_visits_each_path_once
    (MigrationState Data : Type)
    (resolve : string -> string)
    (collect : Node -> list ResolvedResource * list ResolvedResource)
    (resolveExternalStylesheet : string -> ResolvedResource)
    (getWorkspaceConfigGracefully : gmap string string -> option Workspace)
    (getTargetTsconfigPath : WorkspaceProject -> TargetName -> option string)
    (cwd : string) (join : string -> string -> string)
    (createProgramFromTsconfig : string -> gmap string string -> Program)
    (globSync : string -> list string)
    (applyEdits : list Edit -> gmap string string -> gmap string string)
    (cdkMigrations : list (MigrationCtor MigrationState DevkitContext Data))
    (targetVersion : TargetVersion)
    (extraMigrations : list (MigrationCtor MigrationState DevkitContext Data))
    (upgradeData : Data)
    (onMigrationCompleteFn :
       option (TargetVersion -> bool -> list (LogLevel * string)))
    (files : gmap string string) :
  exists st,
    createMigrationSchematicRule MigrationState Data resolve collect
      resolveExternalStylesheet getWorkspaceConfigGracefully
      getTargetTsconfigPath cwd join createProgramFromTsconfig globSync
      applyEdits cdkMigrations targetVersion extraMigrations upgradeData
      onMigrationCompleteFn files = (st, Return tt) /\
    pendingEdits (rule_world st) = [] /\
    (forall p, count_visits p (trace (rule_world st)) <= 1) /\
    (forall p, visited p (trace (rule_world st)) ->
               p ∈ analyzedFiles (rule_world st)) /\
    (rule_tasks st = [] \/ rule_tasks st = [NodePackageInstallTask]) /\
    (Forall (fun m => globalPostMigration _ _ _ m = None)
       (cdkMigrations ++ extraMigrations) ->
     rule_tasks st = [] /\
     forall st1 workspace,
       getWorkspaceConfigGracefully files = Some workspace ->
       fold_left
         (forProject MigrationState Data resolve collect
            resolveExternalStylesheet getTargetTsconfigPath cwd join
            createProgramFromTsconfig globSync applyEdits
            (cdkMigrations ++ extraMigrations) targetVersion upgradeData)
         (projects workspace)
         ({| rule_world := World_new files ∅;
             rule_hasFailures := false;
             rule_tasks := [] |}, Return tt) = (st1, Return tt) ->
       tree (rule_world st) = tree (rule_world st1)).
Proof.
  unfold createMigrationSchematicRule.
  set (st0 := {| rule_world := World_new files ∅;
                 rule_hasFailures := false; rule_tasks := [] |}).
  assert (H0 : rule_invariant st0).
  { split; [|split; reflexivity].
    split; [reflexivity|]. split; [intros p; simpl; lia|].
    split; [reflexivity|]. intros p Hp. inversion Hp. }
  destruct (getWorkspaceConfigGracefully files) as [workspace|].
  - destruct (projects_invariant MigrationState Data resolve collect
                resolveExternalStylesheet getTargetTsconfigPath cwd join
                createProgramFromTsconfig globSync applyEdits
                (cdkMigrations ++ extraMigrations) targetVersion upgradeData
                (projects workspace) st0 H0)
      as (st1 & Hloop & (Hinv & Hpending & Htasks)).
    rewrite Hloop.
    pose proof (globalPostMigrations_none MigrationState Data
                  (cdkMigrations ++ extraMigrations)) as Hnone.
    unfold globalPostMigrations.
    destruct (fold_left _ (cdkMigrations ++ extraMigrations)
                (tree (rule_world st1), false))
      as [files1 runPackageManager] eqn:Hpost.
    set (w2 := match onMigrationCompleteFn with
               | Some f => _
               | None => _
               end).
    assert (Hw2 : analyzedFiles w2 = analyzedFiles (rule_world st1) /\
                  pendingEdits w2 = pendingEdits (rule_world st1) /\
                  tree w2 = files1 /\
                  trace w2 = trace (rule_world st1)).
    { unfold w2. destruct onMigrationCompleteFn as [f|]; [|auto].
      rewrite log_entries_trace.
      destruct (log_entries_fields (f targetVersion (rule_hasFailures st1))
                  (with_tree files1 (rule_world st1))) as (-> & -> & ->).
      auto. }
    destruct Hw2 as (Hfiles & Hpend & Htree & Htrace).
    destruct Hinv as (_ & Hone & _ & Hvisited).
    eexists. split; [reflexivity|]. simpl.
    split; [congruence|].
    split; [intros p; rewrite Htrace; apply Hone|].
    split; [intros p; rewrite Htrace, Hfiles; apply Hvisited|].
    split.
    + rewrite Htasks. destruct runPackageManager; auto.
    + intros Hno. rewrite (Hnone Hno) in Hpost.
      injection Hpost as <- <-. split; [exact Htasks|].
      intros st1' workspace' Hws Hloop'.
      injection Hws as <-. rewrite Hloop in Hloop'.
      injection Hloop' as <-. exact Htree.
  - eexists. split; [reflexivity|]. simpl.
    split; [reflexivity|]. split; [intros p; lia|].
    split; [intros p Hp; inversion Hp|].
    split; [auto|]. intros _. split; [reflexivity|].
    intros st1 workspace Hws. discriminate Hws.
Qed.

End DevkitCoverageProofs.

(** ** The element selectors rule over a whole run *)
Module ElementSelectorsRunsProofs.
Import UpgradeData ElementSelectors ElementSelectorsProofs ElementSelectorsRuns.

Lemma replaced_pairs_app data a b :
  replaced_pairs data a -> replaced_pairs data b -> replaced_pairs data (a ++ b).
Proof.
  induction 1 as [|start selector rest Hin _ IH]; intros Hb; simpl;
    [exact Hb|].
  constructor; [exact Hin | apply IH, Hb].
Qed.

Section Rule.
Variable findAllSubstringIndices : string -> string -> list nat.
Variable treeFilePath : string -> string.

Local Abbreviation visit := (visit findAllSubstringIndices treeFilePath).
Local Abbreviation replacements := (replacements findAllSubstringIndices).

Lemma occurrences_pairs data selector base offsets :
  In selector data ->
  replaced_pairs data
    (flat_map
       (fun offset =>
          [ remove (base + offset) (String.length (selector_replace selector));
            insertRight (base + offset) (selector_replaceWith selector) ])
       offsets).
Proof.
  intros Hin. induction offsets as [|offset offsets IH]; simpl.
  - constructor.
  - constructor; assumption.
Qed.

Lemma replacements_pairs data selectors text base :
  incl selectors data ->
  replaced_pairs data (replacements selectors text base).
Proof.
  unfold ElementSelectors.replacements.
  induction selectors as [|selector selectors IH]; intros Hincl; simpl.
  - constructor.
  - apply replaced_pairs_app.
    + apply occurrences_pairs, Hincl. left. reflexivity.
    + apply IH. intros x Hx. apply Hincl. right. exact Hx.
Qed.

(** The calls a visit adds, and the file whose recorder receives them. *)
Lemma visit_only_records data p v :
  exists filePath added,
    only_records treeFilePath p (visit data p v) filePath added /\
    replaced_pairs data added.
Proof.
  destruct v as [node|template|stylesheet]; simpl.
  - unfold visitNode, _visitStringLiteralLike.
    destruct (isStringLiteralLike node);
      [|exists (sourceFileName node), [];
        split; [apply only_records_refl | constructor]].
    destruct (parent_kind node) as [[]|];
      first [ exists (sourceFileName node), [];
              split; [apply only_records_refl | constructor]
            | eexists _, _;
              split; [apply only_records_replaceAll
                     | apply replacements_pairs, incl_refl] ].
  - eexists _, _.
    split; [apply only_records_replaceAll
           | apply replacements_pairs, incl_refl].
  - eexists _, _.
    split; [apply only_records_replaceAll
           | apply replacements_pairs, incl_refl].
Qed.

Lemma visit_pairs data p v :
  (forall path, replaced_pairs data (recorded p path)) ->
  files (visit data p v) = files p /\
  forall path, replaced_pairs data (recorded (visit data p v) path).
Proof.
  intros Hp.
  destruct (visit_only_records data p v)
    as (filePath & added & (Hfiles & Hrec & Hother & _) & Hadded).
  split; [exact Hfiles|]. intros path.
  destruct (decide (path = treeFilePath filePath)) as [->|Hne].
  - rewrite Hrec. apply replaced_pairs_app; [apply Hp | exact Hadded].
  - unfold recorded. rewrite (Hother path Hne). apply Hp.
Qed.

Lemma visits_pairs data visits : forall p,
  (forall path, replaced_pairs data (recorded p path)) ->
  files (fold_left (visit data) visits p) = files p /\
  forall path,
    replaced_pairs data (recorded (fold_left (visit data) visits p) path).
Proof.
  induction visits as [|v visits IH]; intros p Hp; simpl; [auto|].
  destruct (visit_pairs data p v Hp) as [Hfiles Hpairs].
  destruct (IH _ Hpairs) as [Hfiles' Hpairs'].
  split; [congruence | exact Hpairs'].
Qed.

Lemma visit_without_data p v : visit [] p v = p.
Proof.
  destruct v as [node|template|stylesheet]; simpl; try reflexivity.
  unfold visitNode, _visitStringLiteralLike.
  destruct (isStringLiteralLike node); [|reflexivity].
  destruct (parent_kind node) as [[]|]; reflexivity.
Qed.
End Rule.

(** X14. Over a whole run of the element selectors rule, from recorders
    that have received no call and whatever nodes, templates and
    stylesheets are visited in whatever order: the text of the files stays
    as it was, and the calls held by every recorder come in pairs, the
    removal of the old name of a selector of the upgrade data (over its
    whole length) followed at once by the insertion of its new name at the
    same index.  Without upgrade data the visits record nothing. *)
Theorem element_selectors_run_records_pairs
    (findAllSubstringIndices : string -> string -> list nat)
    (treeFilePath : string -> string)
    (data : list ElementSelectorUpgradeData)
    (texts : gmap string string) (visits : list Visit) :
  let p := fold_left (visit findAllSubstringIndices treeFilePath data) visits
             (Project_new texts) in
  files p = texts /\
  (forall path, replaced_pairs data (recorded p path)) /\
  (forall path,
     Nat.Even (length (recorded p path)) /\
     Forall isRemoveOrInsertRight (recorded p path)) /\
  fold_left (visit findAllSubstringIndices treeFilePath []) visits
    (Project_new texts) = Project_new texts.
Proof.
  intros p.
  destruct (visits_pairs findAllSubstringIndices treeFilePath data visits
              (Project_new texts)) as [Hfiles Hpairs].
  { intros path. unfold recorded. simpl. rewrite lookup_empty. constructor. }
  split; [exact Hfiles|]. split; [exact Hpairs|]. split.
  - intros path. specialize (Hpairs path). fold p in Hpairs.
    induction Hpairs as [|start selector rest _ _ [[k Hk] Hall]].
    + split; [exists 0; reflexivity | constructor].
    + split.
      * exists (S k). simpl. rewrite Hk. lia.
      * repeat constructor. exact Hall.
  - clear. induction visits as [|v visits IH]; simpl; [reflexivity|].
    rewrite visit_without_data. exact IH.
Qed.

End ElementSelectorsRunsProofs.

(** ** The clipboard: a pending copy *)
Module ClipboardProofs.
Import Clipboard.

Lemma removals_call c d :
  isRemoveChild c = false -> removals (call c d) = removals d.
Proof.
  intros Hc. unfold removals, call. simpl.
  rewrite List.filter_app, length_app. simpl. rewrite Hc. simpl. lia.
Qed.

(** [copy] neither attaches nor removes a node, and does nothing once the
    text area is gone. *)
Lemma copy_keeps b p d :
  parentNode (fst (copy b p d)) = parentNode d /\
  removals (fst (copy b p d)) = removals d /\
  (_textarea p = None -> copy b p d = (d, false)).
Proof.
  unfold copy. destruct (_textarea p) as [textarea|]; [|auto].
  split; [|split; [|discriminate]].
  - destruct (selectThrows b); [reflexivity|].
    destruct (setSelectionRangeThrows b); [reflexivity|].
    destruct (execCommand b) as [successful|]; [|reflexivity].
    destruct (activeElement b) as [[currentFocus []]|]; reflexivity.
  - destruct (selectThrows b); [|destruct (setSelectionRangeThrows b);
      [|destruct (execCommand b) as [successful|];
        [destruct (activeElement b) as [[currentFocus []]|]|]]];
      cbn [fst]; rewrite !removals_call by reflexivity; reflexivity.
Qed.

(** While in use, the text area hangs under the body; once destroyed, it
    has been removed, once, and the nodes are attached as they were. *)
Definition in_use (d0 : Document) (w : World) : Prop :=
  (_textarea (pending w) = Some (nextElement d0) /\
   parentNode (document w) = <[nextElement d0 := body d0]> (parentNode d0) /\
   removals (document w) = removals d0) \/
  (_textarea (pending w) = None /\
   parentNode (document w) = parentNode d0 /\
   removals (document w) = S (removals d0)).

Lemma start_in_use text d0 : in_use d0 (start text d0).
Proof.
  left. unfold start, construct. simpl. split; [reflexivity|].
  split; [reflexivity|]. unfold removals. simpl.
  rewrite <- !app_assoc, List.filter_app. simpl. rewrite app_nil_r.
  reflexivity.
Qed.

Lemma step_in_use d0 w a : fresh d0 -> in_use d0 w -> in_use d0 (step w a).
Proof.
  intros Hfresh Hw. destruct a as [b|]; unfold step.
  - destruct (copy_keeps b (pending w) (document w)) as (Hparent & Hrem & _).
    destruct (copy b (pending w) (document w)) as [d successful].
    simpl in *. unfold in_use. simpl. rewrite Hparent, Hrem. exact Hw.
  - unfold destroy.
    destruct Hw as [(Ht & Hparent & Hrem)|(Ht & Hparent & Hrem)];
      rewrite Ht; [|right; auto].
    rewrite Hparent, lookup_insert_eq. right. simpl.
    split; [reflexivity|]. split.
    + rewrite delete_insert_eq. apply delete_id, Hfresh.
    + unfold removals in *. simpl.
      rewrite List.filter_app, length_app, Hrem. simpl. lia.
Qed.

Lemma run_in_use d0 actions : forall w,
  fresh d0 -> in_use d0 w -> in_use d0 (fold_left step actions w).
Proof.
  induction actions as [|a actions IH]; intros w Hfresh Hw; simpl;
    [exact Hw|].
  apply IH; [exact Hfresh | apply step_in_use; assumption].
Qed.

Lemma destroy_in_use d0 w :
  fresh d0 -> in_use d0 w ->
  _textarea (pending (step w Destroy)) = None /\
  parentNode (document (step w Destroy)) = parentNode d0 /\
  removals (document (step w Destroy)) = S (removals d0).
Proof.
  intros Hfresh Hw. pose proof (step_in_use d0 w Destroy Hfresh Hw) as Hd.
  destruct Hd as [(Ht & _)|Hd]; [|exact Hd].
  exfalso. revert Ht. unfold step, destroy.
  destruct (_textarea (pending w)) eqn:Hp; simpl; [discriminate|].
  rewrite Hp. discriminate.
Qed.

(** Once the text area is gone, [copy] and [destroy] leave the document
    alone, and [copy] returns [false]. *)
Lemma run_after_destroy actions : forall w,
  _textarea (pending w) = None ->
  document (fold_left step actions w) = document w /\
  _textarea (pending (fold_left step actions w)) = None /\
  results (fold_left step actions w) =
    results w ++ repeat false (length (List.filter isCopy actions)).
Proof.
  induction actions as [|a actions IH]; intros w Hw; simpl.
  { rewrite app_nil_r. auto. }
  destruct a as [b|].
  - destruct (IH (step w (Copy b))) as (Hd & Hp & Hr).
    { unfold step. destruct (copy _ _ _). exact Hw. }
    rewrite Hd, Hr. split; [|split; [exact Hp|]].
    + unfold step.
      destruct (copy_keeps b (pending w) (document w)) as (_ & _ & Hcopy).
      rewrite (Hcopy Hw). reflexivity.
    + unfold step.
      destruct (copy_keeps b (pending w) (document w)) as (_ & _ & Hcopy).
      rewrite (Hcopy Hw). simpl. rewrite <- app_assoc. reflexivity.
  - assert (Hstep : step w Destroy = w).
    { unfold step, destroy. rewrite Hw. destruct w. reflexivity. }
    rewrite Hstep. apply IH, Hw.
Qed.

(** X15. A pending copy cleans up after itself.  Whatever calls of [copy]
    and [destroy] were made before, after a call of [destroy] the nodes of
    the document are attached as they were before the pending copy was
    created, and the text area has been removed exactly once; whatever
    calls follow make no call on the document, and every [copy] among them
    returns [false]. *)
Theorem pending_copy_cleans_up (text : string) (d : Document)
    (before after : list Action) (Hfresh : fresh d) :
  let destroyed := step (fold_left step before (start text d)) Destroy in
  let w := fold_left step after destroyed in
  parentNode (document destroyed) = parentNode d /\
  removals (document destroyed) = S (removals d) /\
  document w = document destroyed /\
  results w =
    results destroyed ++ repeat false (length (List.filter isCopy after)).
Proof.
  intros destroyed w.
  assert (Hbefore : in_use d (fold_left step before (start text d))).
  { apply run_in_use; [exact Hfresh | apply start_in_use]. }
  destruct (destroy_in_use d _ Hfresh Hbefore) as (Ht & Hparent & Hrem).
  fold destroyed in Ht, Hparent, Hrem.
  destruct (run_after_destroy after destroyed Ht) as (Hd & _ & Hr).
  auto.
Qed.

Lemma pending_copy_cleans_up_witness :
  fresh page /\
  let destroyed := step (fold_left step [Copy clicked] (start "text" page))
                     Destroy in
  let w := fold_left step [Copy clicked; Destroy] destroyed in
  parentNode (document destroyed) = parentNode page /\
  removals (document destroyed) = 1 /\
  document w = document destroyed /\
  results w = [true; false].
Proof.
  assert (Hfresh : fresh page) by reflexivity.
  split; [exact Hfresh|].
  exact (pending_copy_cleans_up "text" page [Copy clicked]
           [Copy clicked; Destroy] Hfresh).
Defined.

End ClipboardProofs.

(** ** The padding of tree nodes *)
Module TreeNodePaddingProofs.
Import Js TreeNodePadding.

Lemma append_empty_r s : s +:+ EmptyString = s.
Proof.
  induction s as [|a s IH]; [reflexivity|].
  change (String a s +:+ EmptyString) with (String a (s +:+ EmptyString)).
  rewrite IH. reflexivity.
Qed.

Lemma split_units_spec s :
  let '(before, units) := split_units s in
  before +:+ units = s /\
  only_units units = true /\
  ends_with_unit before = false.
Proof.
  induction s as [|c rest IH]; simpl; [auto|].
  destruct (split_units rest) as [before units].
  destruct IH as (Happ & Hunits & Hends).
  destruct (String.eqb before EmptyString && isUnitChar c) eqn:Hc.
  - apply andb_true_iff in Hc. destruct Hc as [Hbefore Hc].
    apply String.eqb_eq in Hbefore. subst before. simpl in *.
    subst rest. rewrite Hc, Hunits. auto.
  - split; [rewrite <- Happ; reflexivity|]. split; [exact Hunits|].
    destruct before as [|b before']; [|exact Hends].
    simpl in Hc. exact Hc.
Qed.

Section Directive.
Variable T : Type.
Variable truthy_data : T -> bool.
Variable coerceNumberProperty : forall D : Type, val -> D -> number + D.
Variable multiply : number -> number -> number.
Variable NumberToString : number -> string.

Local Abbreviation CdkTreeNodePadding := (CdkTreeNodePadding).
Local Abbreviation _paddingIndent :=
  (_paddingIndent T truthy_data multiply NumberToString).
Local Abbreviation _setPadding :=
  (_setPadding T truthy_data multiply NumberToString).
Local Abbreviation construct :=
  (construct T truthy_data multiply NumberToString).
Local Abbreviation set_level :=
  (set_level T truthy_data coerceNumberProperty multiply NumberToString).
Local Abbreviation set_indent :=
  (set_indent T truthy_data coerceNumberProperty multiply NumberToString).
Local Abbreviation step :=
  (step T truthy_data coerceNumberProperty multiply NumberToString).

Lemma setPadding_fields force tree c :
  indentUnits (_setPadding force tree c) = indentUnits c /\
  _level (_setPadding force tree c) = _level c /\
  _indent (_setPadding force tree c) = _indent c /\
  _dir (_setPadding force tree c) = _dir c.
Proof.
  unfold TreeNodePadding._setPadding. destruct (_ || _); auto.
Qed.

Lemma paddingIndent_setPadding force tree tree' c :
  _paddingIndent tree' (_setPadding force tree c) = _paddingIndent tree' c.
Proof.
  unfold TreeNodePadding._setPadding. destruct (_ || _); reflexivity.
Qed.

(** After [_setPadding], the current padding is the one just computed. *)
Lemma setPadding_current force tree c :
  _currentPadding (_setPadding force tree c) = Some (_paddingIndent tree c).
Proof.
  unfold TreeNodePadding._setPadding.
  destruct (negb (bool_decide _) || force) eqn:Hwrite; [reflexivity|].
  apply orb_false_iff in Hwrite. destruct Hwrite as [Hsame _].
  apply negb_false_iff, bool_decide_eq_true in Hsame. symmetry. exact Hsame.
Qed.

(** Unless forced, [_setPadding] leaves the style alone when the padding
    is what it was. *)
Lemma setPadding_unchanged tree c :
  _currentPadding (_setPadding false tree c) = _currentPadding c ->
  styleWrites (_setPadding false tree c) = styleWrites c /\
  paddingLeft (_setPadding false tree c) = paddingLeft c /\
  paddingRight (_setPadding false tree c) = paddingRight c.
Proof.
  unfold TreeNodePadding._setPadding.
  destruct (negb (bool_decide _) || false) eqn:Hwrite; [|auto].
  simpl. intros Hsame. rewrite orb_false_r in Hwrite.
  apply negb_true_iff, bool_decide_eq_false in Hwrite. contradiction.
Qed.

Lemma setPadding_shows force tree c :
  shows_padding c \/ force = true \/ _currentPadding c = None ->
  shows_padding (_setPadding force tree c).
Proof.
  intros Hc. unfold TreeNodePadding._setPadding.
  destruct (negb (bool_decide _) || force) eqn:Hwrite.
  - eexists. split; [reflexivity|]. simpl.
    destruct (_dir c) as [[]|]; auto.
  - apply orb_false_iff in Hwrite. destruct Hwrite as [Hsame Hforce].
    apply negb_false_iff, bool_decide_eq_true in Hsame.
    destruct Hc as [Hc|[Hc|Hc]]; [exact Hc | congruence | congruence].
Qed.

Lemma step_shows c e : shows_padding c -> shows_padding (step c e).
Proof.
  intros Hc. destruct e as [[value|indent|value|] tree]; simpl.
  - apply setPadding_shows. left. exact Hc.
  - unfold TreeNodePadding.set_indent.
    destruct (indent_parts indent) as [value units].
    apply setPadding_shows. left. exact Hc.
  - destruct (_dir c) eqn:Hdir; [|exact Hc].
    apply setPadding_shows. right. left. reflexivity.
  - apply setPadding_shows. left. exact Hc.
Qed.

Lemma indent_parts_units indent :
  snd (indent_parts indent) <> EmptyString /\
  only_units (snd (indent_parts indent)) = true.
Proof.
  destruct indent as [n|s| |]; simpl; try (split; [discriminate|reflexivity]).
  unfold split. pose proof (split_units_spec s) as Hs.
  destruct (split_units s) as [before units].
  destruct Hs as (_ & Hunits & _).
  destruct (String.eqb_spec units EmptyString) as [->|Hne]; simpl.
  - split; [discriminate|reflexivity].
  - destruct (String.eqb_spec units EmptyString) as [->|_]; [congruence|].
    split; assumption.
Qed.

Lemma step_units c e :
  indentUnits c <> EmptyString /\ only_units (indentUnits c) = true ->
  indentUnits (step c e) <> EmptyString /\
  only_units (indentUnits (step c e)) = true.
Proof.
  intros Hc. destruct e as [[value|indent|value|] tree]; simpl.
  - unfold TreeNodePadding.set_level.
    destruct (setPadding_fields false tree
                {| _currentPadding := _currentPadding c;
                   indentUnits := indentUnits c;
                   _level := match coerceNumberProperty unit value tt with
                             | inl n => Some n
                             | inr _ => None
                             end;
                   _indent := _indent c;
                   _dir := _dir c;
                   paddingLeft := paddingLeft c;
                   paddingRight := paddingRight c;
                   styleWrites := styleWrites c |}) as (-> & _).
    exact Hc.
  - unfold TreeNodePadding.set_indent.
    pose proof (indent_parts_units indent) as Hparts.
    destruct (indent_parts indent) as [value units].
    match goal with
    | |- context [TreeNodePadding._setPadding _ _ _ _ ?f ?t ?c0] =>
        destruct (setPadding_fields f t c0) as (-> & _)
    end.
    exact Hparts.
  - destruct (_dir c); [|exact Hc].
    destruct (setPadding_fields true tree (with_dir (Some value) c))
      as (-> & _).
    exact Hc.
  - destruct (setPadding_fields false tree c) as (-> & _). exact Hc.
Qed.
End Directive.

(** X16. The indent of a tree node is split on its CSS units: for a string,
    the units are the longest run of letters and percent signs that ends
    it, and the value handed to [coerceNumberProperty] is what comes before;
    without such a run, and for an indent that is no string, the units are
    px.  So, whatever inputs are set, the units of the directive are never
    empty and never hold another character. *)
Theorem indent_units_follow_the_pattern
    (T : Type) (truthy_data : T -> bool)
    (coerceNumberProperty : forall D : Type, val -> D -> number + D)
    (multiply : number -> number -> number)
    (NumberToString : number -> string) :
  (forall s tree c,
     let c' := set_indent T truthy_data coerceNumberProperty multiply
                 NumberToString (VString s) tree c in
     let '(value, units) := split_units s in
     value +:+ units = s /\
     only_units units = true /\
     ends_with_unit value = false /\
     indentUnits c' = (if String.eqb units EmptyString then "px" else units) /\
     _indent c' = match coerceNumberProperty number (VString value) zero with
                  | inl n => n
                  | inr n => n
                  end) /\
  (forall indent tree c,
     (forall s, indent <> VString s) ->
     let c' := set_indent T truthy_data coerceNumberProperty multiply
                 NumberToString indent tree c in
     indentUnits c' = "px" /\
     _indent c' = match coerceNumberProperty number indent zero with
                  | inl n => n
                  | inr n => n
                  end) /\
  (forall dir left right tree events,
     let c := fold_left
                (step T truthy_data coerceNumberProperty multiply
                   NumberToString)
                events
                (construct T truthy_data multiply NumberToString dir left
                   right tree) in
     indentUnits c <> EmptyString /\ only_units (indentUnits c) = true).
Proof.
  split; [|split].
  - intros s tree c c'. subst c'.
    pose proof (split_units_spec s) as Hs.
    unfold set_indent, indent_parts, split.
    destruct (split_units s) as [value units].
    destruct Hs as (Happ & Hunits & Hends).
    split; [exact Happ|]. split; [exact Hunits|]. split; [exact Hends|].
    destruct (String.eqb_spec units EmptyString) as [->|Hne]; simpl.
    + rewrite <- Happ.
      rewrite append_empty_r.
      match goal with
      | |- context [_setPadding _ _ _ _ ?f ?t ?c0] =>
          destruct (setPadding_fields T truthy_data multiply NumberToString
                      f t c0) as (-> & _ & -> & _)
      end.
      simpl. auto.
    + destruct (String.eqb_spec units EmptyString) as [->|_]; [congruence|].
      match goal with
      | |- context [_setPadding _ _ _ _ ?f ?t ?c0] =>
          destruct (setPadding_fields T truthy_data multiply NumberToString
                      f t c0) as (-> & _ & -> & _)
      end.
      simpl. auto.
  - intros indent tree c Hindent c'. subst c'.
    unfold set_indent, indent_parts.
    destruct indent as [n|s| |]; try (destruct (Hindent s eq_refl));
      match goal with
      | |- context [_setPadding _ _ _ _ ?f ?t ?c0] =>
          destruct (setPadding_fields T truthy_data multiply NumberToString
                      f t c0) as (-> & _ & -> & _)
      end; simpl; auto.
  - intros dir left right tree events.
    set (c0 := construct _ _ _ _ dir left right tree).
    assert (H0 : indentUnits c0 <> EmptyString /\
                 only_units (indentUnits c0) = true).
    { unfold c0, construct.
      match goal with
      | |- context [_setPadding _ _ _ _ ?f ?t ?c1] =>
          destruct (setPadding_fields T truthy_data multiply NumberToString
                      f t c1) as (-> & _)
      end.
      simpl. split; [discriminate|reflexivity]. }
    clearbody c0. revert c0 H0.
    induction events as [|e events IH]; intros c0 H0; simpl; [exact H0|].
    apply IH, step_units, H0.
Qed.

(** X17. From its construction on, whatever the padding of the element was
    and whatever events follow, the directive has a current padding, and the
    element shows it on one side only: on the right when a directionality
    was injected and is right-to-left, on the left otherwise, with no
    padding at all on the other side.  After every event the directive
    hears, the current padding is the one computed from the tree as it is at
    that event; and an event that leaves the current padding what it was,
    a change of direction apart, does not write to the style. *)
Theorem tree_node_padding_on_one_side
    (T : Type) (truthy_data : T -> bool)
    (coerceNumberProperty : forall D : Type, val -> D -> number + D)
    (multiply : number -> number -> number)
    (NumberToString : number -> string)
    (dir : option Direction) (left right : string) (tree : Tree T)
    (events : list (Event * Tree T)) :
  let step := step T truthy_data coerceNumberProperty multiply
                NumberToString in
  let c := fold_left step events
             (construct T truthy_data multiply NumberToString dir left right
                tree) in
  shows_padding c /\
  (paddingLeft c = EmptyString \/ paddingRight c = EmptyString) /\
  (forall event tree',
     heard c event = true ->
     _currentPadding (step c (event, tree')) =
       Some (_paddingIndent T truthy_data multiply NumberToString tree'
               (step c (event, tree')))) /\
  (forall event tree',
     (forall value, event <> DirChange value) ->
     _currentPadding (step c (event, tree')) = _currentPadding c ->
     styleWrites (step c (event, tree')) = styleWrites c /\
     paddingLeft (step c (event, tree')) = paddingLeft c /\
     paddingRight (step c (event, tree')) = paddingRight c).
Proof.
  intros step c.
  assert (Hc : shows_padding c).
  { unfold c.
    set (c0 := construct _ _ _ _ dir left right tree).
    assert (H0 : shows_padding c0).
    { unfold c0, construct. apply setPadding_shows. right. right. reflexivity. }
    clearbody c0. revert c0 H0.
    induction events as [|e events IH]; intros c0 H0; simpl; [exact H0|].
    apply IH. apply step_shows, H0. }
  split; [exact Hc|]. split; [|split].
  - destruct Hc as (padding & _ & Hside).
    destruct (_dir c) as [[]|]; destruct Hside; auto.
  - intros event tree' Hheard. unfold step, TreeNodePadding.step.
    destruct event as [value|indent|value|].
    + unfold set_level.
      rewrite paddingIndent_setPadding. apply setPadding_current.
    + unfold set_indent. destruct (indent_parts indent) as [value units].
      rewrite paddingIndent_setPadding. apply setPadding_current.
    + unfold heard in Hheard. destruct (_dir c); [|discriminate].
      rewrite paddingIndent_setPadding. apply setPadding_current.
    + rewrite paddingIndent_setPadding. apply setPadding_current.
  - intros event tree' Hevent. unfold step, TreeNodePadding.step.
    destruct event as [value|indent|value|].
    + unfold set_level.
      match goal with
      | |- context [TreeNodePadding._setPadding _ _ _ _ false tree' ?c0] =>
          exact (setPadding_unchanged T truthy_data multiply NumberToString
                   tree' c0)
      end.
    + unfold set_indent. destruct (indent_parts indent) as [value units].
      match goal with
      | |- context [TreeNodePadding._setPadding _ _ _ _ false tree' ?c0] =>
          exact (setPadding_unchanged T truthy_data multiply NumberToString
                   tree' c0)
      end.
    + destruct (Hevent value eq_refl).
    + apply setPadding_unchanged.
Qed.

End TreeNodePaddingProofs.
